(** * The buffered-send arena of MPICH (bsendutil)

    A shallow embedding of the allocator behind [MPI_Buffer_attach],
    [MPI_Buffer_detach] and [MPI_Ibsend]: an in-band, doubly linked,
    address-ordered free list ([avail]) next to a list of blocks whose
    payload is in flight ([active]).

    Conventions of the embedding.
    - A pointer is its address, a [Z]; [NULL] is [0].  Arithmetic on
      [char *] is addition on addresses.
    - [size_t] values are [Z] in the range [0 .. 2^64); every [size_t]
      operation of the source is followed by [wrap].
    - The block headers ([MPII_Bsend_data_t]) that the code writes into the
      user buffer are kept in a finite map from the address of a header to
      its fields.  Reading or updating a header at an address where none was
      ever written has no meaning in C; the embedding answers [None].
    - Loops that follow [next] pointers take a [fuel] argument; running out
      of fuel is [None] as well.
    - The payload bytes themselves are not represented: no function of this
      file inspects them. *)

From stdpp Require Import base option list gmap sorting.
From Stdlib Require Import ZArith Lia.

Open Scope Z_scope.

(** ** Platform constants

    [mpiimpl.h] and the configure step fix these; the allocator only uses
    them through the expressions below. *)

Class Platform := {
  sizeof_voidp : Z;            (* sizeof(void * ) *)
  sizeof_double : Z;           (* sizeof(double) *)
  sizeof_Bsend_data : Z;       (* sizeof(MPII_Bsend_data_t) *)
  MAX_ALIGNMENT : Z;
  MPI_BSEND_OVERHEAD : Z;
  MPI_PACKED : Z;
}.

Definition NULL : Z := 0.

(** [size_t] arithmetic is modulo [2^64]. *)
Definition wrap (x : Z) : Z := x mod 2 ^ 64.
#[global] Arguments wrap : simpl never.

(** Conversion of a [size_t] to the signed [MPI_Aint]. *)
Definition to_Aint (x : Z) : Z := if wrap x <? 2 ^ 63 then wrap x else wrap x - 2 ^ 64.

(** This is the minimum number of bytes that a segment must be able to hold. *)
Definition MIN_BUFFER_BLOCK : Z := 8.

(** ** Data *)

(** [MPII_Bsend_data_t]: the header at the start of every block.  [msgbuf]
    and [count] are the fields of the embedded [msg] that the allocator
    uses. *)
Record Bsend_data := mkData {
  size : Z;          (* bytes available for the message *)
  total_size : Z;    (* bytes of the whole block, header included *)
  next : Z;
  prev : Z;
  request : Z;
  msgbuf : Z;
  count : Z;
}.

(** [MPII_BsendBuffer]: the bookkeeping of one attached buffer. *)
Record BsendBuffer := mkBuffer {
  buffer : Z;
  buffer_size : Z;
  origbuffer : Z;
  origbuffer_size : Z;
  avail : Z;
  active : Z;
}.

(** What [MPL_calloc] returns for a fresh [MPII_BsendBuffer]. *)
Definition calloc_BsendBuffer : BsendBuffer := mkBuffer 0 0 0 0 0 0.

(** A header none of whose fields was written yet. *)
Definition blank : Bsend_data := mkData 0 0 0 0 0 0 0.

Definition set_size (v : Z) (b : Bsend_data) : Bsend_data :=
  mkData v (total_size b) (next b) (prev b) (request b) (msgbuf b) (count b).
Definition set_total_size (v : Z) (b : Bsend_data) : Bsend_data :=
  mkData (size b) v (next b) (prev b) (request b) (msgbuf b) (count b).
Definition set_next (v : Z) (b : Bsend_data) : Bsend_data :=
  mkData (size b) (total_size b) v (prev b) (request b) (msgbuf b) (count b).
Definition set_prev (v : Z) (b : Bsend_data) : Bsend_data :=
  mkData (size b) (total_size b) (next b) v (request b) (msgbuf b) (count b).
Definition set_request (v : Z) (b : Bsend_data) : Bsend_data :=
  mkData (size b) (total_size b) (next b) (prev b) v (msgbuf b) (count b).
Definition set_msgbuf (v : Z) (b : Bsend_data) : Bsend_data :=
  mkData (size b) (total_size b) (next b) (prev b) (request b) v (count b).
Definition set_count (v : Z) (b : Bsend_data) : Bsend_data :=
  mkData (size b) (total_size b) (next b) (prev b) (request b) (msgbuf b) v.

Definition set_avail (v : Z) (bb : BsendBuffer) : BsendBuffer :=
  mkBuffer (buffer bb) (buffer_size bb) (origbuffer bb) (origbuffer_size bb) v (active bb).
Definition set_active (v : Z) (bb : BsendBuffer) : BsendBuffer :=
  mkBuffer (buffer bb) (buffer_size bb) (origbuffer bb) (origbuffer_size bb) (avail bb) v.

(** The headers in memory. *)
Abbreviation heap := (gmap Z Bsend_data).

(** [p->field], for a [p] that must point at a header. *)
Definition rd (m : heap) (p : Z) (field : Bsend_data → Z) : option Z :=
  field <$> m !! p.

(** [p->field = v], through the setter [upd]. *)
Definition wr (m : heap) (p : Z) (upd : Bsend_data → Bsend_data) : option heap :=
  b ← m !! p; Some (<[p := upd b]> m).

(** The first write into a region of the buffer that is about to become a
    header: fields not assigned keep whatever was there. *)
Definition carve (m : heap) (p : Z) (upd : Bsend_data → Bsend_data) : heap :=
  <[p := upd (default blank (m !! p))]> m.

(** The error codes that the routines build with [MPIR_Err_create_code] and
    the [MPIR_ERR_*] macros, one constructor per place that raises. *)
Inductive mpi_errno :=
  | MPI_SUCCESS
  | Err_bufexists                                   (* "**bufexists" *)
  | Err_bsendbufsmall (given overhead : Z)          (* "**bsendbufsmall" *)
  | Err_no_buffer_attached (packsize : Z)           (* "**bufbsend", no buffer *)
  | Err_no_buffer_space (packsize bufsize : Z)      (* "**bufbsend", no room *)
  | Err_internal (e : Z)                            (* isend returned err *)
  | Err_other (e : Z).                              (* code of a callee, passed on *)

#[global] Instance mpi_errno_eq_dec : EqDecision mpi_errno.
Proof. solve_decision. Defined.

(** ** The allocator *)

Section Model.
Context `{Platform}.

Definition BSENDDATA_HEADER_TRUE_SIZE : Z := sizeof_Bsend_data - sizeof_double.

(** *** [MPIR_Bsend_attach] *)

(** The slot [*bsendbuffer_p] is [None] when the pointer is [NULL].  The
    result is the error code, the slot and the memory afterwards. *)
Definition MPIR_Bsend_attach (slot : option BsendBuffer) (buffer_ buffer_size_ : Z)
    (m : heap) : mpi_errno * option BsendBuffer * heap :=
  let bsendbuffer := default calloc_BsendBuffer slot in
  if decide (buffer bsendbuffer ≠ NULL) then
    (Err_bufexists, Some bsendbuffer, m)
  else if decide (buffer_size_ < MPI_BSEND_OVERHEAD) then
    (Err_bsendbufsmall buffer_size_ MPI_BSEND_OVERHEAD, Some bsendbuffer, m)
  else
    let bsendbuffer := mkBuffer buffer_ (wrap buffer_size_) buffer_ (wrap buffer_size_)
                                (avail bsendbuffer) (active bsendbuffer) in
    let align_sz := Z.max sizeof_voidp sizeof_double in
    let offset := wrap buffer_ mod align_sz in
    let '(buffer_, bsendbuffer) :=
      if decide (offset ≠ 0) then
        let offset := wrap (align_sz - offset) in
        let buffer_ := buffer_ + offset in
        (buffer_,
         mkBuffer buffer_ (wrap (buffer_size bsendbuffer - offset))
                  (origbuffer bsendbuffer) (origbuffer_size bsendbuffer)
                  (avail bsendbuffer) (active bsendbuffer))
      else (buffer_, bsendbuffer) in
    let bsendbuffer := set_active 0 (set_avail buffer_ bsendbuffer) in
    (* Set the first block *)
    let p := buffer_ in
    let m := carve m p (set_size (wrap (buffer_size_ - BSENDDATA_HEADER_TRUE_SIZE))) in
    let m := carve m p (set_total_size (wrap buffer_size_)) in
    let m := carve m p (set_prev NULL) in
    let m := carve m p (set_next NULL) in
    let m := carve m p (set_msgbuf (p + BSENDDATA_HEADER_TRUE_SIZE)) in
    (MPI_SUCCESS, Some bsendbuffer, m).

(** *** [MPIR_Bsend_find_buffer] *)

Fixpoint find_buffer_from (fuel : nat) (m : heap) (p size_ : Z) : option Z :=
  if decide (p = NULL) then Some NULL
  else match fuel with
       | O => None
       | S fuel =>
           psize ← rd m p size;
           if decide (size_ ≤ psize) then Some p
           else pnext ← rd m p next; find_buffer_from fuel m pnext size_
       end.

Definition MPIR_Bsend_find_buffer (fuel : nat) (bsendbuffer : BsendBuffer) (m : heap)
    (size_ : Z) : option Z :=
  find_buffer_from fuel m (avail bsendbuffer) size_.

(** *** [MPIR_Bsend_take_buffer] *)

(** The padding of the request to a multiple of [MAX_ALIGNMENT]. *)
Definition alloc_size_of (size_ : Z) : Z :=
  let alloc_size := size_ in
  if decide (Z.land alloc_size (MAX_ALIGNMENT - 1) ≠ 0) then
    wrap (alloc_size + (MAX_ALIGNMENT - Z.land alloc_size (MAX_ALIGNMENT - 1)))
  else alloc_size.

(** Is there enough space left to create a new block?  If so, carve it. *)
Definition take_split (m : heap) (p alloc_size : Z) : option heap :=
  psize ← rd m p size;
  if decide (wrap (alloc_size + BSENDDATA_HEADER_TRUE_SIZE + MIN_BUFFER_BLOCK) ≤ psize) then
    let newp := p + BSENDDATA_HEADER_TRUE_SIZE + alloc_size in
    ptotal ← rd m p total_size;
    let m := carve m newp (set_total_size (wrap (ptotal - alloc_size - BSENDDATA_HEADER_TRUE_SIZE))) in
    m ← wr m newp (λ b, set_size (wrap (total_size b - BSENDDATA_HEADER_TRUE_SIZE)) b);
    m ← wr m newp (set_msgbuf (newp + BSENDDATA_HEADER_TRUE_SIZE));
    (* Insert this new block after p *)
    pnext ← rd m p next;
    m ← wr m newp (set_next pnext);
    m ← wr m newp (set_prev p);
    pnext ← rd m p next;
    m ← (if decide (pnext ≠ NULL) then wr m pnext (set_prev newp) else Some m);
    m ← wr m p (set_next newp);
    m ← wr m p (set_total_size (wrap (newp - p)));
    wr m p (λ b, set_size (wrap (total_size b - BSENDDATA_HEADER_TRUE_SIZE)) b)
  else Some m.

(** Remove p from the avail list and add it to the active list. *)
Definition take_move (bsendbuffer : BsendBuffer) (m : heap) (p : Z) :
    option (BsendBuffer * heap) :=
  prev_ ← rd m p prev;
  pnext ← rd m p next;
  '(bsendbuffer, m) ←
    (if decide (prev_ ≠ NULL) then m ← wr m prev_ (set_next pnext); Some (bsendbuffer, m)
     else Some (set_avail pnext bsendbuffer, m));
  pnext ← rd m p next;
  pprev ← rd m p prev;
  m ← (if decide (pnext ≠ NULL) then wr m pnext (set_prev pprev) else Some m);
  m ← (if decide (active bsendbuffer ≠ NULL) then wr m (active bsendbuffer) (set_prev p)
       else Some m);
  m ← wr m p (set_next (active bsendbuffer));
  m ← wr m p (set_prev NULL);
  Some (set_active p bsendbuffer, m).

Definition MPIR_Bsend_take_buffer (bsendbuffer : BsendBuffer) (m : heap) (p size_ : Z) :
    option (BsendBuffer * heap) :=
  m ← take_split m p (alloc_size_of size_);
  take_move bsendbuffer m p.

(** *** [MPIR_Bsend_free_segment] *)

(** Remove the segment from the active list. *)
Definition free_unlink (bsendbuffer : BsendBuffer) (m : heap) (p prev_ : Z) :
    option (BsendBuffer * heap) :=
  '(bsendbuffer, m) ←
    (if decide (prev_ ≠ NULL) then
       pnext ← rd m p next; m ← wr m prev_ (set_next pnext); Some (bsendbuffer, m)
     else
       (* p was at the head of the active list *)
       pnext ← rd m p next; Some (set_active pnext bsendbuffer, m));
  pnext ← rd m p next;
  m ← (if decide (pnext ≠ NULL) then wr m pnext (set_prev prev_) else Some m);
  Some (bsendbuffer, m).

(** Find avail_prev, avail, such that p is between them.  Either may be null
    if p is at either end of the list. *)
Fixpoint free_walk (fuel : nat) (m : heap) (p avail_prev avail_ : Z) : option (Z * Z) :=
  if decide (avail_ = NULL) then Some (avail_prev, avail_)
  else match fuel with
       | O => None
       | S fuel =>
           if decide (p < avail_) then Some (avail_prev, avail_)
           else anext ← rd m avail_ next; free_walk fuel m p avail_ anext
       end.

(** Try to merge p with the next block. *)
Definition free_merge_next (m : heap) (p avail_ : Z) : option heap :=
  if decide (avail_ ≠ NULL) then
    ptotal ← rd m p total_size;
    if decide (p + ptotal = avail_) then
      atotal ← rd m avail_ total_size;
      m ← wr m p (λ b, set_total_size (wrap (total_size b + atotal)) b);
      m ← wr m p (λ b, set_size (wrap (total_size b - BSENDDATA_HEADER_TRUE_SIZE)) b);
      anext ← rd m avail_ next;
      m ← wr m p (set_next anext);
      anext ← rd m avail_ next;
      if decide (anext ≠ NULL) then wr m anext (set_prev p) else Some m
    else
      m ← wr m p (set_next avail_);
      wr m avail_ (set_prev p)
  else wr m p (set_next NULL).

(** Try to merge p with the previous block. *)
Definition free_merge_prev (bsendbuffer : BsendBuffer) (m : heap) (p avail_prev : Z) :
    option (BsendBuffer * heap) :=
  if decide (avail_prev ≠ NULL) then
    atotal ← rd m avail_prev total_size;
    if decide (avail_prev + atotal = p) then
      ptotal ← rd m p total_size;
      m ← wr m avail_prev (λ b, set_total_size (wrap (total_size b + ptotal)) b);
      m ← wr m avail_prev (λ b, set_size (wrap (total_size b - BSENDDATA_HEADER_TRUE_SIZE)) b);
      pnext ← rd m p next;
      m ← wr m avail_prev (set_next pnext);
      pnext ← rd m p next;
      m ← (if decide (pnext ≠ NULL) then wr m pnext (set_prev avail_prev) else Some m);
      Some (bsendbuffer, m)
    else
      m ← wr m avail_prev (set_next p);
      m ← wr m p (set_prev avail_prev);
      Some (bsendbuffer, m)
  else
    (* p is the new head of the list *)
    m ← wr m p (set_prev NULL);
    Some (set_avail p bsendbuffer, m).

(** Add block p to the free list.  Merge into adjacent blocks. *)
Definition MPIR_Bsend_free_segment (fuel : nat) (bsendbuffer : BsendBuffer) (m : heap)
    (p : Z) : option (BsendBuffer * heap) :=
  prev_ ← rd m p prev;
  let avail_ := avail bsendbuffer in
  '(bsendbuffer, m) ← free_unlink bsendbuffer m p prev_;
  '(avail_prev, avail_) ← free_walk fuel m p 0 avail_;
  m ← free_merge_next m p avail_;
  free_merge_prev bsendbuffer m p avail_prev.

End Model.

(** ** The collaborators

    The packing facility, the device's send engine and the progress engine
    are outside this file.  The driver only needs their signatures; their
    state is an abstract [engine]. *)

Class Collaborators := {
  engine : Type;
  (* MPIR_Pack_size(count, dtype, &packsize) *)
  MPIR_Pack_size : Z → Z → Z;
  (* MPIR_Typerep_pack(buf, count, dtype, 0, pbuf, packsize, &actual, FLAG_NONE):
     the error code and the bytes written *)
  MPIR_Typerep_pack : engine → Z → Z → Z → Z → Z → Z * Z;
  (* MPID_Isend(msgbuf, count, MPI_PACKED, dest, tag, comm, 0, &request):
     the error code and the handle stored through the last argument *)
  MPID_Isend : engine → Z → Z → Z → Z → Z * Z * engine;
  MPID_Progress_test : engine → Z * engine;
  MPID_Wait : engine → Z → Z * engine;
  MPIR_Request_is_complete : engine → Z → bool;
  MPIR_Request_is_persistent : engine → Z → bool;
  MPIR_Request_free : engine → Z → engine;
  MPIR_Request_add_ref : engine → Z → engine;
}.

(** The calls a run makes, in order.  The trace is not part of the program;
    it records what the routines below did. *)
Inductive event :=
  | EvCheckActive                 (* MPIR_Bsend_check_active entered *)
  | EvProgressTest                (* MPID_Progress_test *)
  | EvFreeSegment (p : Z)         (* MPIR_Bsend_free_segment(bsendbuffer, p) *)
  | EvRequestFree (r : Z)         (* MPIR_Request_free(r) *)
  | EvFind (size_ p : Z)          (* MPIR_Bsend_find_buffer returned p *)
  | EvPack                        (* MPIR_Typerep_pack or MPIR_Memcpy *)
  | EvIsend (r : Z)               (* MPID_Isend stored r *)
  | EvTake (p size_ : Z)          (* MPIR_Bsend_take_buffer(bsendbuffer, p, size) *)
  | EvAddRef (r : Z)              (* MPIR_Request_add_ref(r) *)
  | EvWait (r : Z).               (* MPID_Wait(r) *)

#[global] Instance event_eq_dec : EqDecision event.
Proof. solve_decision. Defined.

(** [MPIR_Session], [MPIR_Comm] and [MPIR_Process]: only their [bsendbuffer]
    slot, and the communicator's [session_ptr]. *)
Record MPIR_Session := mkSession { session_bsendbuffer : option BsendBuffer }.
Record MPIR_Comm := mkComm {
  comm_bsendbuffer : option BsendBuffer;
  session_ptr : option MPIR_Session;
}.

(** Which of the three slots a send draws from. *)
Inductive slot := CommSlot | SessionSlot | ProcessSlot.

#[global] Instance slot_eq_dec : EqDecision slot.
Proof. solve_decision. Defined.

Section Driver.
Context `{Platform} `{Collaborators}.

(** Everything a routine can change besides the [MPII_BsendBuffer] it was
    handed. *)
Record world := mkWorld {
  mem : heap;
  eng : engine;
  trace : list event;
}.

Definition log (ev : event) (w : world) : world :=
  mkWorld (mem w) (eng w) (trace w ++ [ev]).
Definition set_mem (m : heap) (w : world) : world := mkWorld m (eng w) (trace w).
Definition set_eng (e : engine) (w : world) : world := mkWorld (mem w) e (trace w).

(** *** [MPIR_Bsend_progress] and [MPIR_Bsend_check_active] *)

Fixpoint progress_from (n fuel : nat) (bsendbuffer : BsendBuffer) (w : world)
    (active_ : Z) : option (BsendBuffer * world) :=
  if decide (active_ = NULL) then Some (bsendbuffer, w)
  else match fuel with
       | O => None
       | S fuel =>
           next_active ← rd (mem w) active_ next;
           req ← rd (mem w) active_ request;
           '(bsendbuffer, w) ←
             (if MPIR_Request_is_complete (eng w) req then
                '(bsendbuffer, m) ← MPIR_Bsend_free_segment n bsendbuffer (mem w) active_;
                let w := log (EvFreeSegment active_) (set_mem m w) in
                if MPIR_Request_is_persistent (eng w) req then Some (bsendbuffer, w)
                else Some (bsendbuffer,
                           log (EvRequestFree req) (set_eng (MPIR_Request_free (eng w) req) w))
              else Some (bsendbuffer, w));
           progress_from n fuel bsendbuffer w next_active
       end.

Definition MPIR_Bsend_progress (n : nat) (bsendbuffer : BsendBuffer) (w : world) :
    option (BsendBuffer * world) :=
  progress_from n n bsendbuffer w (active bsendbuffer).

(** The result carries the [int] that [MPID_Progress_test] returned ([0] on
    success). *)
Definition MPIR_Bsend_check_active (n : nat) (bsendbuffer : BsendBuffer) (w : world) :
    option (Z * BsendBuffer * world) :=
  let w := log EvCheckActive w in
  if decide (active bsendbuffer ≠ NULL) then
    let '(mpi_errno, e) := MPID_Progress_test (eng w) in
    let w := log EvProgressTest (set_eng e w) in
    if decide (mpi_errno ≠ 0) then Some (mpi_errno, bsendbuffer, w)
    else '(bsendbuffer, w) ← MPIR_Bsend_progress n bsendbuffer w;
         Some (0, bsendbuffer, w)
  else Some (0, bsendbuffer, w).

(** *** [MPIR_Bsend_detach] *)

(** Loop through each active element and wait on it.  The result carries the
    [int] of the first [MPID_Wait] that failed, or [0]. *)
Fixpoint detach_wait (fuel : nat) (w : world) (p : Z) : option (Z * world) :=
  if decide (p = NULL) then Some (0, w)
  else match fuel with
       | O => None
       | S fuel =>
           r ← rd (mem w) p request;
           let '(mpi_errno, e) := MPID_Wait (eng w) r in
           let w := log (EvWait r) (set_eng e w) in
           if decide (mpi_errno ≠ 0) then Some (mpi_errno, w)
           else
             let w := log (EvRequestFree r) (set_eng (MPIR_Request_free (eng w) r) w) in
             pnext ← rd (mem w) p next;
             detach_wait fuel w pnext
       end.

(** The second component is what was stored through [bufferp] and [size];
    [None] when the routine left them alone. *)
Definition MPIR_Bsend_detach (fuel : nat) (slot : option BsendBuffer) (w : world) :
    option (mpi_errno * option (Z * Z) * option BsendBuffer * world) :=
  match slot with
  | None => Some (MPI_SUCCESS, Some (NULL, 0), None, w)
  | Some bsendbuffer =>
      '(mpi_errno, w) ←
        (if decide (active bsendbuffer ≠ NULL) then detach_wait fuel w (active bsendbuffer)
         else Some (0, w));
      if decide (mpi_errno ≠ 0) then Some (Err_other mpi_errno, None, Some bsendbuffer, w)
      else
        (* Note that this works even when the buffer does not exist *)
        Some (MPI_SUCCESS,
              Some (origbuffer bsendbuffer, to_Aint (origbuffer_size bsendbuffer)),
              Some (mkBuffer 0 0 NULL 0 0 0), w)
  end.

(** *** [MPIR_Bsend_finalize] *)

Definition MPIR_Bsend_finalize (fuel : nat) (slot : option BsendBuffer) (w : world) :
    option (mpi_errno * option BsendBuffer * world) :=
  match slot with
  | Some bsendbuffer =>
      w ← (if decide (buffer bsendbuffer ≠ NULL) then
             (* Use detach to complete any communication *)
             r ← MPIR_Bsend_detach fuel slot w; Some (r.2)
           else Some w);
      Some (MPI_SUCCESS, None, w)
  | None => Some (MPI_SUCCESS, None, w)
  end.

(** *** [MPIR_Bsend_isend] *)

(** The choice of the buffer: the communicator's, else its session's, else
    the process's.  [None] is the [NULL] that the check after it rejects. *)
Definition isend_bsendbuffer (comm_ptr : MPIR_Comm) (process : option BsendBuffer) :
    option (slot * BsendBuffer) :=
  match comm_bsendbuffer comm_ptr with
  | Some b => Some (CommSlot, b)
  | None =>
      match session_ptr comm_ptr ≫= session_bsendbuffer with
      | Some b => Some (SessionSlot, b)
      | None => (λ b, (ProcessSlot, b)) <$> process
      end
  end.

(** The slots once the routine is done with the buffer it chose: the code
    works through the pointer, so the change is in the slot it came from. *)
Definition isend_slots (s : slot) (b : BsendBuffer) (comm_ptr : MPIR_Comm)
    (process : option BsendBuffer) : MPIR_Comm * option BsendBuffer :=
  match s with
  | CommSlot => (mkComm (Some b) (session_ptr comm_ptr), process)
  | SessionSlot => (mkComm (comm_bsendbuffer comm_ptr) (Some (mkSession (Some b))), process)
  | ProcessSlot => (comm_ptr, Some b)
  end.

(** The arguments of a send that the passes share.  [want_request] says
    whether the caller's [request] pointer is non-null. *)
Record isend_args := mkArgs {
  a_buf : Z; a_count : Z; a_dtype : Z; a_dest : Z; a_tag : Z;
  a_want_request : bool;
}.

Definition isend_packsize (a : isend_args) : Z :=
  if decide (a_dtype a ≠ MPI_PACKED) then MPIR_Pack_size (a_count a) (a_dtype a)
  else a_count a.

(** Pack the data into the buffer of the segment [p].  The result is the
    error code of the packer, or the memory afterwards. *)
Definition isend_pack (a : isend_args) (packsize : Z) (w : world) (p : Z) :
    option (Z + heap) :=
  if decide (a_dtype a ≠ MPI_PACKED) then
    pmsgbuf ← rd (mem w) p msgbuf;
    pcount ← rd (mem w) p count;
    let pbuf := pmsgbuf + pcount in
    let '(mpi_errno, actual_pack_bytes) :=
      MPIR_Typerep_pack (eng w) (a_buf a) (a_count a) (a_dtype a) pbuf packsize in
    if decide (mpi_errno ≠ 0) then Some (inl mpi_errno)
    else m ← wr (mem w) p (λ b, set_count (count b + actual_pack_bytes) b);
         Some (inr m)
  else m ← wr (mem w) p (set_count (a_count a)); Some (inr m).

(** Try to send the message, and take the segment if the send left a
    request.  The result is the error code and what was stored through
    [request]. *)
Definition isend_send (a : isend_args) (bsendbuffer : BsendBuffer) (w : world) (p : Z) :
    option (mpi_errno * option Z * BsendBuffer * world) :=
  pmsgbuf ← rd (mem w) p msgbuf;
  pcount ← rd (mem w) p count;
  let '(mpi_errno, r, e) := MPID_Isend (eng w) pmsgbuf pcount (a_dest a) (a_tag a) in
  m ← wr (mem w) p (set_request r);
  let w := log (EvIsend r) (set_eng e (set_mem m w)) in
  if decide (mpi_errno ≠ 0) then Some (Err_internal mpi_errno, None, bsendbuffer, w)
  else
    prequest ← rd (mem w) p request;
    if decide (prequest ≠ NULL) then
      pcount ← rd (mem w) p count;
      '(bsendbuffer, m) ← MPIR_Bsend_take_buffer bsendbuffer (mem w) p (wrap pcount);
      let w := log (EvTake p (wrap pcount)) (set_mem m w) in
      if a_want_request a then
        (* Add 1 ref_count for MPI_Wait/Test *)
        prequest ← rd (mem w) p request;
        let w := log (EvAddRef prequest)
                     (set_eng (MPIR_Request_add_ref (eng w) prequest) w) in
        Some (MPI_SUCCESS, Some prequest, bsendbuffer, w)
      else Some (MPI_SUCCESS, None, bsendbuffer, w)
    else Some (MPI_SUCCESS, None, bsendbuffer, w).

(** Found a segment [p]: the body of [if (p)] in the loop. *)
Definition isend_found (a : isend_args) (packsize : Z) (bsendbuffer : BsendBuffer)
    (w : world) (p : Z) : option (mpi_errno * option Z * BsendBuffer * world) :=
  m ← wr (mem w) p (set_count 0);
  let w := log EvPack (set_mem m w) in
  packed ← isend_pack a packsize w p;
  match packed with
  | inl mpi_errno => Some (Err_other mpi_errno, None, bsendbuffer, w)
  | inr m => isend_send a bsendbuffer (set_mem m w) p
  end.

(** [for (pass = 0; pass < 2; pass++)].  [p] is the block of the last search;
    the result carries it for the test that follows the loop. *)
Fixpoint isend_passes (fuel n : nat) (a : isend_args) (packsize pass p : Z)
    (bsendbuffer : BsendBuffer) (w : world) :
    option (Z * mpi_errno * option Z * BsendBuffer * world) :=
  if decide (pass < 2) then
    match fuel with
    | O => None
    | S fuel =>
        p ← MPIR_Bsend_find_buffer n bsendbuffer (mem w) (wrap packsize);
        let w := log (EvFind (wrap packsize) p) w in
        if decide (p ≠ NULL) then
          '(mpi_errno, out, bsendbuffer, w) ← isend_found a packsize bsendbuffer w p;
          Some (p, mpi_errno, out, bsendbuffer, w)
        else if decide (p ≠ NULL ∨ pass = 1) then
          Some (p, MPI_SUCCESS, None, bsendbuffer, w)
        else
          (* Try to complete some pending bsends *)
          '(_, bsendbuffer, w) ← MPIR_Bsend_check_active n bsendbuffer w;
          isend_passes fuel n a packsize (pass + 1) p bsendbuffer w
    end
  else Some (p, MPI_SUCCESS, None, bsendbuffer, w).

(** The routine from the first [MPIR_Bsend_check_active] on, for the buffer
    that was chosen. *)
Definition isend_with (n : nat) (a : isend_args) (packsize : Z)
    (bsendbuffer : BsendBuffer) (w : world) :
    option (mpi_errno * option Z * BsendBuffer * world) :=
  (* We check the active buffer first.  This helps avoid storage fragmentation *)
  '(mpi_errno, bsendbuffer, w) ← MPIR_Bsend_check_active n bsendbuffer w;
  if decide (mpi_errno ≠ 0) then Some (Err_other mpi_errno, None, bsendbuffer, w)
  else
    '(p, mpi_errno, out, bsendbuffer, w) ← isend_passes n n a packsize 0 NULL bsendbuffer w;
    if decide (p = NULL) then
      (* Return error for no buffer space found *)
      Some (Err_no_buffer_space packsize (buffer_size bsendbuffer), None, bsendbuffer, w)
    else Some (mpi_errno, out, bsendbuffer, w).

Definition MPIR_Bsend_isend (n : nat) (a : isend_args) (comm_ptr : MPIR_Comm)
    (process : option BsendBuffer) (w : world) :
    option (mpi_errno * option Z * MPIR_Comm * option BsendBuffer * world) :=
  let packsize := isend_packsize a in
  match isend_bsendbuffer comm_ptr process with
  | None => Some (Err_no_buffer_attached packsize, None, comm_ptr, process, w)
  | Some (s, bsendbuffer) =>
      '(mpi_errno, out, bsendbuffer, w) ← isend_with n a packsize bsendbuffer w;
      let '(comm_ptr, process) := isend_slots s bsendbuffer comm_ptr process in
      Some (mpi_errno, out, comm_ptr, process, w)
  end.

End Driver.

(** ** Concrete platforms and collaborators

    Used to run the model on explicit inputs. *)

(** A 64-bit platform with a 64-byte header and 16-byte [MAX_ALIGNMENT]. *)
Definition lp64 : Platform :=
  {| sizeof_voidp := 8; sizeof_double := 8; sizeof_Bsend_data := 72;
     MAX_ALIGNMENT := 16; MPI_BSEND_OVERHEAD := 72; MPI_PACKED := 1275068687 |}.

(** An engine without state.  [isend_err] and [isend_req] are what
    [MPID_Isend] answers, [wait_err] what [MPID_Wait] answers, [done] whether
    requests are complete; packing writes exactly [packsize] bytes. *)
Definition engine_of (isend_err isend_req wait_err : Z) (done : bool) : Collaborators :=
  {| engine := unit;
     MPIR_Pack_size := λ count_ _, count_;
     MPIR_Typerep_pack := λ _ _ _ _ _ packsize, (0, packsize);
     MPID_Isend := λ e _ _ _ _, (isend_err, isend_req, e);
     MPID_Progress_test := λ e, (0, e);
     MPID_Wait := λ e _, (wait_err, e);
     MPIR_Request_is_complete := λ _ _, done;
     MPIR_Request_is_persistent := λ _ _, false;
     MPIR_Request_free := λ e _, e;
     MPIR_Request_add_ref := λ e _, e |}.

(** The world with memory [m] and nothing logged. *)
Definition world_of `{Collaborators} (m : heap) (e : engine) : world := mkWorld m e [].

(** ** The entry points on the three slots

    [MPIR_Process.bsendbuffer] is the process slot; it is passed in and
    handed back like the other two. *)

Section Api.
Context `{Platform} `{Collaborators}.

Definition MPIR_Buffer_attach_impl (process : option BsendBuffer) (buffer_ size_ : Z)
    (m : heap) : mpi_errno * option BsendBuffer * heap :=
  MPIR_Bsend_attach process buffer_ size_ m.

Definition MPIR_Buffer_detach_impl (fuel : nat) (process : option BsendBuffer) (w : world) :
    option (mpi_errno * option (Z * Z) * option BsendBuffer * world) :=
  MPIR_Bsend_detach fuel process w.

Definition MPIR_Process_bsend_finalize (fuel : nat) (process : option BsendBuffer)
    (w : world) : option (mpi_errno * option BsendBuffer * world) :=
  MPIR_Bsend_finalize fuel process w.

Definition MPIR_Comm_bsend_finalize (fuel : nat) (comm_ptr : MPIR_Comm) (w : world) :
    option (mpi_errno * MPIR_Comm * world) :=
  '(mpi_errno, slot, w) ← MPIR_Bsend_finalize fuel (comm_bsendbuffer comm_ptr) w;
  Some (mpi_errno, mkComm slot (session_ptr comm_ptr), w).

Definition MPIR_Session_bsend_finalize (fuel : nat) (session : MPIR_Session) (w : world) :
    option (mpi_errno * MPIR_Session * world) :=
  '(mpi_errno, slot, w) ← MPIR_Bsend_finalize fuel (session_bsendbuffer session) w;
  Some (mpi_errno, mkSession slot, w).

End Api.

(** ** [MPIR_Bsend_dump]

    The routine only logs; its result here is the lines it logs. *)

Inductive dump_line :=
  | DumpTotal (size_ : Z)          (* "Total size is %llu" *)
  | DumpAvailList                  (* "Avail list is:" *)
  | DumpBlock (a total : Z)        (* "[%p] totalsize = %llu(%llx)" *)
  | DumpCorruptAvail               (* "@@@Corrupt list; avail block points at itself" *)
  | DumpActiveList                 (* "Active list is:" *)
  | DumpCorruptActive              (* "@@@Corrupt list; active block points at itself" *)
  | DumpEnd.                       (* "end of list" *)

#[global] Instance dump_line_eq_dec : EqDecision dump_line.
Proof. solve_decision. Defined.

(** One of the two [while (a)] loops; [corrupt] is the line it logs when a
    block points at itself. *)
Fixpoint dump_from (fuel : nat) (m : heap) (a : Z) (corrupt : dump_line) :
    option (list dump_line) :=
  if decide (a = NULL) then Some []
  else match fuel with
       | O => None
       | S fuel =>
           atotal ← rd m a total_size;
           anext ← rd m a next;
           if decide (a = anext) then Some [DumpBlock a atotal; corrupt]
           else rest ← dump_from fuel m anext corrupt; Some (DumpBlock a atotal :: rest)
       end.

Definition MPIR_Bsend_dump (fuel : nat) (bsendbuffer : BsendBuffer) (m : heap) :
    option (list dump_line) :=
  avail_lines ← dump_from fuel m (avail bsendbuffer) DumpCorruptAvail;
  active_lines ← dump_from fuel m (active bsendbuffer) DumpCorruptActive;
  Some ([DumpTotal (buffer_size bsendbuffer); DumpAvailList] ++ avail_lines
        ++ [DumpActiveList] ++ active_lines ++ [DumpEnd]).

(** An engine without state whose every answer is given: the error codes of
    the packer, of [MPID_Isend], of [MPID_Progress_test] and of [MPID_Wait],
    the request that [MPID_Isend] stores, and whether requests are complete
    and persistent. *)
Definition engine_full (pack_err isend_err isend_req progress_err wait_err : Z)
    (done persistent : bool) : Collaborators :=
  {| engine := unit;
     MPIR_Pack_size := λ count_ _, count_;
     MPIR_Typerep_pack := λ _ _ _ _ _ packsize, (pack_err, packsize);
     MPID_Isend := λ e _ _ _ _, (isend_err, isend_req, e);
     MPID_Progress_test := λ e, (progress_err, e);
     MPID_Wait := λ e _, (wait_err, e);
     MPIR_Request_is_complete := λ _ _, done;
     MPIR_Request_is_persistent := λ _ _, persistent;
     MPIR_Request_free := λ e _, e;
     MPIR_Request_add_ref := λ e _, e |}.

(** ** Vocabulary of the statements *)

(** [dseg m prv hd l nxt]: following [next] from [hd] visits exactly the
    headers at the addresses [l] and arrives at [nxt]; the [prev] of each
    points at the one before, the first at [prv]. *)
Fixpoint dseg (m : heap) (prv hd : Z) (l : list Z) (nxt : Z) : Prop :=
  match l with
  | [] => hd = nxt
  | a :: l' =>
      hd = a ∧ a ≠ NULL ∧
      ∃ b, m !! a = Some b ∧ prev b = prv ∧ dseg m a (next b) l' nxt
  end.

(** A whole list: from the head pointer to [NULL]. *)
Definition dlist (m : heap) (hd : Z) (l : list Z) : Prop := dseg m NULL hd l NULL.

(** The two link fields of the header at [a]. *)
Definition links (m : heap) (a : Z) : option (Z * Z) :=
  (λ b, (next b, prev b)) <$> m !! a.

(** The two size fields of the header at [a]. *)
Definition sizes (m : heap) (a : Z) : option (Z * Z) :=
  (λ b, (size b, total_size b)) <$> m !! a.

(** No address of the first list is in the second. *)
Definition disj (l k : list Z) : Prop := ∀ x, x ∈ l → x ∉ k.

(** [n] rounded up to the next multiple of [a]. *)
Definition round_up (n a : Z) : Z := (n + a - 1) / a * a.

(** The forward shift that [MPIR_Bsend_attach] applies to the buffer. *)
Definition attach_offset `{Platform} (ptr : Z) : Z :=
  let align_sz := Z.max sizeof_voidp sizeof_double in
  if decide (wrap ptr mod align_sz ≠ 0) then wrap (align_sz - wrap ptr mod align_sz) else 0.

(** The two buffers describe the same region: only the list heads may
    differ. *)
Definition same_buffer (b b' : BsendBuffer) : Prop :=
  buffer b' = buffer b ∧ buffer_size b' = buffer_size b
  ∧ origbuffer b' = origbuffer b ∧ origbuffer_size b' = origbuffer_size b.

(** The [total_size] of the header at [a] ([0] where there is none). *)
Definition span (m : heap) (a : Z) : Z := default 0 (total_size <$> m !! a).

(** The address one past the block at [a]. *)
Definition block_end (m : heap) (a : Z) : Z := a + span m a.

(** Address order of a free list. *)
Definition ascending (l : list Z) : Prop := StronglySorted Z.lt l.

(** No block of the list ends where the next block of the list starts. *)
Fixpoint apart (m : heap) (l : list Z) : Prop :=
  match l with
  | [] => True
  | a :: l' => (∀ b, head l' = Some b → block_end m a ≠ b) ∧ apart m l'
  end.

(** The block at [a] lies in the address space, and its [size] is its
    [total_size] less the header. *)
Definition block_ok `{Platform} (m : heap) (a : Z) : Prop :=
  ∃ b, m !! a = Some b ∧ 0 < a ∧ a + total_size b ≤ 2 ^ 64
       ∧ 0 ≤ size b ∧ size b = total_size b - BSENDDATA_HEADER_TRUE_SIZE.

(** A free list as the addresses and spans of its blocks. *)
Definition spans (m : heap) (l : list Z) : list (Z * Z) := (λ a, (a, span m a)) <$> l.

(** Release of a block as the specification words it, on addresses and
    spans: put the block in address order, then join every block with the
    one after it when it ends where that one starts. *)
Fixpoint insert_block (p : Z * Z) (l : list (Z * Z)) : list (Z * Z) :=
  match l with
  | [] => [p]
  | a :: l' => if decide (p.1 < a.1) then p :: a :: l' else a :: insert_block p l'
  end.

Definition join_next (a : Z * Z) (acc : list (Z * Z)) : list (Z * Z) :=
  match acc with
  | b :: r => if decide (a.1 + a.2 = b.1) then (a.1, a.2 + b.2) :: r else a :: acc
  | [] => [a]
  end.

Definition coalesce (l : list (Z * Z)) : list (Z * Z) := foldr join_next [] l.

(** The events of a reclaim step after its first: polling the progress
    engine, releasing a block, releasing its request. *)
Definition is_reclaim (ev : event) : bool :=
  match ev with
  | EvProgressTest | EvFreeSegment _ | EvRequestFree _ => true
  | _ => false
  end.

Definition is_find (ev : event) : bool :=
  match ev with EvFind _ _ => true | _ => false end.

Definition is_check_active (ev : event) : bool :=
  match ev with EvCheckActive => true | _ => false end.

Definition is_take (ev : event) : bool :=
  match ev with EvTake _ _ => true | _ => false end.

(** The free and the active list are the same in the two states: the same
    heads, and in every header the same sizes and links. *)
Definition same_lists (bb : BsendBuffer) (m : heap) (bb' : BsendBuffer) (m' : heap) : Prop :=
  avail bb' = avail bb ∧ active bb' = active bb
  ∧ ∀ a, sizes m' a = sizes m a ∧ links m' a = links m a.

(** The request stored in the header at [a] ([NULL] where there is none). *)
Definition request_of (m : heap) (a : Z) : Z := default NULL (request <$> m !! a).

(** What the drain of [MPIR_Bsend_detach] does for the blocks [l]: wait on
    the request of each, then release it. *)
Definition drain_events (m : heap) (l : list Z) : list event :=
  l ≫= λ a, [EvWait (request_of m a); EvRequestFree (request_of m a)].

(** What the specification asks of every block: the payload capacity is the
    span less the header, and the span is a multiple of [MAX_ALIGNMENT]. *)
Definition block_inv `{Platform} (m : heap) (a : Z) : Prop :=
  ∃ b, m !! a = Some b
       ∧ size b = total_size b - BSENDDATA_HEADER_TRUE_SIZE
       ∧ (MAX_ALIGNMENT | total_size b).

(** *** Regions

    What lets one buffer be told from another: the addresses [lo, hi) that
    its blocks occupy. *)

Definition inside (lo hi a : Z) : Prop := lo ≤ a < hi.

(** A pointer that is null or points into the region. *)
Definition ptr_in (lo hi a : Z) : Prop := a = NULL ∨ inside lo hi a.

(** The header [b] at [a] keeps to the region: its links point into it, the
    block ends in it, the two sizes agree, and the span is a multiple of
    [d]. *)
Definition header_ok `{Platform} (lo hi d a : Z) (b : Bsend_data) : Prop :=
  ptr_in lo hi (next b) ∧ ptr_in lo hi (prev b)
  ∧ a + total_size b ≤ hi
  ∧ BSENDDATA_HEADER_TRUE_SIZE ≤ total_size b
  ∧ size b = total_size b - BSENDDATA_HEADER_TRUE_SIZE
  ∧ (d | total_size b).

Definition headers_ok `{Platform} (lo hi d : Z) (m : heap) : Prop :=
  ∀ a b, inside lo hi a → m !! a = Some b → header_ok lo hi d a b.

(** The buffer [bb] lives in the region [lo, hi), in blocks whose spans are
    multiples of [d]: its two list heads and every header of the region
    keep to it. *)
Definition arena `{Platform} (lo hi d : Z) (bb : BsendBuffer) (m : heap) : Prop :=
  ptr_in lo hi (avail bb) ∧ ptr_in lo hi (active bb) ∧ headers_ok lo hi d m.

(** The two memories agree outside the region. *)
Definition outside_same (lo hi : Z) (m m' : heap) : Prop :=
  ∀ x, ¬ inside lo hi x → m' !! x = m !! x.

(** [m] came from [m0] by steps that keep to the region. *)
Definition kept `{Platform} (lo hi d : Z) (m0 m : heap) : Prop :=
  headers_ok lo hi d m ∧ outside_same lo hi m0 m.

(** The buffers in the slots that a send does not draw from when it draws
    from the slot [s]. *)
Definition other_slots (s : slot) (comm_ptr : MPIR_Comm) (process : option BsendBuffer) :
    list BsendBuffer :=
  match s with
  | CommSlot =>
      option_list (session_ptr comm_ptr ≫= session_bsendbuffer) ++ option_list process
  | SessionSlot => option_list process
  | ProcessSlot => []
  end.



(** What the packer is asked to keep to: it writes no more than it was
    given room for. *)
Definition packer_bounded `{Collaborators} : Prop :=
  ∀ e buf cnt dt pbuf ps,
    0 ≤ ps → 0 ≤ (MPIR_Typerep_pack e buf cnt dt pbuf ps).2 ≤ ps.

(** ** Buffers to run the routines on

    All on the 64-bit platform [lp64], whose header takes 64 bytes. *)

(** One block at 4096 on the active list, holding request 7; nothing free. *)
Definition active_block : Bsend_data := mkData 8 72 NULL NULL 7 4160 0.
Definition demo_heap : heap := {[ 4096 := active_block ]}.
Definition demo_buffer : BsendBuffer := mkBuffer 4096 72 4096 72 NULL 4096.

(** A fresh 4096-byte buffer at 4096: one free block. *)
Definition fresh_block : Bsend_data := mkData 4032 4096 NULL NULL 0 4160 0.
Definition fresh_heap : heap := {[ 4096 := fresh_block ]}.
Definition fresh_buffer : BsendBuffer := mkBuffer 4096 4096 4096 4096 4096 NULL.

(** The same buffer with a free block of span 176 at 4096 followed by an
    active block of span 176 at 4272 and a free block at 4448. *)
Definition left_block : Bsend_data := mkData 112 176 4448 NULL 0 4160 0.
Definition mid_block : Bsend_data := mkData 112 176 NULL NULL 7 4336 100.
Definition right_block : Bsend_data := mkData 3680 3744 NULL 4096 0 4512 0.
Definition split_heap : heap :=
  {[ 4096 := left_block; 4272 := mid_block; 4448 := right_block ]}.
Definition split_buffer : BsendBuffer := mkBuffer 4096 4096 4096 4096 4096 4272.

(** A second fresh buffer, at 16384, next to the one at 4096. *)
Definition far_block : Bsend_data := mkData 4032 4096 NULL NULL 0 16448 0.
Definition far_buffer : BsendBuffer := mkBuffer 16384 4096 16384 4096 16384 NULL.
Definition two_heap : heap := {[ 4096 := fresh_block; 16384 := far_block ]}.

(** A send of 100 bytes of a type that is packed, and one of 5000. *)
Definition send_100 : isend_args := mkArgs 0 100 0 1 0 false.
Definition send_5000 : isend_args := mkArgs 0 5000 0 1 0 false.

(** The same send by a caller that asks for the request. *)
Definition send_100_req : isend_args := mkArgs 0 100 0 1 0 true.

(** A free list whose only block points at itself, and one whose two blocks
    point at each other. *)
Definition self_block : Bsend_data := mkData 4032 4096 4096 NULL 0 4160 0.
Definition self_heap : heap := {[ 4096 := self_block ]}.
Definition ring_block : Bsend_data := mkData 3680 3744 4096 4096 0 4512 0.
Definition ring_heap : heap := {[ 4096 := left_block; 4448 := ring_block ]}.

(** Two blocks in flight, the one at 4272 (request 8) taken after the one at
    4096 (request 7), and a free block at 4448. *)
Definition first_block : Bsend_data := mkData 112 176 NULL 4272 7 4160 100.
Definition second_block : Bsend_data := mkData 112 176 4096 NULL 8 4336 100.
Definition rest_block : Bsend_data := mkData 3680 3744 NULL NULL 0 4512 0.
Definition pair_heap : heap :=
  {[ 4096 := first_block; 4272 := second_block; 4448 := rest_block ]}.
Definition pair_buffer : BsendBuffer := mkBuffer 4096 4096 4096 4096 4448 4272.

(** An engine without state in which exactly the requests that [done] holds
    of are complete, none is persistent and no call fails. *)
Definition engine_where (done : Z → bool) : Collaborators :=
  {| engine := unit;
     MPIR_Pack_size := λ count_ _, count_;
     MPIR_Typerep_pack := λ _ _ _ _ _ packsize, (0, packsize);
     MPID_Isend := λ e _ _ _ _, (0, 0, e);
     MPID_Progress_test := λ e, (0, e);
     MPID_Wait := λ e _, (0, e);
     MPIR_Request_is_complete := λ _ r, done r;
     MPIR_Request_is_persistent := λ _ _, false;
     MPIR_Request_free := λ e _, e;
     MPIR_Request_add_ref := λ e _, e |}.

(** ** Vocabulary of the further properties *)

(** The bytes of the blocks of a list, headers included. *)
Definition total_span (m : heap) (l : list Z) : Z := foldr Z.add 0 (span m <$> l).

(** The bytes of a list given as addresses and spans. *)
Definition sum_spans (l : list (Z * Z)) : Z := foldr Z.add 0 (snd <$> l).

(** Every block of the list ends at or before the start of the next. *)
Fixpoint separated (m : heap) (l : list Z) : Prop :=
  match l with
  | [] => True
  | a :: l' => (∀ b, head l' = Some b → block_end m a ≤ b) ∧ separated m l'
  end.

(** Is the send of the active block at [a] over, as the engine [e] sees it? *)
Definition is_done `{Collaborators} (e : engine) (m : heap) (a : Z) : bool :=
  MPIR_Request_is_complete e (request_of m a).

(** The blocks of [l] whose send is still in flight, and those whose send
    is over. *)
Definition pending `{Collaborators} (e : engine) (m : heap) (l : list Z) : list Z :=
  filter (λ a, is_done e m a = false) l.
Definition finished `{Collaborators} (e : engine) (m : heap) (l : list Z) : list Z :=
  filter (λ a, is_done e m a = true) l.

(** What one walk of [MPIR_Bsend_progress] over the blocks [l] does: each
    block whose send is over is released, and its request is freed unless
    it is persistent. *)
Definition release_events `{Collaborators} (e : engine) (m : heap) (l : list Z) : list event :=
  l ≫= λ a,
    let r := request_of m a in
    if MPIR_Request_is_complete e r then
      EvFreeSegment a :: (if MPIR_Request_is_persistent e r then [] else [EvRequestFree r])
    else [].

(** Requests that are not freed keep their state. *)
Definition stable_requests `{Collaborators} : Prop :=
  ∀ e r r', r' ≠ r →
    MPIR_Request_is_complete (MPIR_Request_free e r) r' = MPIR_Request_is_complete e r'
    ∧ MPIR_Request_is_persistent (MPIR_Request_free e r) r'
      = MPIR_Request_is_persistent e r'.

(** ** Basic facts *)


Section Facts.
Context `{Platform}.

Lemma wrap_small x : 0 ≤ x < 2 ^ 64 → wrap x = x.
Proof. intros. unfold wrap. by apply Z.mod_small. Qed.

Lemma wrap_range x : 0 ≤ wrap x < 2 ^ 64.
Proof. unfold wrap. apply Z.mod_pos_bound. lia. Qed.

Lemma wrap_wrap x : wrap (wrap x) = wrap x.
Proof. apply wrap_small, wrap_range. Qed.


Lemma rd_Some (m : heap) p b f : m !! p = Some b → rd m p f = Some (f b).
Proof. intros Hp. unfold rd. by rewrite Hp. Qed.

Lemma wr_Some (m : heap) p b f : m !! p = Some b → wr m p f = Some (<[p := f b]> m).
Proof. intros Hp. unfold wr. by rewrite Hp. Qed.

Lemma rd_inv (m : heap) p f v : rd m p f = Some v → ∃ b, m !! p = Some b ∧ v = f b.
Proof. unfold rd. destruct (m !! p) as [b|]; [|done]. intros [= <-]. by exists b. Qed.

Lemma wr_inv (m : heap) p f m' :
  wr m p f = Some m' → ∃ b, m !! p = Some b ∧ m' = <[p := f b]> m.
Proof. unfold wr. destruct (m !! p) as [b|]; [|done]. intros [= <-]. by exists b. Qed.

Lemma carve_eq (m : heap) p f : carve m p f !! p = Some (f (default blank (m !! p))).
Proof. unfold carve. by rewrite lookup_insert_eq. Qed.

Lemma carve_ne (m : heap) p q f : p ≠ q → carve m p f !! q = m !! q.
Proof. intros. unfold carve. by rewrite lookup_insert_ne. Qed.


Lemma attach_fresh slot ptr sz (m : heap) :
  buffer (default calloc_BsendBuffer slot) = NULL →
  MPI_BSEND_OVERHEAD ≤ sz →
  ∃ b m',
    MPIR_Bsend_attach slot ptr sz m =
      (MPI_SUCCESS,
       Some (mkBuffer (ptr + attach_offset ptr) (wrap (wrap sz - attach_offset ptr))
                      ptr (wrap sz) (ptr + attach_offset ptr) NULL), m')
    ∧ m' !! (ptr + attach_offset ptr) = Some b
    ∧ total_size b = wrap sz
    ∧ size b = wrap (sz - BSENDDATA_HEADER_TRUE_SIZE)
    ∧ next b = NULL ∧ prev b = NULL
    ∧ ∀ x, x ≠ ptr + attach_offset ptr → m' !! x = m !! x.
Proof.
  intros Hbuf Hsz. unfold MPIR_Bsend_attach, attach_offset.
  rewrite decide_False by (by intros []).
  rewrite decide_False by lia.
  cbn [buffer_size origbuffer origbuffer_size avail active].
  case_decide as Hoff.
  - eexists _, _. split; [reflexivity|].
    rewrite !carve_eq. split; [reflexivity|]. cbn.
    repeat split; try done.
    intros x Hx. by rewrite !carve_ne.
  - eexists _, _. split.
    { unfold set_active, set_avail. cbn. rewrite Z.sub_0_r, wrap_wrap, Z.add_0_r. reflexivity. }
    rewrite Z.add_0_r, !carve_eq. split; [reflexivity|]. cbn.
    repeat split; try done.
    intros x Hx. by rewrite !carve_ne.
Qed.
End Facts.

(** ** Lists in memory *)

Section Lists.
Implicit Types (m : heap) (l : list Z).

Lemma dseg_ext m m' prv hd l nxt :
  (∀ a, a ∈ l → links m' a = links m a) →
  dseg m prv hd l nxt → dseg m' prv hd l nxt.
Proof.
  revert prv hd. induction l as [|a l IH]; intros prv hd Hl; [done|].
  cbn. intros (-> & Ha & b & Hb & Hp & Hrest).
  pose proof (Hl a ltac:(left)) as Hlk. unfold links in Hlk. rewrite Hb in Hlk.
  destruct (m' !! a) as [b'|] eqn:Hb'; [|done]. cbn in Hlk.
  injection Hlk as Hn Hpv.
  split; [done|]. split; [done|]. exists b'. rewrite Hn, Hpv.
  split; [done|]. split; [done|].
  apply IH; [|done]. intros x Hx. apply Hl. by right.
Qed.

Lemma default_last_cons (prv a : Z) l : default prv (last (a :: l)) = default a (last l).
Proof. rewrite last_cons. by destruct (last l). Qed.

Lemma dseg_app m prv hd l1 l2 nxt :
  dseg m prv hd (l1 ++ l2) nxt ↔
  ∃ mid, dseg m prv hd l1 mid ∧ dseg m (default prv (last l1)) mid l2 nxt.
Proof.
  revert prv hd. induction l1 as [|a l1 IH]; intros prv hd; cbn.
  - split; [intros ?; by exists hd | by intros (mid & -> & ?)].
  - split.
    + intros (-> & Ha & b & Hb & Hp & Hrest).
      apply IH in Hrest as (mid & H1 & H2). exists mid. split.
      * eauto 10.
      * by rewrite default_last_cons.
    + intros (mid & (-> & Ha & b & Hb & Hp & Hrest) & H2).
      split; [done|]. split; [done|]. exists b. split; [done|]. split; [done|].
      apply IH. exists mid. split; [done|].
      by rewrite default_last_cons in H2.
Qed.

Lemma dseg_elem m prv hd l nxt a :
  dseg m prv hd l nxt → a ∈ l → a ≠ NULL ∧ is_Some (m !! a).
Proof.
  revert prv hd. induction l as [|x l IH]; intros prv hd; [by intros _ ?%elem_of_nil|].
  intros (-> & Hx & b & Hb & Hp & Hrest) [->|Hin]%elem_of_cons; eauto.
Qed.

Lemma dseg_head m prv hd l nxt : dseg m prv hd l nxt → hd = default nxt (head l).
Proof. destruct l; cbn; [done|by intros [-> _]]. Qed.

(** Two walks from the same header to [NULL] see the same addresses. *)
Lemma dseg_functional m prv prv' hd l l' :
  dseg m prv hd l NULL → dseg m prv' hd l' NULL → l = l'.
Proof.
  revert prv prv' hd l'. induction l as [|a l IH]; intros prv prv' hd [|a' l']; cbn.
  - done.
  - intros E1 (E2 & ? & _). congruence.
  - intros (E1 & ? & _) E2. congruence.
  - intros (E1 & _ & b & Hb & _ & H1) (E2 & _ & b' & Hb' & _ & H2).
    assert (a' = a) as -> by congruence.
    rewrite Hb in Hb'. injection Hb' as <-. f_equal. eauto.
Qed.

Lemma dseg_NoDup m prv hd l : dseg m prv hd l NULL → NoDup l.
Proof.
  revert prv hd. induction l as [|a l IH]; intros prv hd; [constructor|].
  intros Hd. pose proof Hd as (-> & Ha & b & Hb & Hp & Hrest).
  apply NoDup_cons. split; [|eauto].
  intros (l1 & l2 & ->)%list_elem_of_split.
  apply dseg_app in Hrest as (mid & _ & H2).
  pose proof H2 as (-> & _).
  pose proof (dseg_functional _ _ _ _ _ _ Hd H2) as Heq.
  apply (f_equal length) in Heq. rewrite !length_cons, length_app, length_cons in Heq. lia.
Qed.

Lemma dseg_snoc m prv hd l a nxt :
  dseg m prv hd (l ++ [a]) nxt ↔
  a ≠ NULL ∧ ∃ b, m !! a = Some b ∧ prev b = default prv (last l) ∧ next b = nxt
                  ∧ dseg m prv hd l a.
Proof.
  rewrite dseg_app. cbn. split.
  - intros (mid & H1 & -> & Ha & b & Hb & Hp & Hn). eauto 10.
  - intros (Ha & b & Hb & Hp & Hn & H1). exists a. eauto 10.
Qed.

Lemma dseg_nil m prv hd nxt : dseg m prv hd [] nxt ↔ hd = nxt.
Proof. done. Qed.

Lemma dseg_cons m prv hd a l nxt :
  dseg m prv hd (a :: l) nxt ↔
  hd = a ∧ a ≠ NULL ∧ ∃ b, m !! a = Some b ∧ prev b = prv ∧ dseg m a (next b) l nxt.
Proof. done. Qed.

End Lists.

#[global] Arguments dseg : simpl never.

Section Disj.
Implicit Types (l k : list Z).

Lemma NoDup_app_disj l k : NoDup (l ++ k) ↔ NoDup l ∧ disj l k ∧ NoDup k.
Proof. apply NoDup_app. Qed.
Lemma disj_nil_l k : disj [] k ↔ True.
Proof. unfold disj. split; [done|]. intros _ x Hx. by apply elem_of_nil in Hx. Qed.
Lemma disj_nil_r l : disj l [] ↔ True.
Proof. unfold disj. split; [done|]. intros _ x _. apply not_elem_of_nil. Qed.
Lemma disj_cons_l a l k : disj (a :: l) k ↔ (a ∉ k) ∧ disj l k.
Proof.
  unfold disj. split.
  - intros Hd. split; [apply Hd; left|]. intros x Hx. apply Hd. by right.
  - intros [Ha Hd] x Hx. apply elem_of_cons in Hx as [->|Hx]; auto.
Qed.
Lemma disj_app_l l1 l2 k : disj (l1 ++ l2) k ↔ disj l1 k ∧ disj l2 k.
Proof.
  unfold disj. split.
  - intros Hd. split; intros x Hx; apply Hd, elem_of_app; auto.
  - intros [H1 H2] x Hx. apply elem_of_app in Hx as [Hx|Hx]; auto.
Qed.
Lemma disj_sym l k : disj l k ↔ disj k l.
Proof. unfold disj. split; intros Hd x Hx Hx'; by apply (Hd x Hx'). Qed.
Lemma disj_cons_r a l k : disj l (a :: k) ↔ (a ∉ l) ∧ disj l k.
Proof. by rewrite disj_sym, disj_cons_l, (disj_sym k). Qed.
Lemma disj_app_r l k1 k2 : disj l (k1 ++ k2) ↔ disj l k1 ∧ disj l k2.
Proof. by rewrite disj_sym, disj_app_l, (disj_sym k1), (disj_sym k2). Qed.
Lemma not_elem_of_nil_iff (a : Z) : a ∉ [] ↔ True.
Proof. split; [done|]. intros _. apply not_elem_of_nil. Qed.
End Disj.

(** Break a [NoDup] hypothesis into disequalities between the addresses it
    names and non-membership in the lists it leaves abstract. *)
Ltac nodup_atoms H :=
  repeat first
    [ rewrite NoDup_app_disj in H | rewrite NoDup_cons in H | rewrite NoDup_nil in H
    | rewrite disj_nil_l in H | rewrite disj_nil_r in H
    | rewrite disj_cons_l in H | rewrite disj_app_l in H
    | rewrite disj_cons_r in H | rewrite disj_app_r in H
    | rewrite not_elem_of_app in H | rewrite not_elem_of_cons in H
    | rewrite not_elem_of_nil_iff in H ];
  repeat match type of H with
    | _ ∧ _ => let H1 := fresh "Hnd" in destruct H as [H1 H]; nodup_atoms H1
    end.

Ltac ne_solve := first [done | congruence].

(** The same for a goal. *)
Ltac nodup_goal :=
  repeat first
    [ rewrite NoDup_app_disj | rewrite NoDup_cons | rewrite NoDup_nil
    | rewrite disj_nil_l | rewrite disj_nil_r
    | rewrite disj_cons_l | rewrite disj_app_l
    | rewrite disj_cons_r | rewrite disj_app_r
    | rewrite not_elem_of_app | rewrite not_elem_of_cons
    | rewrite not_elem_of_nil_iff ];
  repeat split; ne_solve.

Ltac hlook :=
  repeat first [rewrite lookup_insert_eq | rewrite lookup_insert_ne by ne_solve];
  first [reflexivity | eassumption].

Ltac ev :=
  repeat first
    [ erewrite rd_Some by hlook
    | erewrite wr_Some by hlook
    | rewrite decide_True by ne_solve
    | rewrite decide_False by (intros ?; ne_solve)
    | progress cbn ].

Section Frames.
Implicit Types (m : heap) (l : list Z).

Lemma dseg_insert_notin m a b prv hd l nxt :
  a ∉ l → dseg m prv hd l nxt → dseg (<[a:=b]> m) prv hd l nxt.
Proof.
  intros Ha. apply dseg_ext. intros x Hx. unfold links.
  rewrite lookup_insert_ne; [done|]. intros ->. done.
Qed.

Lemma sizes_insert m a b b0 x :
  m !! a = Some b0 → size b = size b0 → total_size b = total_size b0 →
  sizes (<[a:=b]> m) x = sizes m x.
Proof.
  intros Ha Hs Ht. unfold sizes. destruct (decide (a = x)) as [->|Hne].
  - rewrite lookup_insert_eq, Ha. cbn. by rewrite Hs, Ht.
  - by rewrite lookup_insert_ne.
Qed.

Lemma sizes_insert_ne m a b x : a ≠ x → sizes (<[a:=b]> m) x = sizes m x.
Proof. intros. unfold sizes. by rewrite lookup_insert_ne. Qed.

Lemma sizes_span m m' a : sizes m' a = sizes m a → span m' a = span m a.
Proof.
  unfold sizes, span. destruct (m' !! a), (m !! a); cbn; intros Heq; try done.
  by injection Heq as _ ->.
Qed.

Lemma sizes_links_lookup m m' a :
  m' !! a = m !! a → links m' a = links m a.
Proof. unfold links. by intros ->. Qed.

Lemma dseg_frame m m' k prv hd l nxt :
  (∀ x, x ∉ k → m' !! x = m !! x) → disj l k →
  dseg m prv hd l nxt → dseg m' prv hd l nxt.
Proof.
  intros Hfr Hd. apply dseg_ext. intros a Ha. apply sizes_links_lookup, Hfr. by apply Hd.
Qed.

Lemma span_lookup m a b : m !! a = Some b → span m a = total_size b.
Proof. unfold span. by intros ->. Qed.

Lemma sizes_lookup m a b : m !! a = Some b → sizes m a = Some (size b, total_size b).
Proof. unfold sizes. by intros ->. Qed.

End Frames.

(** A segment over an abstract list, under writes elsewhere. *)
Ltac dleaf := cbn; repeat (apply dseg_insert_notin; [done|]); eassumption.

(** A segment whose list names some of its addresses. *)
Ltac dsolve :=
  lazymatch goal with
  | |- dseg _ _ _ [] _ => apply dseg_nil; cbn; first [reflexivity | done]
  | |- dseg _ _ _ (_ :: _) _ =>
      apply dseg_cons; split; [cbn; first [reflexivity | done] |];
      split; [done |];
      eexists; split; [hlook |];
      split; [cbn; rewrite ?last_snoc; first [reflexivity | done] | cbn; dsolve]
  | |- dseg _ _ _ (_ ++ [_]) _ =>
      apply dseg_snoc; split; [done |];
      eexists; split; [hlook |];
      split; [cbn; rewrite ?last_snoc; first [reflexivity | done] |];
      split; [cbn; first [reflexivity | done] | dsolve]
  | |- dseg _ _ _ (_ ++ _) _ =>
      apply dseg_app; eexists; split; [dsolve | rewrite ?last_snoc; cbn; dsolve]
  | |- dseg _ _ _ _ _ => dleaf
  end.

Ltac sizes_solve :=
  intros;
  repeat first
    [ rewrite sizes_insert_ne by ne_solve
    | etrans; [eapply sizes_insert; [hlook | cbn; reflexivity | cbn; reflexivity] |] ];
  reflexivity.

Ltac frame_solve :=
  let a := fresh "a" in
  let Ha := fresh "Ha" in
  intros a Ha; intros; nodup_atoms Ha;
  rewrite ?lookup_insert_ne by ne_solve; reflexivity.

(** ** Taking a block *)

Section Take.
Context `{Platform}.
Implicit Types (m : heap) (l : list Z).

Lemma take_move_spec bb m p l1 l2 al :
  dlist m (avail bb) (l1 ++ p :: l2) →
  dlist m (active bb) al →
  NoDup ((l1 ++ p :: l2) ++ al) →
  ∃ bb' m',
    take_move bb m p = Some (bb', m')
    ∧ dlist m' (avail bb') (l1 ++ l2)
    ∧ dlist m' (active bb') (p :: al)
    ∧ same_buffer bb bb'
    ∧ (∀ x, sizes m' x = sizes m x)
    ∧ (∀ x, x ∉ (l1 ++ p :: l2) ++ al → m' !! x = m !! x).
Proof.
  unfold dlist. intros Hfl Hal Hnd.
  apply dseg_app in Hfl as (mid & Hl1 & Hl2).
  apply dseg_cons in Hl2 as (-> & Hp0 & bp & Hbp & Hpp & Hl2).
  unfold take_move.
  destruct bp as [sz ts nx pv rq mb ct]; cbn in *.
  destruct l1 as [|x l1' _] using rev_ind;
    [apply dseg_nil in Hl1
    |rewrite last_snoc in Hpp;
     apply dseg_snoc in Hl1 as (Hx0 & [? ? xn ? ? ? ?] & Hbx & Hxp & Hxn & Hl1)];
    (destruct l2 as [|y l2'];
     [apply dseg_nil in Hl2
     |apply dseg_cons in Hl2 as (? & Hy0 & [? ? ? yp ? ? ?] & Hby & Hyp & Hl2)]);
    (destruct al as [|h al'];
     [apply dseg_nil in Hal
     |apply dseg_cons in Hal as (Hh & Hh0 & [? ? ? hp ? ? ?] & Hbh & Hhp & Hal)]);
    cbn in *; subst; nodup_atoms Hnd.
  all: ev.
  all: eexists _, _; (split; [reflexivity|]).
  all: split; [dsolve|].
  all: split; [dsolve|].
  all: split; [done|].
  all: split; [sizes_solve | frame_solve].
Qed.

Lemma take_split_spec hd ahd m p alloc l1 l2 al bp :
  let q := p + BSENDDATA_HEADER_TRUE_SIZE + alloc in
  dlist m hd (l1 ++ p :: l2) →
  dlist m ahd al →
  NoDup ((l1 ++ p :: l2) ++ al) →
  m !! p = Some bp →
  wrap (alloc + BSENDDATA_HEADER_TRUE_SIZE + MIN_BUFFER_BLOCK) ≤ size bp →
  q ≠ NULL → q ∉ (l1 ++ p :: l2) ++ al →
  ∃ m' bq,
    take_split m p alloc = Some m'
    ∧ dlist m' hd (l1 ++ p :: q :: l2)
    ∧ dlist m' ahd al
    ∧ m' !! q = Some bq
    ∧ total_size bq = wrap (total_size bp - alloc - BSENDDATA_HEADER_TRUE_SIZE)
    ∧ size bq = wrap (total_size bq - BSENDDATA_HEADER_TRUE_SIZE)
    ∧ m' !! p = Some (set_size (wrap (wrap (q - p) - BSENDDATA_HEADER_TRUE_SIZE))
                        (set_total_size (wrap (q - p)) (set_next q bp)))
    ∧ (∀ x, x ≠ p → x ≠ q → sizes m' x = sizes m x)
    ∧ (∀ x, x ∉ (l1 ++ p :: l2) ++ al → x ≠ q → m' !! x = m !! x).
Proof.
  intros q. unfold dlist. intros Hfl Hal Hnd Hbp Hfit Hq0 Hq.
  apply dseg_app in Hfl as (mid & Hl1 & Hl2).
  apply dseg_cons in Hl2 as (-> & Hp0 & bp' & Hbp' & Hpp & Hl2).
  rewrite Hbp in Hbp'. injection Hbp' as <-.
  unfold take_split, carve. fold q. clearbody q.
  destruct bp as [sz ts nx pv rq mb ct]; cbn in *.
  assert (NoDup (q :: (l1 ++ p :: l2) ++ al)) as Hnd' by (by apply NoDup_cons).
  clear Hnd Hq.
  destruct l1 as [|x l1' _] using rev_ind;
    [apply dseg_nil in Hl1
    |rewrite last_snoc in Hpp;
     apply dseg_snoc in Hl1 as (Hx0 & [? ? xn ? ? ? ?] & Hbx & Hxp & Hxn & Hl1)];
    (destruct l2 as [|y l2'];
     [apply dseg_nil in Hl2
     |apply dseg_cons in Hl2 as (? & Hy0 & [? ? ? yp ? ? ?] & Hby & Hyp & Hl2)]);
    cbn in *; subst; nodup_atoms Hnd'.
  all: ev.
  all: eexists _, _; (split; [reflexivity|]).
  all: split; [dsolve|].
  all: split; [dsolve|].
  all: split; [hlook|].
  all: split; [reflexivity|].
  all: split; [reflexivity|].
  all: split; [hlook|].
  all: split; [sizes_solve | frame_solve].
Qed.
End Take.

Section Align.
Context `{Platform}.

Lemma round_up_spec n a :
  0 < a → (a | round_up n a) ∧ n ≤ round_up n a < n + a.
Proof.
  intros Ha. unfold round_up. split.
  - by apply Z.divide_factor_r.
  - pose proof (Z.div_mod (n + a - 1) a ltac:(lia)).
    pose proof (Z.mod_pos_bound (n + a - 1) a Ha). lia.
Qed.

Lemma alloc_size_of_round_up n k :
  MAX_ALIGNMENT = 2 ^ k → 0 ≤ k → 0 ≤ n → n + MAX_ALIGNMENT ≤ 2 ^ 64 →
  alloc_size_of n = round_up n MAX_ALIGNMENT.
Proof.
  intros HM Hk Hn Hbound. unfold alloc_size_of.
  assert (0 < MAX_ALIGNMENT) as Hpos by (rewrite HM; by apply Z.pow_pos_nonneg).
  assert (Z.land n (MAX_ALIGNMENT - 1) = n mod MAX_ALIGNMENT) as ->.
  { rewrite HM, <- Z.land_ones by done. by rewrite Z.ones_equiv, <- Z.sub_1_r. }
  assert (MAX_ALIGNMENT ≠ 0) as Hne by lia.
  pose proof (Z.div_mod n MAX_ALIGNMENT Hne) as Hdm.
  pose proof (Z.mod_pos_bound n MAX_ALIGNMENT Hpos) as Hr.
  unfold round_up. case_decide as Hrem.
  - rewrite wrap_small by lia.
    assert ((n + MAX_ALIGNMENT - 1) / MAX_ALIGNMENT = n / MAX_ALIGNMENT + 1) as ->.
    { symmetry. apply Z.div_unique with (n mod MAX_ALIGNMENT - 1); lia. }
    lia.
  - assert (n mod MAX_ALIGNMENT = 0) as Hz by (by destruct (decide (n mod MAX_ALIGNMENT = 0))).
    assert ((n + MAX_ALIGNMENT - 1) / MAX_ALIGNMENT = n / MAX_ALIGNMENT) as ->.
    { symmetry. apply Z.div_unique with (MAX_ALIGNMENT - 1); lia. }
    lia.
Qed.
End Align.

Section TakeBuffer.
Context `{Platform}.
Implicit Types (m : heap) (l : list Z).

Lemma take_split_none m p alloc bp :
  m !! p = Some bp →
  ¬ wrap (alloc + BSENDDATA_HEADER_TRUE_SIZE + MIN_BUFFER_BLOCK) ≤ size bp →
  take_split m p alloc = Some m.
Proof.
  intros Hbp Hno. unfold take_split. rewrite (rd_Some m p bp size Hbp). cbn [mbind option_bind].
  by rewrite decide_False.
Qed.

Lemma dlists_NoDup m hd ahd fl al :
  dlist m hd fl → dlist m ahd al → disj fl al → NoDup (fl ++ al).
Proof.
  intros Hfl Hal Hd. apply NoDup_app. split; [by eapply dseg_NoDup|].
  split; [done|by eapply dseg_NoDup].
Qed.

(** What [MPIR_Bsend_take_buffer] does with a block [p] of the free list and
    a request of [n] bytes. *)
Lemma take_buffer_spec bb m p n l1 l2 al bp k :
  MAX_ALIGNMENT = 2 ^ k → 0 ≤ k < 62 →
  0 ≤ BSENDDATA_HEADER_TRUE_SIZE →
  dlist m (avail bb) (l1 ++ p :: l2) → dlist m (active bb) al →
  disj (l1 ++ p :: l2) al →
  m !! p = Some bp → 0 < p →
  size bp = total_size bp - BSENDDATA_HEADER_TRUE_SIZE → total_size bp < 2 ^ 63 →
  0 ≤ n ≤ size bp →
  let hs := BSENDDATA_HEADER_TRUE_SIZE in
  let n_aligned := round_up n MAX_ALIGNMENT in
  let q := p + hs + n_aligned in
  (n_aligned + hs + MIN_BUFFER_BLOCK ≤ size bp → q ∉ (l1 ++ p :: l2) ++ al) →
  ∃ bb' m',
    MPIR_Bsend_take_buffer bb m p n = Some (bb', m')
    ∧ dlist m' (active bb') (p :: al)
    ∧ same_buffer bb bb'
    ∧ (∀ x, x ≠ p → x ≠ q → sizes m' x = sizes m x)
    ∧ (∀ x, x ∉ (l1 ++ p :: l2) ++ al → x ≠ q → m' !! x = m !! x)
    ∧ if decide (n_aligned + hs + MIN_BUFFER_BLOCK ≤ size bp) then
        dlist m' (avail bb') (l1 ++ q :: l2)
        ∧ sizes m' q = Some (total_size bp - (hs + n_aligned) - hs,
                             total_size bp - (hs + n_aligned))
        ∧ MIN_BUFFER_BLOCK ≤ total_size bp - (hs + n_aligned) - hs
        ∧ sizes m' p = Some (n_aligned, hs + n_aligned)
      else
        dlist m' (avail bb') (l1 ++ l2) ∧ ∀ x, sizes m' x = sizes m x.
Proof.
  intros HM Hk Hh Hfl Hal Hdisj Hbp Hp0 Hsz Htot Hn hs n_aligned q Hq.
  assert (0 < MAX_ALIGNMENT ≤ 2 ^ 61) as HMb.
  { rewrite HM. split; [apply Z.pow_pos_nonneg; lia|apply Z.pow_le_mono_r; lia]. }
  assert (alloc_size_of n = n_aligned) as Halloc.
  { apply (alloc_size_of_round_up n k); lia. }
  pose proof (round_up_spec n MAX_ALIGNMENT (proj1 HMb)) as [_ Hru]. fold n_aligned in Hru.
  pose proof (dlists_NoDup _ _ _ _ _ Hfl Hal Hdisj) as Hnd.
  unfold MPIR_Bsend_take_buffer. rewrite Halloc.
  assert (wrap (n_aligned + hs + MIN_BUFFER_BLOCK) = n_aligned + hs + MIN_BUFFER_BLOCK) as Hw.
  { apply wrap_small. unfold MIN_BUFFER_BLOCK. lia. }
  case_decide as Hfit.
  - specialize (Hq Hfit).
    destruct (take_split_spec (avail bb) (active bb) m p n_aligned l1 l2 al bp Hfl Hal Hnd Hbp)
      as (m1 & bq & Hsplit & Hfl1 & Hal1 & Hbq & Htq & Hsq & Hbp1 & Hsz1 & Hfr1).
    { fold hs. by rewrite Hw. }
    { fold hs. unfold NULL. lia. }
    { done. }
    fold hs q in Hsplit, Hfl1, Hbq, Htq, Hsq, Hbp1, Hsz1, Hfr1.
    rewrite Hsplit. cbn [mbind option_bind].
    destruct (take_move_spec bb m1 p l1 (q :: l2) al Hfl1 Hal1)
      as (bb' & m' & Hmove & Hfl' & Hal' & Hsb & Hsz2 & Hfr2).
    { nodup_atoms Hnd. nodup_atoms Hq. nodup_goal. }
    exists bb', m'. split; [done|]. split; [done|]. split; [done|].
    split. { intros x Hxp Hxq. rewrite Hsz2. by apply Hsz1. }
    split.
    { intros x Hx Hxq. rewrite Hfr2; [by apply Hfr1|].
      rewrite !not_elem_of_app, !not_elem_of_cons in *. tauto. }
    split; [done|].
    split.
    { rewrite Hsz2, (sizes_lookup _ _ _ Hbq), Hsq, Htq.
      rewrite (wrap_small (total_size bp - n_aligned - hs)) by (unfold MIN_BUFFER_BLOCK in *; lia).
      rewrite wrap_small by (unfold MIN_BUFFER_BLOCK in *; lia).
      do 2 f_equal; lia. }
    split; [lia|].
    rewrite Hsz2, (sizes_lookup _ _ _ Hbp1). cbn.
    replace (q - p) with (hs + n_aligned) by (unfold q; lia).
    rewrite (wrap_small (hs + n_aligned)) by lia.
    rewrite wrap_small by lia. do 2 f_equal. lia.
  - rewrite (take_split_none m p n_aligned bp Hbp) by (fold hs; rewrite Hw; done).
    cbn [mbind option_bind].
    destruct (take_move_spec bb m p l1 l2 al Hfl Hal Hnd)
      as (bb' & m' & Hmove & Hfl' & Hal' & Hsb & Hsz2 & Hfr2).
    exists bb', m'. split; [done|]. split; [done|]. split; [done|].
    split; [intros; apply Hsz2|]. split; [intros; by apply Hfr2|].
    split; [done|apply Hsz2].
Qed.

End TakeBuffer.
(** ** Releasing a block *)

Section Free.
Context `{Platform}.
Implicit Types (m : heap) (l : list Z).

Lemma free_unlink_spec bb m p a1 a2 bp :
  dlist m (active bb) (a1 ++ p :: a2) →
  NoDup (a1 ++ p :: a2) →
  m !! p = Some bp →
  ∃ bb' m',
    free_unlink bb m p (prev bp) = Some (bb', m')
    ∧ dlist m' (active bb') (a1 ++ a2)
    ∧ avail bb' = avail bb ∧ same_buffer bb bb'
    ∧ m' !! p = Some bp
    ∧ (∀ x, sizes m' x = sizes m x)
    ∧ (∀ x, x ∉ a1 ++ a2 → m' !! x = m !! x).
Proof.
  unfold dlist. intros Hal Hnd Hbp.
  apply dseg_app in Hal as (mid & Hl1 & Hl2).
  apply dseg_cons in Hl2 as (-> & Hp0 & bp' & Hbp' & Hpp & Hl2).
  rewrite Hbp in Hbp'. injection Hbp' as <-.
  unfold free_unlink.
  destruct bp as [sz ts nx pv rq mb ct]; cbn in *.
  destruct a1 as [|x a1' _] using rev_ind;
    [apply dseg_nil in Hl1
    |rewrite last_snoc in Hpp;
     apply dseg_snoc in Hl1 as (Hx0 & [? ? xn ? ? ? ?] & Hbx & Hxp & Hxn & Hl1)];
    (destruct a2 as [|y a2'];
     [apply dseg_nil in Hl2
     |apply dseg_cons in Hl2 as (? & Hy0 & [? ? ? yp ? ? ?] & Hby & Hyp & Hl2)]);
    cbn in *; subst; nodup_atoms Hnd.
  all: ev.
  all: eexists _, _; (split; [reflexivity|]).
  all: split; [dsolve|].
  all: split; [reflexivity|].
  all: split; [done|].
  all: split; [hlook|].
  all: split; [sizes_solve | frame_solve].
Qed.

Lemma free_walk_spec m p fl :
  ∀ (fuel : nat) prv hd ap,
    dseg m prv hd fl NULL → (length fl ≤ fuel)%nat →
    ∃ f1 f2,
      fl = f1 ++ f2
      ∧ free_walk fuel m p ap hd = Some (default ap (last f1), default NULL (head f2))
      ∧ Forall (λ a, a ≤ p) f1
      ∧ (∀ r, head f2 = Some r → p < r).
Proof.
  induction fl as [|a fl IH]; intros fuel prv hd ap Hd Hfuel.
  - apply dseg_nil in Hd as ->. exists [], []. split; [done|].
    split; [by destruct fuel|]. split; [constructor|]. intros r Hr. discriminate.
  - apply dseg_cons in Hd as (-> & Ha & b & Hb & Hp & Hrest).
    destruct fuel as [|fuel]; [cbn in Hfuel; lia|].
    cbn [free_walk]. rewrite decide_False by done.
    destruct (decide (p < a)) as [Hlt|Hge].
    + exists [], (a :: fl). split; [done|]. split; [done|]. split; [constructor|].
      intros r Hr. cbn in Hr. by injection Hr as <-.
    + rewrite (rd_Some _ _ _ _ Hb). cbn [mbind option_bind].
      destruct (IH fuel a (next b) a Hrest) as (f1 & f2 & -> & Hw & Hall & Hhd).
      { cbn in Hfuel. lia. }
      exists (a :: f1), f2. split; [done|]. split.
      { cbn [mbind option_bind]. rewrite Hw. by rewrite default_last_cons. }
      split; [|done]. constructor; [lia|done].
Qed.

Lemma free_merge_next_spec m p av f2 bp prv :
  m !! p = Some bp →
  dseg m prv av f2 NULL →
  NoDup (p :: f2) →
  ∃ m' bp' f2',
    free_merge_next m p av = Some m'
    ∧ m' !! p = Some bp' ∧ prev bp' = prev bp
    ∧ dseg m' p (next bp') f2' NULL
    ∧ ((∃ r t br, f2 = r :: t ∧ m !! r = Some br ∧ p + total_size bp = r ∧ f2' = t
          ∧ total_size bp' = wrap (total_size bp + total_size br)
          ∧ size bp' = wrap (total_size bp' - BSENDDATA_HEADER_TRUE_SIZE))
       ∨ ((∀ r, head f2 = Some r → p + total_size bp ≠ r) ∧ f2' = f2
          ∧ total_size bp' = total_size bp ∧ size bp' = size bp))
    ∧ (∀ x, x ≠ p → sizes m' x = sizes m x)
    ∧ (∀ x, x ∉ p :: f2 → m' !! x = m !! x).
Proof.
  intros Hbp Hf2 Hnd. unfold free_merge_next.
  destruct bp as [sz ts nx pv rq mb ct]; cbn in *.
  destruct f2 as [|r t].
  - apply dseg_nil in Hf2 as ->. nodup_atoms Hnd. ev.
    eexists _, _, []. split; [reflexivity|]. split; [hlook|]. split; [done|].
    split; [dsolve|]. split; [right; by repeat split|].
    split; [sizes_solve | frame_solve].
  - apply dseg_cons in Hf2 as (-> & Hr0 & [rs rt rn rp rr rm rc] & Hbr & Hrp & Hrest).
    cbn in *. subst.
    destruct (decide (p + ts = r)) as [Hadj|Hnadj].
    + destruct t as [|r2 t];
        [apply dseg_nil in Hrest
        |apply dseg_cons in Hrest as (? & Hr20 & [? ? ? ? ? ? ?] & Hbr2 & Hr2p & Hrest)];
        cbn in *; subst; nodup_atoms Hnd; ev.
      1: eexists _, _, [].
      2: eexists _, _, (r2 :: t).
      all: (split; [reflexivity|]); (split; [hlook|]); (split; [done|]).
      all: split; [dsolve|].
      all: split; [left; eexists _, _, _; repeat split; done|].
      all: split; [sizes_solve | frame_solve].
    + nodup_atoms Hnd. ev.
      eexists _, _, (r :: t). split; [reflexivity|]. split; [hlook|]. split; [done|].
      split; [dsolve|].
      split. { right. repeat split; try done. intros r' Hr'. cbn in Hr'. congruence. }
      split; [sizes_solve | frame_solve].
Qed.

Lemma free_merge_prev_spec bb m p f1 f2 bp q :
  p ≠ NULL →
  dseg m NULL (avail bb) f1 q →
  m !! p = Some bp →
  dseg m p (next bp) f2 NULL →
  NoDup (p :: f1 ++ f2) →
  ∃ bb' m',
    free_merge_prev bb m p (default NULL (last f1)) = Some (bb', m')
    ∧ active bb' = active bb ∧ same_buffer bb bb'
    ∧ ((∃ f1' (l : Z) bl bl', f1 = f1' ++ [l] ∧ m !! l = Some bl ∧ l + total_size bl = p
          ∧ dlist m' (avail bb') (f1 ++ f2)
          ∧ m' !! l = Some bl'
          ∧ total_size bl' = wrap (total_size bl + total_size bp)
          ∧ size bl' = wrap (total_size bl' - BSENDDATA_HEADER_TRUE_SIZE)
          ∧ ∀ x, x ≠ l → sizes m' x = sizes m x)
       ∨ ((∀ (l : Z) bl, last f1 = Some l → m !! l = Some bl → l + total_size bl ≠ p)
          ∧ dlist m' (avail bb') (f1 ++ p :: f2)
          ∧ ∀ x, sizes m' x = sizes m x))
    ∧ (∀ x, x ∉ p :: f1 ++ f2 → m' !! x = m !! x).
Proof.
  intros Hp0 Hf1 Hbp Hf2 Hnd. unfold free_merge_prev, dlist.
  destruct bp as [sz ts nx pv rq mb ct]; cbn in *.
  destruct f1 as [|l f1' _] using rev_ind.
  - apply dseg_nil in Hf1. cbn in *. nodup_atoms Hnd. ev.
    eexists _, _. split; [reflexivity|]. split; [done|]. split; [done|].
    split; [|frame_solve].
    right. split; [intros ? ? ?; discriminate|].
    split; [dsolve|sizes_solve].
  - rewrite last_snoc. cbn.
    apply dseg_snoc in Hf1 as (Hl0 & [ls lt ln lp lr lm lc] & Hbl & Hlp & Hln & Hf1).
    cbn in *. subst.
    destruct (decide (l + lt = p)) as [Hadj|Hnadj].
    + destruct f2 as [|y t];
        [apply dseg_nil in Hf2
        |apply dseg_cons in Hf2 as (? & Hy0 & [? ? ? ? ? ? ?] & Hby & Hyp & Hf2)];
        cbn in *; subst; nodup_atoms Hnd; ev.
      all: eexists _, _; (split; [reflexivity|]); (split; [done|]); (split; [done|]).
      all: split; [|frame_solve].
      all: left; eexists f1', l, _, _; (split; [done|]); (split; [eassumption|]).
      all: split; [done|].
      all: split; [dsolve|].
      all: split; [hlook|].
      all: split; [reflexivity|].
      all: split; [reflexivity|].
      all: sizes_solve.
    + nodup_atoms Hnd; ev.
      eexists _, _. split; [reflexivity|]. split; [done|]. split; [done|].
      split; [|frame_solve].
      right. split.
      { intros l' bl' Hl' Hbl'. rewrite ?last_snoc in Hl'. injection Hl' as <-.
        rewrite Hbl in Hbl'. injection Hbl' as <-. done. }
      split; [|sizes_solve].
      rewrite <- app_assoc. cbn. dsolve.
Qed.

(** What [MPIR_Bsend_free_segment] does to a block [p] of the active list:
    the four outcomes are no merge, merge with the next block, merge with
    the previous block, and both. *)
Lemma free_segment_spec (fuel : nat) bb m p fl a1 a2 :
  dlist m (avail bb) fl →
  dlist m (active bb) (a1 ++ p :: a2) →
  disj fl (a1 ++ p :: a2) →
  (length fl ≤ fuel)%nat →
  ∃ bb' m' f1 f2 bp,
    MPIR_Bsend_free_segment fuel bb m p = Some (bb', m')
    ∧ m !! p = Some bp
    ∧ fl = f1 ++ f2 ∧ Forall (λ a, a ≤ p) f1 ∧ (∀ r, head f2 = Some r → p < r)
    ∧ dlist m' (active bb') (a1 ++ a2)
    ∧ same_buffer bb bb'
    ∧ (∀ x, x ∉ fl ++ a1 ++ p :: a2 → m' !! x = m !! x)
    ∧ let tp := total_size bp in
      let hs := BSENDDATA_HEADER_TRUE_SIZE in
      (((∀ r, head f2 = Some r → p + tp ≠ r)
        ∧ (∀ a, last f1 = Some a → block_end m a ≠ p)
        ∧ dlist m' (avail bb') (f1 ++ p :: f2)
        ∧ (∀ x, sizes m' x = sizes m x))
       ∨ (∃ r t, f2 = r :: t ∧ p + tp = r
          ∧ (∀ a, last f1 = Some a → block_end m a ≠ p)
          ∧ dlist m' (avail bb') (f1 ++ p :: t)
          ∧ sizes m' p = Some (wrap (wrap (tp + span m r) - hs), wrap (tp + span m r))
          ∧ (∀ x, x ≠ p → sizes m' x = sizes m x))
       ∨ (∃ f1' a, f1 = f1' ++ [a] ∧ block_end m a = p
          ∧ (∀ r, head f2 = Some r → p + tp ≠ r)
          ∧ dlist m' (avail bb') (f1 ++ f2)
          ∧ sizes m' a = Some (wrap (wrap (span m a + tp) - hs), wrap (span m a + tp))
          ∧ (∀ x, x ≠ a → sizes m' x = sizes m x))
       ∨ (∃ f1' a r t, f1 = f1' ++ [a] ∧ f2 = r :: t ∧ block_end m a = p ∧ p + tp = r
          ∧ dlist m' (avail bb') (f1 ++ t)
          ∧ sizes m' a = Some (wrap (wrap (span m a + wrap (tp + span m r)) - hs),
                               wrap (span m a + wrap (tp + span m r)))
          ∧ (∀ x, x ≠ a → x ≠ p → sizes m' x = sizes m x))).
Proof.
  intros Hfl Hal Hdisj Hfuel.
  pose proof (dseg_NoDup _ _ _ _ Hal) as Hnda.
  pose proof (dseg_NoDup _ _ _ _ Hfl) as Hndf.
  destruct (dseg_elem _ _ _ _ _ p Hal) as [Hp0 [bp Hbp]].
  { apply elem_of_app. right. left. }
  (* unlink from the active list *)
  destruct (free_unlink_spec bb m p a1 a2 bp Hal Hnda Hbp)
    as (bb1 & m1 & Hun & Hal1 & Hav1 & Hsb1 & Hbp1 & Hsz1 & Hfr1).
  assert (disj fl (a1 ++ a2)) as Hdisj1.
  { intros x Hx Hx'. apply (Hdisj x Hx). rewrite elem_of_app, elem_of_cons.
    apply elem_of_app in Hx' as [?|?]; auto. }
  assert (p ∉ fl) as Hpfl.
  { intros Hx. apply (Hdisj p Hx). apply elem_of_app. right. left. }
  assert (p ∉ a1 ++ a2) as Hpal.
  { nodup_atoms Hnda. rewrite not_elem_of_app. done. }
  pose proof (dseg_frame _ _ _ _ _ _ _ Hfr1 Hdisj1 Hfl) as Hfl1.
  (* find the neighbours *)
  destruct (free_walk_spec m1 p fl fuel NULL (avail bb) 0 Hfl1 Hfuel)
    as (f1 & f2 & -> & Hwalk & Hle & Hgt).
  apply dseg_app in Hfl1 as (mid & Hf1 & Hf2).
  pose proof (dseg_head _ _ _ _ _ Hf2) as Hmid.
  assert ((p ∉ f1) ∧ (p ∉ f2)) as [Hpf1 Hpf2] by (by apply not_elem_of_app).
  assert (NoDup f1 ∧ disj f1 f2 ∧ NoDup f2) as (Hnd1 & Hd12 & Hnd2) by (by apply NoDup_app).
  (* merge with the next block *)
  destruct (free_merge_next_spec m1 p mid f2 bp _ Hbp1 Hf2)
    as (m2 & bp' & f2' & Hmn & Hbp2 & Hpp2 & Hf2' & Hcase2 & Hsz2 & Hfr2).
  { by apply NoDup_cons. }
  assert (f2' ⊆ f2) as Hsub2.
  { destruct Hcase2 as [(r & t & br & -> & _ & _ & -> & _)|(_ & -> & _)]; [|done].
    intros x Hx. by right. }
  assert (disj f1 (p :: f2)) as Hd1p2 by (apply disj_cons_r; done).
  pose proof (dseg_frame _ _ _ _ _ _ _ Hfr2 Hd1p2 Hf1) as Hf1'.
  assert (disj (a1 ++ a2) (p :: f2)) as Hda2.
  { apply disj_cons_r. split; [done|]. intros x Hx Hx'. apply (Hdisj1 x); [|done].
    apply elem_of_app. by right. }
  pose proof (dseg_frame _ _ _ _ _ _ _ Hfr2 Hda2 Hal1) as Hal2.
  (* merge with the previous block *)
  rewrite <- Hav1 in Hf1'.
  destruct (free_merge_prev_spec bb1 m2 p f1 f2' bp' mid Hp0 Hf1' Hbp2 Hf2')
    as (bb' & m' & Hmp & Hact' & Hsb' & Hcase' & Hfr').
  { apply NoDup_cons. split.
    - apply not_elem_of_app. split; [done|]. intros Hx. by apply Hpf2, Hsub2.
    - apply NoDup_app. split; [done|]. split.
      + intros x Hx Hx'. by apply (Hd12 x Hx), Hsub2.
      + destruct Hcase2 as [(r & t & br & -> & _ & _ & -> & _)|(_ & -> & _)]; [|done].
        by apply NoDup_cons in Hnd2 as [_ ?]. }
  assert (disj (a1 ++ a2) (p :: f1 ++ f2')) as Hda3.
  { apply disj_cons_r. split; [done|]. intros x Hx Hx'. apply (Hdisj1 x); [|done].
    apply elem_of_app. apply elem_of_app in Hx' as [?|?]; [by left|right; by apply Hsub2]. }
  pose proof (dseg_frame _ _ _ _ _ _ _ Hfr' Hda3 Hal2) as Hal'.
  rewrite <- Hact' in Hal'.
  exists bb', m', f1, f2, bp.
  split.
  { unfold MPIR_Bsend_free_segment. rewrite (rd_Some _ _ _ _ Hbp). cbn [mbind option_bind].
    rewrite Hun. cbn [mbind option_bind]. rewrite Hwalk. cbn [mbind option_bind].
    rewrite <- Hmid, Hmn. cbn [mbind option_bind]. exact Hmp. }
  split; [done|]. split; [done|]. split; [done|]. split; [done|].
  split; [done|].
  split.
  { unfold same_buffer in *. intuition congruence. }
  split.
  { intros x Hx. rewrite !not_elem_of_app, not_elem_of_cons in Hx.
    destruct Hx as ((Hx1 & Hx2) & Hx3 & Hx4 & Hx5).
    rewrite Hfr', Hfr2, Hfr1; [done| | |].
    - by apply not_elem_of_app.
    - by apply not_elem_of_cons.
    - apply not_elem_of_cons. split; [done|]. apply not_elem_of_app. split; [done|].
      intros ?. by apply Hx2, Hsub2. }
  assert (∀ x, x ≠ p → sizes m2 x = sizes m x) as Hszx.
  { intros x Hx. by rewrite Hsz2, Hsz1. }
  assert (∀ x b, x ≠ p → m2 !! x = Some b → span m x = total_size b) as Hspx.
  { intros x b Hx Hb. rewrite <- (sizes_span m m2 x) by (by apply Hszx).
    by apply span_lookup. }
  assert (∀ a, last f1 = Some a → a ≠ p) as Hlast_ne.
  { intros a Ha ->. apply Hpf1. apply last_Some in Ha as [l' ->].
    apply elem_of_app. right. left. }
  cbn zeta.
  destruct Hcase' as [(f1' & a & bl & bl' & -> & Hbl & Hadj & Hfl' & Hbl' & Htl & Hsl & Hszl)
                     |(Hnadj & Hfl' & Hszl)].
  - (* merged with the previous block *)
    assert (a ≠ p) as Hap by (apply Hlast_ne, last_snoc).
    assert (block_end m a = p) as Hend.
    { unfold block_end. by rewrite (Hspx a bl Hap Hbl). }
    destruct Hcase2 as [(r & t & br & -> & Hbr & Hadjr & -> & Htp & Hsp)
                       |(Hnadjr & -> & Htp & Hsp)].
    + right. right. right. exists f1', a, r, t.
      split; [done|]. split; [done|]. split; [done|]. split; [done|]. split; [done|].
      assert (span m r = total_size br) as Hsr.
      { rewrite <- (sizes_span m m1 r) by apply Hsz1. by apply span_lookup. }
      split.
      { rewrite (sizes_lookup _ _ _ Hbl'), Hsl, Htl, Htp, Hsr, (Hspx a bl Hap Hbl). done. }
      intros x Hxa Hxp. rewrite Hszl by done. by apply Hszx.
    + right. right. left. exists f1', a.
      split; [done|]. split; [done|]. split; [done|]. split; [done|].
      split.
      { rewrite (sizes_lookup _ _ _ Hbl'), Hsl, Htl, Htp, (Hspx a bl Hap Hbl). done. }
      intros x Hxa. rewrite Hszl by done.
      destruct (decide (x = p)) as [->|Hxp]; [|by apply Hszx].
      rewrite (sizes_lookup _ _ _ Hbp2), (sizes_lookup _ _ _ Hbp). by rewrite Htp, Hsp.
  - (* not merged with the previous block *)
    assert (∀ a, last f1 = Some a → block_end m a ≠ p) as Hna.
    { intros a Ha. pose proof (Hlast_ne a Ha) as Hap.
      destruct (dseg_elem _ _ _ _ _ a Hf1') as [_ [bl Hbl]].
      { apply last_Some in Ha as [l' ->]. apply elem_of_app. right. left. }
      unfold block_end. rewrite (Hspx a bl Hap Hbl). by apply Hnadj. }
    destruct Hcase2 as [(r & t & br & -> & Hbr & Hadjr & -> & Htp & Hsp)
                       |(Hnadjr & -> & Htp & Hsp)].
    + right. left. exists r, t.
      split; [done|]. split; [done|]. split; [done|]. split; [done|].
      assert (span m r = total_size br) as Hsr.
      { rewrite <- (sizes_span m m1 r) by apply Hsz1. by apply span_lookup. }
      split.
      { rewrite Hszl, (sizes_lookup _ _ _ Hbp2), Hsp, Htp, Hsr. done. }
      intros x Hxp. rewrite Hszl. by apply Hszx.
    + left. split; [done|]. split; [done|]. split; [done|].
      intros x. rewrite Hszl.
      destruct (decide (x = p)) as [->|Hxp]; [|by apply Hszx].
      rewrite (sizes_lookup _ _ _ Hbp2), (sizes_lookup _ _ _ Hbp). by rewrite Htp, Hsp.
Qed.

End Free.
(** ** Release on addresses and spans *)

Section Coalesce.
Implicit Types (m : heap) (l : list Z).

Lemma spans_app m l1 l2 : spans m (l1 ++ l2) = spans m l1 ++ spans m l2.
Proof. unfold spans. apply fmap_app. Qed.

Lemma spans_ext m m' l :
  (∀ a, a ∈ l → span m' a = span m a) → spans m' l = spans m l.
Proof.
  intros Hl. unfold spans. apply list_fmap_ext. intros i a Ha.
  rewrite Hl; [done|]. by apply list_elem_of_lookup_2 in Ha.
Qed.

Lemma insert_block_spans m p tp f1 f2 :
  Forall (λ a, a ≤ p) f1 → (∀ r, head f2 = Some r → p < r) →
  insert_block (p, tp) (spans m (f1 ++ f2)) = spans m f1 ++ (p, tp) :: spans m f2.
Proof.
  intros Hle Hgt. induction Hle as [|a f1 Ha Hle IH]; cbn.
  - destruct f2 as [|r t]; [done|]. cbn. rewrite decide_True; [done|]. by apply Hgt.
  - rewrite decide_False by lia. f_equal. exact IH.
Qed.

Lemma apart_app m l1 l2 :
  apart m (l1 ++ l2) ↔
  apart m l1 ∧ apart m l2
  ∧ (∀ a b, last l1 = Some a → head l2 = Some b → block_end m a ≠ b).
Proof.
  induction l1 as [|x l1 IH]; cbn.
  - split; [intros ?; repeat split; [done|discriminate] | by intros (_ & ? & _)].
  - rewrite IH. split.
    + intros (Hx & H1 & H2 & H3). split; [split; [|done]|split; [done|]].
      * intros b Hb. apply Hx. destruct l1; [done|]. done.
      * intros a b Ha Hb. destruct l1 as [|y l1].
        -- cbn in Ha. injection Ha as <-. by apply Hx.
        -- apply H3; [|done]. by rewrite last_cons_cons in Ha.
    + intros ((Hx & H1) & H2 & H3). split; [|split; [done|split; [done|]]].
      * intros b Hb. destruct l1 as [|y l1]; cbn in Hb.
        -- by apply H3.
        -- by apply Hx.
      * intros a b Ha Hb. apply H3; [|done]. destruct l1; [done|].
        by rewrite last_cons_cons.
Qed.

Lemma apart_ext m m' l :
  (∀ a, a ∈ l → span m' a = span m a) → apart m l → apart m' l.
Proof.
  induction l as [|x l IH]; [done|]. cbn. intros Hl [Hx Hrest]. split.
  - intros b Hb. unfold block_end. rewrite Hl by left. by apply Hx.
  - apply IH; [|done]. intros a Ha. apply Hl. by right.
Qed.

(** Joining does nothing where no block ends at the start of the next. *)
Lemma foldr_join_apart m l acc :
  apart m l →
  (∀ a b, last l = Some a → head acc = Some b → block_end m a ≠ b.1) →
  foldr join_next acc (spans m l) = spans m l ++ acc.
Proof.
  induction l as [|x l IH]; [done|]. intros [Hx Hrest] Hlast.
  change (spans m (x :: l)) with ((x, span m x) :: spans m l). cbn [foldr].
  rewrite IH; [|done|].
  - destruct l as [|y l]; cbn.
    + destruct acc as [|b acc]; [done|]. cbn. rewrite decide_False; [done|].
      by apply (Hlast x b).
    + rewrite decide_False; [done|]. by apply Hx.
  - intros a b Ha Hb. apply Hlast; [|done]. destruct l; [done|]. by rewrite last_cons_cons.
Qed.

Lemma coalesce_apart m l : apart m l → coalesce (spans m l) = spans m l.
Proof.
  intros Hl. unfold coalesce. rewrite (foldr_join_apart m l []); [by rewrite app_nil_r|done|].
  intros ? ? ? ?. discriminate.
Qed.

Lemma coalesce_cons m p tp l :
  apart m l →
  coalesce ((p, tp) :: spans m l) = join_next (p, tp) (spans m l).
Proof. intros Hl. unfold coalesce. cbn [foldr]. fold (coalesce (spans m l)). by rewrite coalesce_apart. Qed.

Lemma coalesce_app_apart m l acc :
  apart m l →
  (∀ a b, last l = Some a → head (coalesce acc) = Some b → block_end m a ≠ b.1) →
  coalesce (spans m l ++ acc) = spans m l ++ coalesce acc.
Proof. intros Hl Hlast. unfold coalesce. rewrite foldr_app. by apply foldr_join_apart. Qed.

Lemma foldr_join_snoc m l a q tq rest :
  apart m (l ++ [a]) → block_end m a = q →
  foldr join_next ((q, tq) :: rest) (spans m (l ++ [a])) =
    spans m l ++ (a, span m a + tq) :: rest.
Proof.
  intros Hap Hend. apply apart_app in Hap as (Hl & _ & Hla).
  rewrite spans_app, foldr_app. cbn [spans fmap list_fmap foldr join_next fst snd].
  rewrite decide_True by done.
  apply foldr_join_apart; [done|].
  intros x b Hx Hb. injection Hb as <-. cbn. by apply Hla.
Qed.

Lemma join_next_apart m p tp l :
  (∀ r, head l = Some r → p + tp ≠ r) →
  join_next (p, tp) (spans m l) = (p, tp) :: spans m l.
Proof.
  intros Hr. destruct l as [|r t]; [done|]. cbn. rewrite decide_False; [done|]. by apply Hr.
Qed.

Lemma join_next_adjacent m p tp r t :
  p + tp = r →
  join_next (p, tp) (spans m (r :: t)) = (p, tp + span m r) :: spans m t.
Proof. intros Hr. cbn. by rewrite decide_True. Qed.

End Coalesce.
(** ** The free list after a release *)

Section FreeInvariants.
Context `{Platform}.
Implicit Types (m : heap) (l : list Z).

Lemma block_ok_sizes m m' a : sizes m' a = sizes m a → block_ok m a → block_ok m' a.
Proof.
  unfold sizes, block_ok. intros Hs (b & Hb & Hrest). rewrite Hb in Hs.
  destruct (m' !! a) as [b'|]; [|done]. cbn in Hs. injection Hs as Hs Ht.
  exists b'. by rewrite Hs, Ht.
Qed.

Lemma block_ok_span m a :
  0 ≤ BSENDDATA_HEADER_TRUE_SIZE → block_ok m a →
  0 < a ∧ BSENDDATA_HEADER_TRUE_SIZE ≤ span m a ∧ a + span m a ≤ 2 ^ 64.
Proof.
  intros Hh (b & Hb & Ha & Hend & Hs & Hst). rewrite (span_lookup _ _ _ Hb). lia.
Qed.

Lemma block_ok_merged m a t :
  0 ≤ BSENDDATA_HEADER_TRUE_SIZE →
  sizes m a = Some (wrap (wrap t - BSENDDATA_HEADER_TRUE_SIZE), wrap t) →
  0 < a → BSENDDATA_HEADER_TRUE_SIZE ≤ t → a + t ≤ 2 ^ 64 →
  block_ok m a ∧ span m a = t.
Proof.
  unfold sizes, block_ok, span. intros Hh Hs Ha Ht Hend.
  destruct (m !! a) as [b|]; [|done]. cbn in *. injection Hs as Hs Hts.
  rewrite (wrap_small t) in Hs, Hts by lia.
  rewrite (wrap_small (t - _)) in Hs by lia.
  split; [|done]. exists b. split; [done|]. lia.
Qed.

Lemma ascending_build l1 mid l2 :
  ascending l1 → ascending mid → ascending l2 →
  (∀ x y, x ∈ l1 → y ∈ mid ++ l2 → x < y) →
  (∀ x y, x ∈ mid → y ∈ l2 → x < y) →
  ascending (l1 ++ mid ++ l2).
Proof.
  intros H1 Hm H2 H1r Hmr. unfold ascending in *.
  apply StronglySorted_app_2; [done|done|].
  by apply StronglySorted_app_2.
Qed.

Lemma free_segment_invariants (fuel : nat) bb m p fl al :
  0 ≤ BSENDDATA_HEADER_TRUE_SIZE →
  dlist m (avail bb) fl → dlist m (active bb) al → p ∈ al → disj fl al →
  ascending fl → apart m fl →
  (∀ a, a ∈ p :: fl → block_ok m a) →
  (length fl ≤ fuel)%nat →
  ∃ bb' m' fl' a1 a2,
    MPIR_Bsend_free_segment fuel bb m p = Some (bb', m')
    ∧ dlist m' (avail bb') fl'
    ∧ ascending fl' ∧ apart m' fl'
    ∧ (∀ a, a ∈ fl' → block_ok m' a)
    ∧ spans m' fl' = coalesce (insert_block (p, span m p) (spans m fl))
    ∧ al = a1 ++ p :: a2 ∧ dlist m' (active bb') (a1 ++ a2)
    ∧ same_buffer bb bb'
    ∧ (∀ x, x ∉ fl ++ al → m' !! x = m !! x).
Proof.
  intros Hh Hfl Hal Hp Hdisj Hasc Hap Hok Hfuel.
  apply list_elem_of_split in Hp as (a1 & a2 & ->).
  destruct (free_segment_spec fuel bb m p fl a1 a2 Hfl Hal Hdisj Hfuel)
    as (bb' & m' & f1 & f2 & bp & Hrun & Hbp & -> & Hle & Hgt & Hal' & Hsb & Hfr & Hcase).
  assert (p ∉ f1 ++ f2) as Hpfl.
  { intros Hx. apply (Hdisj p Hx). apply elem_of_app. right. left. }
  apply not_elem_of_app in Hpfl as [Hpf1 Hpf2].
  apply StronglySorted_app in Hasc as (H12 & Hs1 & Hs2).
  assert (∀ x, x ∈ f1 → x < p) as Hlt1.
  { intros x Hx. rewrite Forall_forall in Hle. pose proof (Hle x Hx).
    assert (x ≠ p) by (intros ->; done). lia. }
  assert (∀ x, x ∈ f2 → p < x) as Hgt2.
  { intros x Hx. destruct f2 as [|r t]; [by apply elem_of_nil in Hx|].
    pose proof (Hgt r eq_refl) as Hr. apply elem_of_cons in Hx as [->|Hx]; [done|].
    apply StronglySorted_cons in Hs2 as [Hall _]. rewrite Forall_forall in Hall.
    pose proof (Hall x Hx). lia. }
  apply apart_app in Hap as (Hap1 & Hap2 & Hap12).
  pose proof (Hok p ltac:(left)) as Hokp.
  pose proof (block_ok_span m p Hh Hokp) as (Hp0 & Hpt & Hpe).
  pose proof (span_lookup _ _ _ Hbp) as Hsp.
  assert (∀ a, a ∈ f1 ++ f2 → block_ok m a) as Hokf.
  { intros a Ha. apply Hok. by right. }
  exists bb', m'. cbn zeta in Hcase. rewrite <- Hsp in Hcase.
  rewrite insert_block_spans by done.
  unfold coalesce. rewrite foldr_app. fold (coalesce ((p, span m p) :: spans m f2)).
  rewrite (coalesce_cons m p (span m p) f2 Hap2).
  destruct Hcase as [(Hnr & Hnl & Hfl' & Hsz)
                    |[(r & t & -> & Hadjr & Hnl & Hfl' & Hszp & Hsz)
                    |[(f1' & a & -> & Hadjl & Hnr & Hfl' & Hsza & Hsz)
                    |(f1' & a & r & t & -> & -> & Hadjl & Hadjr & Hfl' & Hsza & Hsz)]]].
  - (* no merge *)
    exists (f1 ++ p :: f2), a1, a2.
    split; [done|]. split; [done|].
    assert (apart m (f1 ++ p :: f2)) as Hapm.
    { apply apart_app. split; [done|]. split.
      - split; [|done]. intros b Hb. unfold block_end. by apply Hnr.
      - intros a b Ha Hb. injection Hb as <-. by apply Hnl. }
    split.
    { apply (ascending_build f1 [p] f2); try done.
      - repeat constructor.
      - intros x y Hx Hy. apply elem_of_cons in Hy as [->|Hy]; [by apply Hlt1|by apply H12].
      - intros x y Hx Hy. apply list_elem_of_singleton in Hx as ->. by apply Hgt2. }
    split.
    { apply (apart_ext m); [|done]. intros a _. apply sizes_span, Hsz. }
    split.
    { intros a Ha. apply (block_ok_sizes m); [apply Hsz|]. apply Hok.
      rewrite elem_of_app, elem_of_cons in Ha. rewrite elem_of_cons, elem_of_app. tauto. }
    split; [|done].
    rewrite (spans_ext m m') by (intros a _; apply sizes_span, Hsz).
    rewrite join_next_apart by done.
    rewrite (foldr_join_apart m f1); [by rewrite spans_app|done|].
    intros a b Ha Hb. injection Hb as <-. by apply Hnl.
  - (* merged with the next block *)
    assert (block_ok m r) as Hokr by (apply Hokf, elem_of_app; right; left).
    pose proof (block_ok_span m r Hh Hokr) as (Hr0 & Hrt & Hre).
    destruct (block_ok_merged m' p (span m p + span m r) Hh Hszp) as [Hokp' Hsp']; [lia..|].
    exists (f1 ++ p :: t), a1, a2.
    split; [done|]. split; [done|].
    split.
    { apply StronglySorted_cons in Hs2 as [_ Hst].
      apply (ascending_build f1 [p] t); try done.
      - repeat constructor.
      - intros x y Hx Hy. apply elem_of_cons in Hy as [->|Hy]; [by apply Hlt1|].
        apply H12; [done|by right].
      - intros x y Hx Hy. apply list_elem_of_singleton in Hx as ->. apply Hgt2. by right. }
    assert (∀ x, x ∈ f1 ++ t → span m' x = span m x) as Hspx.
    { intros x Hx. apply sizes_span, Hsz. intros ->.
      apply elem_of_app in Hx as [?|?]; [done|]. apply Hpf2. by right. }
    destruct Hap2 as [Hrn Hapt].
    split.
    { apply apart_app. split; [|split].
      - apply (apart_ext m); [|done]. intros x Hx. apply Hspx, elem_of_app. by left.
      - split.
        + intros b Hb. unfold block_end. rewrite Hsp'.
          replace (p + (span m p + span m r)) with (block_end m r) by (unfold block_end; lia).
          by apply Hrn.
        + apply (apart_ext m); [|done]. intros x Hx. apply Hspx, elem_of_app. by right.
      - intros a b Ha Hb. injection Hb as <-. unfold block_end. rewrite Hspx.
        + by apply Hnl.
        + apply elem_of_app. left. apply last_Some in Ha as [l' ->].
          apply elem_of_app. right. left. }
    split.
    { intros a Ha. rewrite elem_of_app, elem_of_cons in Ha.
      destruct (decide (a = p)) as [->|Hne]; [done|].
      apply (block_ok_sizes m); [by apply Hsz|]. apply Hokf.
      rewrite elem_of_app, elem_of_cons. tauto. }
    split; [|done].
    rewrite join_next_adjacent by done.
    rewrite (foldr_join_apart m f1); [|done|].
    + rewrite spans_app. cbn. rewrite Hsp'. f_equal; [|f_equal].
      * apply spans_ext. intros x Hx. apply Hspx, elem_of_app. by left.
      * apply spans_ext. intros x Hx. apply Hspx, elem_of_app. by right.
    + intros a b Ha Hb. injection Hb as <-. by apply Hnl.
  - (* merged with the previous block *)
    assert (a ∈ f1' ++ [a]) as Hain by (apply elem_of_app; right; left).
    assert (block_ok m a) as Hoka by (apply Hokf, elem_of_app; by left).
    pose proof (block_ok_span m a Hh Hoka) as (Ha0 & Hat & Hae).
    unfold block_end in Hadjl.
    destruct (block_ok_merged m' a (span m a + span m p) Hh Hsza) as [Hoka' Hsa']; [lia..|].
    exists ((f1' ++ [a]) ++ f2), a1, a2.
    split; [done|]. split; [done|].
    split; [by apply StronglySorted_app_2|].
    assert (∀ x, x ∈ f1' ++ f2 → span m' x = span m x) as Hspx.
    { intros x Hx. apply sizes_span, Hsz. intros ->.
      apply elem_of_app in Hx as [Hx|Hx].
      - apply StronglySorted_app in Hs1 as (Hlt & _ & _).
        pose proof (Hlt a a Hx ltac:(left)). lia.
      - pose proof (H12 a a Hain Hx). lia. }
    pose proof Hap1 as Hap1'. apply apart_app in Hap1' as (Hapf & _ & Hapfa).
    split.
    { rewrite <- app_assoc. apply apart_app. split; [|split].
      - apply (apart_ext m); [|done]. intros x Hx. apply Hspx, elem_of_app. by left.
      - split.
        + intros b Hb. unfold block_end. rewrite Hsa'.
          replace (a + (span m a + span m p)) with (p + span m p) by lia. by apply Hnr.
        + apply (apart_ext m); [|done]. intros x Hx. apply Hspx, elem_of_app. by right.
      - intros x b Hx Hb. injection Hb as <-. unfold block_end. rewrite Hspx.
        + by apply Hapfa.
        + apply elem_of_app. left. apply last_Some in Hx as [l' ->].
          apply elem_of_app. right. left. }
    split.
    { intros x Hx. destruct (decide (x = a)) as [->|Hne]; [done|].
      apply (block_ok_sizes m); [by apply Hsz|]. by apply Hokf. }
    split; [|done].
    rewrite join_next_apart by done.
    rewrite (foldr_join_snoc m f1' a p) by done.
    rewrite <- app_assoc, spans_app. cbn. rewrite Hsa'. f_equal; [|f_equal].
    + apply spans_ext. intros x Hx. apply Hspx, elem_of_app. by left.
    + apply spans_ext. intros x Hx. apply Hspx, elem_of_app. by right.
  - (* merged with both *)
    assert (a ∈ f1' ++ [a]) as Hain by (apply elem_of_app; right; left).
    assert (block_ok m a) as Hoka by (apply Hokf, elem_of_app; by left).
    pose proof (block_ok_span m a Hh Hoka) as (Ha0 & Hat & Hae).
    assert (block_ok m r) as Hokr by (apply Hokf, elem_of_app; right; left).
    pose proof (block_ok_span m r Hh Hokr) as (Hr0 & Hrt & Hre).
    unfold block_end in Hadjl.
    rewrite (wrap_small (span m p + span m r)) in Hsza by lia.
    destruct (block_ok_merged m' a (span m a + (span m p + span m r)) Hh Hsza)
      as [Hoka' Hsa']; [lia..|].
    exists ((f1' ++ [a]) ++ t), a1, a2.
    split; [done|]. split; [done|].
    apply StronglySorted_cons in Hs2 as [Hrall Hst].
    split.
    { apply StronglySorted_app_2; [|done|done]. intros x y Hx Hy. apply H12; [done|by right]. }
    assert (∀ x, x ∈ f1' ++ t → span m' x = span m x) as Hspx.
    { intros x Hx. apply sizes_span, Hsz.
      - intros ->. apply elem_of_app in Hx as [Hx|Hx].
        + apply StronglySorted_app in Hs1 as (Hlt & _ & _).
          pose proof (Hlt a a Hx ltac:(left)). lia.
        + pose proof (H12 a a Hain ltac:(by right)). lia.
      - intros ->. apply elem_of_app in Hx as [Hx|Hx].
        + apply Hpf1, elem_of_app. by left.
        + apply Hpf2. by right. }
    pose proof Hap1 as Hap1'. apply apart_app in Hap1' as (Hapf & _ & Hapfa).
    destruct Hap2 as [Hrn Hapt].
    split.
    { rewrite <- app_assoc. apply apart_app. split; [|split].
      - apply (apart_ext m); [|done]. intros x Hx. apply Hspx, elem_of_app. by left.
      - split.
        + intros b Hb. unfold block_end. rewrite Hsa'.
          replace (a + (span m a + (span m p + span m r))) with (block_end m r)
            by (unfold block_end; lia).
          by apply Hrn.
        + apply (apart_ext m); [|done]. intros x Hx. apply Hspx, elem_of_app. by right.
      - intros x b Hx Hb. injection Hb as <-. unfold block_end. rewrite Hspx.
        + by apply Hapfa.
        + apply elem_of_app. left. apply last_Some in Hx as [l' ->].
          apply elem_of_app. right. left. }
    split.
    { intros x Hx. destruct (decide (x = a)) as [->|Hne]; [done|].
      apply (block_ok_sizes m).
      - apply Hsz; [done|]. intros ->. apply elem_of_app in Hx as [Hx|Hx]; [done|].
        apply Hpf2. by right.
      - apply Hokf. rewrite elem_of_app, elem_of_cons. apply elem_of_app in Hx. tauto. }
    split; [|done].
    rewrite join_next_adjacent by done.
    rewrite (foldr_join_snoc m f1' a p) by done.
    rewrite <- app_assoc, spans_app. cbn. rewrite Hsa'. f_equal; [|f_equal].
    + apply spans_ext. intros x Hx. apply Hspx, elem_of_app. by left.
    + apply spans_ext. intros x Hx. apply Hspx, elem_of_app. by right.
Qed.

End FreeInvariants.
(** ** The send driver *)

Section DriverFacts.
Context `{Platform} `{Collaborators}.
Implicit Types (m : heap) (l : list Z) (w : world) (bb : BsendBuffer).


Lemma same_lists_trans bb1 m1 bb2 m2 bb3 m3 :
  same_lists bb1 m1 bb2 m2 → same_lists bb2 m2 bb3 m3 → same_lists bb1 m1 bb3 m3.
Proof.
  intros (Ha & Hb & Hc) (Ha' & Hb' & Hc'). split; [congruence|]. split; [congruence|].
  intros a. destruct (Hc a), (Hc' a). split; congruence.
Qed.

(** A write that leaves the sizes and the links of the header alone. *)
Lemma same_lists_wr bb m m' p f :
  wr m p f = Some m' →
  (∀ b, size (f b) = size b ∧ total_size (f b) = total_size b
        ∧ next (f b) = next b ∧ prev (f b) = prev b) →
  same_lists bb m bb m'.
Proof.
  unfold wr. intros Hwr Hf. destruct (m !! p) as [b|] eqn:Hb; [|done].
  cbn in Hwr. injection Hwr as <-. split; [done|]. split; [done|].
  intros a. unfold sizes, links. destruct (decide (p = a)) as [->|Hne].
  - rewrite lookup_insert_eq, Hb. cbn. destruct (Hf b) as (-> & -> & -> & ->). done.
  - by rewrite lookup_insert_ne.
Qed.



(** *** The trace of a reclaim step *)

Lemma find_buffer_none (fuel : nat) m prv hd l sz :
  dseg m prv hd l NULL → (length l ≤ fuel)%nat →
  Forall (λ x, ∀ b, m !! x = Some b → size b < sz) l →
  find_buffer_from fuel m hd sz = Some NULL.
Proof.
  revert fuel prv hd. induction l as [|a l IH]; intros fuel prv hd Hl Hfuel Hsmall.
  - apply dseg_nil in Hl as ->. by destruct fuel.
  - apply dseg_cons in Hl as (-> & Ha & b & Hb & _ & Hl).
    destruct fuel as [|fuel]; [cbn in Hfuel; lia|]. cbn [find_buffer_from].
    rewrite decide_False by done. rewrite (rd_Some m a b size Hb). cbn [mbind option_bind].
    apply Forall_cons in Hsmall as [Hsa Hsmall]. pose proof (Hsa b Hb).
    rewrite decide_False by lia. rewrite (rd_Some m a b next Hb). cbn [mbind option_bind].
    apply (IH fuel a (next b)); [done|cbn in Hfuel; lia|done].
Qed.

Lemma progress_from_trace (n fuel : nat) bb w act bb' w' :
  progress_from n fuel bb w act = Some (bb', w') →
  ∃ evs, trace w' = trace w ++ evs ∧ Forall (λ ev, is_reclaim ev = true) evs.
Proof.
  revert bb w act. induction fuel as [|fuel IH]; intros bb w act; cbn [progress_from].
  - case_decide; [|done]. intros [= <- <-]. exists []. by rewrite app_nil_r.
  - case_decide.
    { intros [= <- <-]. exists []. by rewrite app_nil_r. }
    destruct (rd (mem w) act next) as [na|]; [|done]. cbn [mbind option_bind].
    destruct (rd (mem w) act request) as [req|]; [|done]. cbn [mbind option_bind].
    destruct (MPIR_Request_is_complete (eng w) req).
    + destruct (MPIR_Bsend_free_segment n bb (mem w) act) as [[bb1 m1]|]; [|done].
      cbn [mbind option_bind]. cbn [eng log set_mem].
      destruct (MPIR_Request_is_persistent (eng w) req); cbn [mbind option_bind].
      * intros Hrun. apply IH in Hrun as (evs & Htr & Hall). cbn in Htr.
        exists (EvFreeSegment act :: evs). rewrite Htr, <- app_assoc. split; [done|].
        by constructor.
      * intros Hrun. apply IH in Hrun as (evs & Htr & Hall). cbn in Htr.
        exists (EvFreeSegment act :: EvRequestFree req :: evs).
        rewrite Htr, <- !app_assoc. split; [done|]. by repeat constructor.
    + cbn [mbind option_bind]. apply IH.
Qed.

Lemma check_active_trace (n : nat) bb w e bb' w' :
  MPIR_Bsend_check_active n bb w = Some (e, bb', w') →
  ∃ evs, trace w' = trace w ++ EvCheckActive :: evs
         ∧ Forall (λ ev, is_reclaim ev = true) evs.
Proof.
  unfold MPIR_Bsend_check_active. case_decide.
  - destruct (MPID_Progress_test (eng (log EvCheckActive w))) as [e1 en] eqn:Hpt.
    case_decide.
    + intros [= <- <- <-]. exists [EvProgressTest]. cbn. rewrite <- app_assoc.
      split; [done|]. by repeat constructor.
    + unfold MPIR_Bsend_progress.
      destruct (progress_from _ _ _ _ _) as [[bb1 w1]|] eqn:Hpr; [|done].
      cbn [mbind option_bind]. intros [= <- <- <-].
      apply progress_from_trace in Hpr as (evs & Htr & Hall). cbn in Htr.
      exists (EvProgressTest :: evs). rewrite Htr, <- !app_assoc. split; [done|].
      by constructor.
  - intros [= <- <- <-]. exists []. done.
Qed.

(** With nothing on the active list the step only leaves its mark in the
    trace. *)
Lemma check_active_idle (n : nat) bb w :
  active bb = NULL →
  MPIR_Bsend_check_active n bb w = Some (0, bb, log EvCheckActive w).
Proof. intros Hact. unfold MPIR_Bsend_check_active. by rewrite decide_False by (by intros []). Qed.

(** *** The pack-and-send step *)

Lemma same_lists_count bb m m' p v :
  wr m p (set_count v) = Some m' → same_lists bb m bb m'.
Proof. intros Hwr. eapply same_lists_wr; [done|]. by intros []. Qed.

Lemma same_lists_count_add bb m m' p v :
  wr m p (λ b, set_count (count b + v) b) = Some m' → same_lists bb m bb m'.
Proof. intros Hwr. eapply same_lists_wr; [done|]. by intros []. Qed.

Lemma same_lists_request bb m m' p v :
  wr m p (set_request v) = Some m' → same_lists bb m bb m'.
Proof. intros Hwr. eapply same_lists_wr; [done|]. by intros []. Qed.

(** The ways out of the send: the send engine refused, the engine stored no
    request, or the block was taken. *)
Lemma isend_send_cases a bb w p e out bb' w' :
  isend_send a bb w p = Some (e, out, bb', w') →
  (∃ x r, e = Err_internal x ∧ out = None ∧ bb' = bb
        ∧ same_lists bb (mem w) bb (mem w')
        ∧ trace w' = trace w ++ [EvIsend r])
  ∨ (e = MPI_SUCCESS ∧ out = None ∧ bb' = bb ∧ same_lists bb (mem w) bb (mem w')
        ∧ trace w' = trace w ++ [EvIsend NULL])
  ∨ (∃ r c m2 tl, e = MPI_SUCCESS ∧ r ≠ NULL
        ∧ same_lists bb (mem w) bb m2
        ∧ MPIR_Bsend_take_buffer bb m2 p c = Some (bb', mem w')
        ∧ trace w' = trace w ++ [EvIsend r; EvTake p c] ++ tl
        ∧ ((a_want_request a = true ∧ ∃ r', out = Some r' ∧ tl = [EvAddRef r'])
           ∨ (a_want_request a = false ∧ out = None ∧ tl = []))).
Proof.
  unfold isend_send. destruct w as [m1 en0 tr0]. cbn [mem set_mem eng].
  destruct (rd m1 p msgbuf) as [mb|]; [|done]. cbn [mbind option_bind].
  destruct (rd m1 p count) as [ct|]; [|done]. cbn [mbind option_bind].
  destruct (MPID_Isend _ _ _ _ _) as [[e2 r] en].
  destruct (wr m1 p (set_request r)) as [m2|] eqn:Hw2; [|done]. cbn [mbind option_bind].
  pose proof (same_lists_request bb _ _ _ _ Hw2) as Hs2.
  cbn [mem set_mem set_eng log eng trace].
  case_decide.
  { intros [= <- <- <- <-]. left. exists e2, r. cbn. by split_and!. }
  assert (rd m2 p request = Some r) as ->.
  { unfold wr in Hw2. destruct (m1 !! p) as [b|]; [|done]. cbn in Hw2. injection Hw2 as <-.
    unfold rd. by rewrite lookup_insert_eq. }
  cbn [mbind option_bind]. case_decide as Hr.
  - destruct (rd m2 p count) as [c|]; [|done]. cbn [mbind option_bind].
    destruct (MPIR_Bsend_take_buffer bb m2 p (wrap c)) as [[bb2 m3]|] eqn:Htake; [|done].
    cbn [mbind option_bind mem set_mem set_eng log eng trace].
    destruct (a_want_request a) eqn:Hwant.
    + destruct (rd m3 p request) as [r'|]; [|done]. cbn [mbind option_bind].
      intros [= <- <- <- <-]. right. right. exists r, (wrap c), m2, [EvAddRef r'].
      cbn. rewrite <- !app_assoc. split_and!; try done. left. eauto.
    + intros [= <- <- <- <-]. right. right. exists r, (wrap c), m2, [].
      cbn. rewrite <- !app_assoc. split_and!; try done. by right.
  - intros [= <- <- <- <-]. right. left.
    assert (r = NULL) as -> by (by destruct (decide (r = NULL))).
    by split_and!.
Qed.

Lemma isend_pack_lists a packsize bb w p m1 :
  isend_pack a packsize w p = Some (inr m1) → same_lists bb (mem w) bb m1.
Proof.
  unfold isend_pack. case_decide.
  - destruct (rd (mem w) p msgbuf); [|done]. cbn [mbind option_bind].
    destruct (rd (mem w) p count); [|done]. cbn [mbind option_bind].
    destruct (MPIR_Typerep_pack _ _ _ _ _ _) as [e1 act]. case_decide; [done|].
    destruct (wr (mem w) p _) as [m2|] eqn:Hw1; [|done]. cbn [mbind option_bind].
    intros [= <-]. by apply (same_lists_count_add bb _ _ _ _ Hw1).
  - destruct (wr (mem w) p _) as [m2|] eqn:Hw1; [|done]. cbn [mbind option_bind].
    intros [= <-]. by apply (same_lists_count bb _ _ _ _ Hw1).
Qed.

(** The four ways out of [isend_found]: packing failed, the send engine
    refused, the engine stored no request, or the block was taken. *)
Lemma isend_found_cases a packsize bb w p e out bb' w' :
  isend_found a packsize bb w p = Some (e, out, bb', w') →
  (∃ x, e = Err_other x ∧ out = None ∧ bb' = bb ∧ same_lists bb (mem w) bb (mem w')
        ∧ trace w' = trace w ++ [EvPack])
  ∨ (∃ x r, e = Err_internal x ∧ out = None ∧ bb' = bb
        ∧ same_lists bb (mem w) bb (mem w')
        ∧ trace w' = trace w ++ [EvPack; EvIsend r])
  ∨ (e = MPI_SUCCESS ∧ out = None ∧ bb' = bb ∧ same_lists bb (mem w) bb (mem w')
        ∧ trace w' = trace w ++ [EvPack; EvIsend NULL])
  ∨ (∃ r c m2 tl, e = MPI_SUCCESS ∧ r ≠ NULL
        ∧ same_lists bb (mem w) bb m2
        ∧ MPIR_Bsend_take_buffer bb m2 p c = Some (bb', mem w')
        ∧ trace w' = trace w ++ [EvPack; EvIsend r; EvTake p c] ++ tl
        ∧ ((a_want_request a = true ∧ ∃ r', out = Some r' ∧ tl = [EvAddRef r'])
           ∨ (a_want_request a = false ∧ out = None ∧ tl = []))).
Proof.
  unfold isend_found.
  destruct (wr (mem w) p (set_count 0)) as [m0|] eqn:Hw0; [|done]. cbn [mbind option_bind].
  pose proof (same_lists_count bb _ _ _ _ Hw0) as Hs0.
  destruct (isend_pack _ _ _ _) as [[e1|m1]|] eqn:Hpack; cbn [mbind option_bind]; [| |done].
  { intros [= <- <- <- <-]. left. exists e1. by split_and!. }
  pose proof (isend_pack_lists _ _ bb _ _ _ Hpack) as Hs1. cbn [mem log set_mem] in Hs1.
  pose proof (same_lists_trans _ _ _ _ _ _ Hs0 Hs1) as Hs01.
  intros Hsend. apply isend_send_cases in Hsend. cbn [mem log set_mem trace] in Hsend.
  destruct Hsend as [(x & r & -> & -> & -> & Hs & Htr)
                    |[(-> & -> & -> & Hs & Htr)
                    |(r & c & m2 & tl & -> & Hr & Hs & Htake & Htr & Hout)]].
  - right. left. exists x, r. rewrite Htr, <- app_assoc. split_and!; try done.
    by eapply same_lists_trans.
  - right. right. left. rewrite Htr, <- app_assoc. split_and!; try done.
    by eapply same_lists_trans.
  - right. right. right. exists r, c, m2, tl. rewrite Htr, <- app_assoc. split_and!; try done.
    by eapply same_lists_trans.
Qed.

(** *** The two passes *)

Lemma isend_with_unfold (n : nat) a packsize bb w :
  (2 ≤ n)%nat →
  isend_with n a packsize bb w =
    '(e0, bb1, w1) ← MPIR_Bsend_check_active n bb w;
    if decide (e0 ≠ 0) then Some (Err_other e0, None, bb1, w1)
    else
      p ← MPIR_Bsend_find_buffer n bb1 (mem w1) (wrap packsize);
      let w1 := log (EvFind (wrap packsize) p) w1 in
      if decide (p ≠ NULL) then isend_found a packsize bb1 w1 p
      else
        '(_, bb2, w2) ← MPIR_Bsend_check_active n bb1 w1;
        p ← MPIR_Bsend_find_buffer n bb2 (mem w2) (wrap packsize);
        let w2 := log (EvFind (wrap packsize) p) w2 in
        if decide (p ≠ NULL) then isend_found a packsize bb2 w2 p
        else Some (Err_no_buffer_space packsize (buffer_size bb2), None, bb2, w2).
Proof.
  intros Hn. destruct n as [|[|n]]; [lia|lia|]. unfold isend_with.
  destruct (MPIR_Bsend_check_active _ bb w) as [[[e0 bb1] w1]|]; [|done].
  cbn [mbind option_bind]. case_decide; [done|].
  cbn [isend_passes]. rewrite decide_True by lia.
  destruct (MPIR_Bsend_find_buffer _ bb1 _ _) as [p|]; [|done]. cbn [mbind option_bind].
  case_decide as Hp.
  { destruct (isend_found _ _ _ _ _) as [[[[e out] bb2] w2]|]; [|done].
    cbn [mbind option_bind]. by rewrite decide_False. }
  rewrite decide_False by (intros [?|?]; [done|lia]).
  destruct (MPIR_Bsend_check_active _ bb1 _) as [[[e1 bb2] w2]|]; [|done].
  cbn [mbind option_bind]. rewrite decide_True by lia.
  destruct (MPIR_Bsend_find_buffer _ bb2 _ _) as [p2|]; [|done]. cbn [mbind option_bind].
  case_decide as Hp2.
  { destruct (isend_found _ _ _ _ _) as [[[[e out] bb3] w3]|]; [|done].
    cbn [mbind option_bind]. by rewrite decide_False. }
  rewrite decide_True by (by right). cbn [mbind option_bind].
  rewrite decide_True; [done|]. by destruct (decide (p2 = NULL)).
Qed.

(** *** The drain of detach *)


(** *** The whole routine, for the buffer it chose *)

Lemma isend_chosen (n : nat) a comm process w s bb :
  isend_bsendbuffer comm process = Some (s, bb) →
  MPIR_Bsend_isend n a comm process w =
    match isend_with n a (isend_packsize a) bb w with
    | Some (e, out, bb', w') =>
        Some (e, out, (isend_slots s bb' comm process).1,
              (isend_slots s bb' comm process).2, w')
    | None => None
    end.
Proof.
  intros Hsel. unfold MPIR_Bsend_isend. rewrite Hsel.
  destruct (isend_with _ _ _ _ _) as [[[[e out] bb'] w']|]; [|done].
  cbn [mbind option_bind]. by destruct (isend_slots s bb' comm process).
Qed.

Lemma is_reclaim_not_isend evs r :
  Forall (λ ev, is_reclaim ev = true) evs → EvIsend r ∉ evs.
Proof. intros Hall Hin. rewrite Forall_forall in Hall. by apply Hall in Hin. Qed.

Lemma is_reclaim_not_take evs :
  Forall (λ ev, is_reclaim ev = true) evs → Forall (λ ev, is_take ev = false) evs.
Proof. intros Hall. eapply Forall_impl; [exact Hall|]. by intros []. Qed.

(** The ways through [isend_with]: the first reclaim step fails; a block is
    found in the first pass; or the second pass runs, and finds a block or
    gives up. *)
Lemma isend_with_cases (n : nat) a packsize bb w e out bb' w' :
  (2 ≤ n)%nat →
  isend_with n a packsize bb w = Some (e, out, bb', w') →
  let sz := wrap packsize in
  ∃ e1 bb1 w1 evs1,
    MPIR_Bsend_check_active n bb w = Some (e1, bb1, w1)
    ∧ trace w1 = trace w ++ EvCheckActive :: evs1
    ∧ Forall (λ ev, is_reclaim ev = true) evs1
    ∧ ((e1 ≠ 0 ∧ e = Err_other e1 ∧ out = None ∧ bb' = bb1 ∧ w' = w1)
       ∨ (e1 = 0 ∧ ∃ p, p ≠ NULL
            ∧ MPIR_Bsend_find_buffer n bb1 (mem w1) sz = Some p
            ∧ isend_found a packsize bb1 (log (EvFind sz p) w1) p = Some (e, out, bb', w'))
       ∨ (e1 = 0 ∧ MPIR_Bsend_find_buffer n bb1 (mem w1) sz = Some NULL
            ∧ ∃ e2 bb2 w2 evs2,
                MPIR_Bsend_check_active n bb1 (log (EvFind sz NULL) w1) = Some (e2, bb2, w2)
                ∧ trace w2 = trace w1 ++ EvFind sz NULL :: EvCheckActive :: evs2
                ∧ Forall (λ ev, is_reclaim ev = true) evs2
                ∧ ((∃ p, p ≠ NULL
                      ∧ MPIR_Bsend_find_buffer n bb2 (mem w2) sz = Some p
                      ∧ isend_found a packsize bb2 (log (EvFind sz p) w2) p
                        = Some (e, out, bb', w'))
                   ∨ (MPIR_Bsend_find_buffer n bb2 (mem w2) sz = Some NULL
                      ∧ e = Err_no_buffer_space packsize (buffer_size bb2)
                      ∧ out = None ∧ bb' = bb2 ∧ w' = log (EvFind sz NULL) w2)))).
Proof.
  intros Hn. rewrite isend_with_unfold by done. intros Hrun sz. fold sz in Hrun.
  destruct (MPIR_Bsend_check_active n bb w) as [[[e1 bb1] w1]|] eqn:Hca; [|done].
  cbn [mbind option_bind] in Hrun.
  destruct (check_active_trace _ _ _ _ _ _ Hca) as (evs1 & Htr1 & Hall1).
  exists e1, bb1, w1, evs1. split; [done|]. split; [done|]. split; [done|].
  case_decide as He1.
  { injection Hrun as <- <- <- <-. left. done. }
  assert (e1 = 0) as -> by (by destruct (decide (e1 = 0))).
  destruct (MPIR_Bsend_find_buffer n bb1 (mem w1) sz) as [p|] eqn:Hf1; [|done].
  cbn [mbind option_bind] in Hrun. case_decide as Hp.
  { right. left. split; [done|]. exists p. done. }
  assert (p = NULL) as -> by (by destruct (decide (p = NULL))).
  right. right. split; [done|]. split; [done|].
  destruct (MPIR_Bsend_check_active n bb1 _) as [[[e2 bb2] w2]|] eqn:Hca2; [|done].
  cbn [mbind option_bind] in Hrun.
  destruct (check_active_trace _ _ _ _ _ _ Hca2) as (evs2 & Htr2 & Hall2).
  cbn [trace log] in Htr2. rewrite <- app_assoc in Htr2.
  exists e2, bb2, w2, evs2. split; [done|]. split; [done|]. split; [done|].
  destruct (MPIR_Bsend_find_buffer n bb2 (mem w2) sz) as [p2|] eqn:Hf2; [|done].
  cbn [mbind option_bind] in Hrun. case_decide as Hp2.
  { left. exists p2. done. }
  assert (p2 = NULL) as -> by (by destruct (decide (p2 = NULL))).
  injection Hrun as <- <- <- <-. right. done.
Qed.

End DriverFacts.

(** ** A send keeps to the region of its buffer *)

Ltac head_of t :=
  lazymatch t with
  | mbind _ ?e => head_of e
  | _ => constr:(t)
  end.

(** One step of a run [H : ... = Some _] in the option monad. *)
Ltac exec1 H :=
  lazymatch type of H with
  | ?t = Some _ =>
      let e := head_of t in
      lazymatch e with
      | rd ?m ?p ?f =>
          let E := fresh "Hrd" in let b := fresh "b" in let Hb := fresh "Hb" in
          destruct e eqn:E; [|cbn [mbind option_bind] in H; discriminate H];
          cbn [mbind option_bind] in H;
          apply rd_inv in E as (b & Hb & ->)
      | wr ?m ?p ?f =>
          let E := fresh "Hwr" in let m' := fresh "m" in
          destruct e as [m'|] eqn:E; [|cbn [mbind option_bind] in H; discriminate H];
          cbn [mbind option_bind] in H
      | (if decide ?P then _ else _) =>
          destruct (decide P); cbn [mbind option_bind] in H
      | Some _ => progress cbn [mbind option_bind] in H
      end
  end.
Ltac exec H := repeat exec1 H.

Section Region.
Context `{Platform}.
Variables lo hi d : Z.
Hypothesis Hlo : 0 < lo.
Hypothesis Hhi : hi ≤ 2 ^ 64.
Hypothesis Hh : 0 ≤ BSENDDATA_HEADER_TRUE_SIZE.
Hypothesis Hdh : (d | BSENDDATA_HEADER_TRUE_SIZE).
Hypothesis Hda : (d | MAX_ALIGNMENT).

Lemma ptr_in_inside a : ptr_in lo hi a → a ≠ NULL → inside lo hi a.
Proof. by intros [?|?]. Qed.

Lemma inside_ptr_in a : inside lo hi a → ptr_in lo hi a.
Proof. by right. Qed.

Lemma inside_not_null a : inside lo hi a → a ≠ NULL.
Proof. unfold inside, NULL. lia. Qed.

Lemma kept_refl m : headers_ok lo hi d m → kept lo hi d m m.
Proof. by split. Qed.

Lemma kept_trans m0 m1 m2 : kept lo hi d m0 m1 → kept lo hi d m1 m2 → kept lo hi d m0 m2.
Proof.
  intros [_ H01] [H2 H12]. split; [done|]. intros x Hx. by rewrite H12, H01.
Qed.

Lemma kept_ok m0 m a b :
  kept lo hi d m0 m → inside lo hi a → m !! a = Some b → header_ok lo hi d a b.
Proof. intros [Hok _]. apply Hok. Qed.

Lemma kept_insert m0 m x v :
  kept lo hi d m0 m → inside lo hi x → header_ok lo hi d x v → kept lo hi d m0 (<[x := v]> m).
Proof.
  intros [Hok Hout] Hx Hv. split.
  - intros a b Ha. destruct (decide (x = a)) as [->|Hne].
    + rewrite lookup_insert_eq. by intros [= <-].
    + rewrite lookup_insert_ne by done. by apply Hok.
  - intros a Ha. rewrite lookup_insert_ne; [by apply Hout|]. by intros ->.
Qed.

Lemma kept_wr m0 m x f m' :
  kept lo hi d m0 m → wr m x f = Some m' → inside lo hi x →
  (∀ b, m !! x = Some b → header_ok lo hi d x b → header_ok lo hi d x (f b)) →
  kept lo hi d m0 m'.
Proof.
  intros Hk Hwr Hx Hf. apply wr_inv in Hwr as (b & Hb & ->).
  apply kept_insert; [done..|]. apply Hf; [done|]. by eapply kept_ok.
Qed.

Lemma kept_wr2 m0 m x f g m1 m2 :
  kept lo hi d m0 m → wr m x f = Some m1 → wr m1 x g = Some m2 → inside lo hi x →
  (∀ b, m !! x = Some b → header_ok lo hi d x b → header_ok lo hi d x (g (f b))) →
  kept lo hi d m0 m2.
Proof.
  intros Hk Hwr1 Hwr2 Hx Hf. apply wr_inv in Hwr1 as (b & Hb & ->).
  apply wr_inv in Hwr2 as (b1 & Hb1 & ->). rewrite lookup_insert_eq in Hb1.
  injection Hb1 as <-. rewrite insert_insert_eq.
  apply kept_insert; [done..|]. apply Hf; [done|]. by eapply kept_ok.
Qed.

Lemma header_ok_next a b v :
  ptr_in lo hi v → header_ok lo hi d a b → header_ok lo hi d a (set_next v b).
Proof. intros Hv (?&?&?&?&?&?). by split_and!. Qed.

Lemma header_ok_prev a b v :
  ptr_in lo hi v → header_ok lo hi d a b → header_ok lo hi d a (set_prev v b).
Proof. intros Hv (?&?&?&?&?&?). by split_and!. Qed.

Lemma header_ok_request a b v : header_ok lo hi d a b → header_ok lo hi d a (set_request v b).
Proof. intros (?&?&?&?&?&?). by split_and!. Qed.

Lemma header_ok_count a b v : header_ok lo hi d a b → header_ok lo hi d a (set_count v b).
Proof. intros (?&?&?&?&?&?). by split_and!. Qed.

Lemma header_ok_msgbuf a b v : header_ok lo hi d a b → header_ok lo hi d a (set_msgbuf v b).
Proof. intros (?&?&?&?&?&?). by split_and!. Qed.

(** Giving the block at [a] the span [t]: [total_size] first, then [size]
    from it. *)
Lemma header_ok_resize a b t :
  inside lo hi a → a + t ≤ hi → BSENDDATA_HEADER_TRUE_SIZE ≤ t → (d | t) →
  ptr_in lo hi (next b) → ptr_in lo hi (prev b) →
  let b1 := set_total_size (wrap t) b in
  header_ok lo hi d a (set_size (wrap (total_size b1 - BSENDDATA_HEADER_TRUE_SIZE)) b1).
Proof.
  intros Ha Ht Hht Hdt Hn Hp b1. unfold inside in Ha.
  assert (wrap t = t) as Ht' by (apply wrap_small; lia).
  unfold header_ok, b1. cbn. rewrite Ht'. split_and!; try done.
  apply wrap_small. lia.
Qed.

(** Tactics for runs: the headers of what was read, the pointers stored in
    them, and the memory after each write. *)
Ltac okall :=
  repeat match goal with
  | Hk : kept _ _ _ _ ?m, Hb : ?m !! ?a = Some ?b, Hin : inside _ _ ?a |- _ =>
      lazymatch goal with
      | _ : header_ok _ _ _ a b |- _ => fail
      | _ => pose proof (kept_ok _ _ _ _ Hk Hin Hb)
      end
  end.

Ltac pin :=
  first [ assumption | by left | by right
        | match goal with
          | Hok : header_ok _ _ _ _ ?b |- ptr_in _ _ (next ?b) => exact (proj1 Hok)
          | Hok : header_ok _ _ _ _ ?b |- ptr_in _ _ (prev ?b) => exact (proj1 (proj2 Hok))
          end ].

Ltac ins := first [ assumption | apply ptr_in_inside; [pin | assumption] ].

Ltac hdr :=
  first [ apply header_ok_next; [pin|assumption]
        | apply header_ok_prev; [pin|assumption]
        | apply header_ok_request; assumption
        | apply header_ok_count; assumption
        | apply header_ok_msgbuf; assumption ].

Ltac kstep :=
  match goal with
  | Hw : wr ?m ?x ?f = Some ?m', Hk : kept ?l ?h ?dd ?m0 ?m |- _ =>
      lazymatch goal with
      | _ : kept _ _ _ _ m' |- _ => fail
      | _ => assert (kept l h dd m0 m')
               by (eapply (kept_wr _ _ _ _ _ Hk Hw); [ins | intros ? ? ?; cbn beta; hdr])
      end
  end.

Ltac ksteps := repeat (okall; kstep); okall.

Ltac fin := cbn [active avail set_active set_avail]; first [done | pin].

(** *** Release *)

Lemma free_unlink_region bb m0 m p prev_ bb' m' :
  ptr_in lo hi (active bb) → kept lo hi d m0 m → inside lo hi p → ptr_in lo hi prev_ →
  free_unlink bb m p prev_ = Some (bb', m') →
  avail bb' = avail bb ∧ ptr_in lo hi (active bb') ∧ kept lo hi d m0 m'.
Proof.
  intros Hact Hk Hp Hprev Hrun. unfold free_unlink in Hrun.
  exec Hrun; ksteps; injection Hrun as <- <-; split_and!; fin.
Qed.

Lemma free_walk_region (fuel : nat) m0 m p ap av ap' av' :
  kept lo hi d m0 m → ptr_in lo hi ap → ptr_in lo hi av →
  free_walk fuel m p ap av = Some (ap', av') →
  ptr_in lo hi ap' ∧ ptr_in lo hi av'.
Proof.
  intros Hk. revert ap av. induction fuel as [|fuel IH]; intros ap av Hap Hav Hrun.
  - cbn in Hrun. destruct (decide (av = NULL)); [|done]. by injection Hrun as <- <-.
  - cbn in Hrun. destruct (decide (av = NULL)); [by injection Hrun as <- <-|].
    destruct (decide (p < av)); [by injection Hrun as <- <-|].
    exec1 Hrun. assert (inside lo hi av) by ins. okall.
    apply (IH av (next b)); [done|pin|done].
Qed.

Lemma free_merge_next_region m0 m p av m' :
  kept lo hi d m0 m → inside lo hi p → ptr_in lo hi av →
  free_merge_next m p av = Some m' → kept lo hi d m0 m'.
Proof.
  intros Hk Hp Hav Hrun. unfold free_merge_next in Hrun.
  destruct (decide (av ≠ NULL)) as [Hnn|Hnull].
  - assert (inside lo hi av) as Hin by ins.
    exec1 Hrun. destruct (decide (p + total_size b = av)) as [Hadj|Hnadj].
    + do 3 exec1 Hrun. okall.
      match goal with
      | Hw1 : wr m p _ = Some ?m1, Hw2 : wr ?m1 p _ = Some ?m2 |- _ =>
          assert (kept lo hi d m0 m2)
      end.
      { eapply kept_wr2; [exact Hk|eassumption|eassumption|done|].
        intros b1 Hb1 Hok1. assert (b1 = b) as -> by congruence.
        match goal with
        | Ha : header_ok lo hi d av _ |- _ => destruct Ha as (_ & _ & Hae & Hat & _ & Hdv)
        end.
        destruct Hok1 as (? & ? & ? & ? & _ & ?).
        apply header_ok_resize; try done; first [lia | by apply Z.divide_add_r]. }
      exec Hrun; ksteps; first [assumption | by injection Hrun as <-].
    + exec Hrun; ksteps; first [assumption | by injection Hrun as <-].
  - ksteps. assumption.
Qed.

Lemma free_merge_prev_region bb m0 m p ap bb' m' :
  ptr_in lo hi (avail bb) → kept lo hi d m0 m → inside lo hi p → ptr_in lo hi ap →
  free_merge_prev bb m p ap = Some (bb', m') →
  active bb' = active bb ∧ ptr_in lo hi (avail bb') ∧ kept lo hi d m0 m'.
Proof.
  intros Hav Hk Hp Hap Hrun. unfold free_merge_prev in Hrun.
  destruct (decide (ap ≠ NULL)) as [Hnn|Hnull].
  - assert (inside lo hi ap) as Hin by ins.
    exec1 Hrun. destruct (decide (ap + total_size b = p)) as [Hadj|Hnadj].
    + do 3 exec1 Hrun. okall.
      match goal with
      | Hw1 : wr m ap _ = Some ?m1, Hw2 : wr ?m1 ap _ = Some ?m2 |- _ =>
          assert (kept lo hi d m0 m2)
      end.
      { eapply kept_wr2; [exact Hk|eassumption|eassumption|done|].
        intros b1 Hb1 Hok1. assert (b1 = b) as -> by congruence.
        match goal with
        | Ha : header_ok lo hi d p _ |- _ => destruct Ha as (_ & _ & Hae & Hat & _ & Hdv)
        end.
        destruct Hok1 as (? & ? & ? & ? & _ & ?).
        apply header_ok_resize; try done; first [lia | by apply Z.divide_add_r]. }
      exec Hrun; ksteps; injection Hrun as <- <-; split_and!; fin.
    + exec Hrun. ksteps. injection Hrun as <- <-. split_and!; fin.
  - exec Hrun. ksteps. injection Hrun as <- <-. split_and!; fin.
Qed.

Lemma free_segment_region (fuel : nat) bb m0 m p bb' m' :
  arena lo hi d bb m → outside_same lo hi m0 m → inside lo hi p →
  MPIR_Bsend_free_segment fuel bb m p = Some (bb', m') →
  arena lo hi d bb' m' ∧ outside_same lo hi m0 m'.
Proof.
  intros (Hav & Hact & Hok) Hout Hp Hrun. unfold MPIR_Bsend_free_segment in Hrun.
  assert (kept lo hi d m0 m) as Hk by done.
  exec1 Hrun. okall. assert (ptr_in lo hi (prev b)) as Hpr by pin.
  destruct (free_unlink bb m p (prev b)) as [[bb1 m1]|] eqn:Hun; [|done].
  cbn [mbind option_bind] in Hrun.
  destruct (free_unlink_region _ _ _ _ _ _ _ Hact Hk Hp Hpr Hun) as (Hav1 & Hact1 & Hk1).
  destruct (free_walk fuel m1 p 0 (avail bb)) as [[ap av]|] eqn:Hwalk; [|done].
  cbn [mbind option_bind] in Hrun.
  destruct (free_walk_region _ _ _ _ _ _ _ _ Hk1 ltac:(by left) Hav Hwalk) as (Hap' & Hav').
  destruct (free_merge_next m1 p av) as [m2|] eqn:Hnext; [|done].
  cbn [mbind option_bind] in Hrun.
  pose proof (free_merge_next_region _ _ _ _ _ Hk1 Hp Hav' Hnext) as Hk2.
  rewrite <- Hav1 in Hav.
  destruct (free_merge_prev_region _ _ _ _ _ _ _ Hav Hk2 Hp Hap' Hrun) as (Hact2 & Hav2 & Hk3).
  split; [|apply Hk3]. split; [done|]. split; [by rewrite Hact2|apply Hk3].
Qed.

(** *** Take *)

Lemma kept_carve_wr m0 m x f g m' :
  kept lo hi d m0 m → wr (carve m x f) x g = Some m' → inside lo hi x →
  header_ok lo hi d x (g (f (default blank (m !! x)))) →
  kept lo hi d m0 m'.
Proof.
  intros Hk Hwr Hx Hok. apply wr_inv in Hwr as (b & Hb & ->).
  rewrite carve_eq in Hb. injection Hb as <-. unfold carve. rewrite insert_insert_eq.
  by apply kept_insert.
Qed.

Lemma take_split_region m0 m p alloc m' :
  kept lo hi d m0 m → inside lo hi p →
  0 ≤ alloc → alloc + BSENDDATA_HEADER_TRUE_SIZE + MIN_BUFFER_BLOCK < 2 ^ 64 →
  (d | alloc) →
  take_split m p alloc = Some m' → kept lo hi d m0 m'.
Proof.
  intros Hk Hp Ha Hbound Hdal Hrun. unfold take_split in Hrun.
  exec1 Hrun. rewrite wrap_small in Hrun by (unfold MIN_BUFFER_BLOCK in *; lia).
  destruct (decide (_ ≤ size b)) as [Hfit|Hnofit]; [|by injection Hrun as <-].
  cbv zeta in Hrun.
  pose proof (kept_ok _ _ _ _ Hk Hp Hb) as (_ & _ & Hpe & Hpt & Hps & Hpd).
  set (q := p + BSENDDATA_HEADER_TRUE_SIZE + alloc) in *.
  assert (inside lo hi q) as Hq.
  { unfold inside, q, MIN_BUFFER_BLOCK in *. lia. }
  do 2 exec1 Hrun.
  match goal with Hb' : m !! p = Some ?b' |- _ => assert (b' = b) as -> by congruence end.
  match goal with
  | Hw : wr (carve m q _) q _ = Some ?m1 |- _ => assert (kept lo hi d m0 m1)
  end.
  { eapply kept_carve_wr; [exact Hk|eassumption|done|].
    apply header_ok_resize; try done.
    - unfold q. lia.
    - unfold MIN_BUFFER_BLOCK in *. lia.
    - apply Z.divide_sub_r; [apply Z.divide_sub_r|]; done.
    - destruct (m !! q) as [bq|] eqn:Hbq; cbn; [|by left].
      by destruct (kept_ok _ _ _ _ Hk Hq Hbq).
    - destruct (m !! q) as [bq|] eqn:Hbq; cbn; [|by left].
      by destruct (kept_ok _ _ _ _ Hk Hq Hbq) as (_ & ? & _). }
  exec Hrun; ksteps; injection Hrun as <-.
  all: match goal with
       | Hw1 : wr ?m1 ?x (set_total_size _) = Some ?m2, Hw2 : wr ?m2 ?x _ = Some ?m3
         |- kept _ _ _ _ ?m3 =>
           eapply (kept_wr2 m0 m1 x _ _ m2 m3); [assumption|exact Hw1|exact Hw2|done|]
       end.
  all: intros ? ? (? & ? & _).
  all: apply header_ok_resize; try done; unfold inside, MIN_BUFFER_BLOCK in *; subst q;
    try lia.
  all: replace (p + BSENDDATA_HEADER_TRUE_SIZE + alloc - p)
         with (BSENDDATA_HEADER_TRUE_SIZE + alloc) by lia.
  all: by apply Z.divide_add_r.
Qed.

Lemma take_move_region bb m0 m p bb' m' :
  ptr_in lo hi (avail bb) → ptr_in lo hi (active bb) → kept lo hi d m0 m → inside lo hi p →
  take_move bb m p = Some (bb', m') →
  ptr_in lo hi (avail bb') ∧ ptr_in lo hi (active bb') ∧ kept lo hi d m0 m'.
Proof.
  intros Hav Hact Hk Hp Hrun. unfold take_move in Hrun.
  exec Hrun; cbn [active avail set_avail] in *; ksteps.
  all: injection Hrun as <- <-; cbn [active avail set_active set_avail].
  all: split_and!; first [assumption | pin].
Qed.

Lemma take_buffer_region bb m0 m p n k bb' m' :
  MAX_ALIGNMENT = 2 ^ k → 0 ≤ k →
  arena lo hi d bb m → outside_same lo hi m0 m → inside lo hi p →
  0 ≤ n → n + MAX_ALIGNMENT + BSENDDATA_HEADER_TRUE_SIZE + MIN_BUFFER_BLOCK < 2 ^ 64 →
  MPIR_Bsend_take_buffer bb m p n = Some (bb', m') →
  arena lo hi d bb' m' ∧ outside_same lo hi m0 m'.
Proof.
  intros HM Hk (Hav & Hact & Hok) Hout Hp Hn Hbound Hrun.
  unfold MPIR_Bsend_take_buffer in Hrun.
  assert (0 < MAX_ALIGNMENT) as Hpos by (rewrite HM; by apply Z.pow_pos_nonneg).
  unfold MIN_BUFFER_BLOCK in Hbound.
  rewrite (alloc_size_of_round_up n k) in Hrun by (try done; lia).
  pose proof (round_up_spec n MAX_ALIGNMENT Hpos) as (Hrd & Hru).
  destruct (take_split m p _) as [m1|] eqn:Hsplit; [|done].
  cbn [mbind option_bind] in Hrun.
  assert (kept lo hi d m0 m) as Hk0 by done.
  assert (kept lo hi d m0 m1) as Hk1.
  { eapply take_split_region; [done|done| | | |exact Hsplit]; unfold MIN_BUFFER_BLOCK;
      first [lia | by eapply Z.divide_trans]. }
  destruct (take_move_region _ _ _ _ _ _ Hav Hact Hk1 Hp Hrun) as (Hav' & Hact' & Hk').
  split; [|apply Hk']. split; [done|]. split; [done|apply Hk'].
Qed.

(** *** The blocks on a list *)

Lemma arena_dseg m prv hd l nxt :
  headers_ok lo hi d m → ptr_in lo hi hd → dseg m prv hd l nxt →
  Forall (λ a, inside lo hi a ∧ ∃ b, m !! a = Some b ∧ header_ok lo hi d a b) l.
Proof.
  intros Hok. revert prv hd. induction l as [|a l IH]; intros prv hd Hhd Hl; [constructor|].
  apply dseg_cons in Hl as (-> & Ha & b & Hb & _ & Hl).
  assert (inside lo hi a) as Hin by (by apply ptr_in_inside).
  pose proof (Hok a b Hin Hb) as Hab.
  constructor; [split; [done|by exists b]|].
  apply (IH a (next b)); [|done]. by destruct Hab.
Qed.

(** *** The driver *)

Context `{Collaborators}.

Lemma progress_from_region (n fuel : nat) m0 bb w act bb' w' :
  arena lo hi d bb (mem w) → outside_same lo hi m0 (mem w) → ptr_in lo hi act →
  progress_from n fuel bb w act = Some (bb', w') →
  arena lo hi d bb' (mem w') ∧ outside_same lo hi m0 (mem w').
Proof.
  revert bb w act. induction fuel as [|fuel IH]; intros bb w act Har Hout Hact Hrun.
  - cbn in Hrun. destruct (decide (act = NULL)); [|done]. by injection Hrun as <- <-.
  - cbn in Hrun. destruct (decide (act = NULL)); [by injection Hrun as <- <-|].
    assert (inside lo hi act) as Hin by ins.
    assert (kept lo hi d m0 (mem w)) as Hk by (split; [apply Har|done]).
    do 2 exec1 Hrun. okall. assert (ptr_in lo hi (next b)) as Hnx by pin.
    destruct (MPIR_Request_is_complete (eng w) (request b0)).
    + destruct (MPIR_Bsend_free_segment n bb (mem w) act) as [[bb1 m1]|] eqn:Hfree;
        [|done].
      cbn [mbind option_bind] in Hrun.
      destruct (free_segment_region _ _ _ _ _ _ _ Har Hout Hin Hfree) as (Har1 & Hout1).
      destruct (MPIR_Request_is_persistent _ _); cbn [mbind option_bind] in Hrun.
      * eapply IH; [| | |exact Hrun]; done.
      * eapply IH; [| | |exact Hrun]; done.
    + cbn [mbind option_bind] in Hrun. by apply (IH _ _ _ Har Hout Hnx Hrun).
Qed.

Lemma check_active_region (n : nat) m0 bb w e bb' w' :
  arena lo hi d bb (mem w) → outside_same lo hi m0 (mem w) →
  MPIR_Bsend_check_active n bb w = Some (e, bb', w') →
  arena lo hi d bb' (mem w') ∧ outside_same lo hi m0 (mem w').
Proof.
  intros Har Hout Hrun. unfold MPIR_Bsend_check_active in Hrun. cbv zeta in Hrun.
  destruct (decide (active bb ≠ NULL)); [|by injection Hrun as <- <- <-].
  destruct (MPID_Progress_test _) as [e1 en].
  destruct (decide (e1 ≠ 0)); [by injection Hrun as <- <- <-|].
  destruct (MPIR_Bsend_progress _ _ _) as [[bb1 w1]|] eqn:Hprog; [|done].
  cbn [mbind option_bind] in Hrun. injection Hrun as <- <- <-.
  unfold MPIR_Bsend_progress in Hprog.
  eapply progress_from_region; [| |apply Har|exact Hprog]; done.
Qed.

Lemma find_buffer_region (fuel : nat) m p sz r :
  headers_ok lo hi d m → ptr_in lo hi p →
  find_buffer_from fuel m p sz = Some r → ptr_in lo hi r.
Proof.
  intros Hok. revert p. induction fuel as [|fuel IH]; intros p Hp Hrun.
  - cbn in Hrun. destruct (decide (p = NULL)); [|done]. injection Hrun as <-. by left.
  - cbn in Hrun. destruct (decide (p = NULL)); [injection Hrun as <-; by left|].
    assert (inside lo hi p) as Hin by ins.
    exec1 Hrun. destruct (decide (sz ≤ size b)); [by injection Hrun as <-|].
    exec1 Hrun. apply (IH (next b0)); [|done].
    by destruct (Hok p b0 Hin Hb0).
Qed.

Lemma isend_pack_region a ps w p b m2 :
  packer_bounded → 0 ≤ ps → ps = isend_packsize a →
  mem w !! p = Some b → count b = 0 →
  isend_pack a ps w p = Some (inr m2) →
  ∃ c, 0 ≤ c ≤ ps ∧ m2 = <[p := set_count c b]> (mem w).
Proof.
  intros Hpk Hps Heq Hb Hc Hrun. unfold isend_pack in Hrun. unfold isend_packsize in Heq.
  destruct (decide (a_dtype a ≠ MPI_PACKED)).
  - do 2 exec1 Hrun.
    pose proof (Hpk (eng w) (a_buf a) (a_count a) (a_dtype a) (msgbuf b0 + count b1) ps Hps)
      as Hact.
    destruct (MPIR_Typerep_pack _ _ _ _ _ _) as [err actual]. cbn [snd] in Hact.
    destruct (decide (err ≠ 0)); [done|].
    exec1 Hrun. injection Hrun as <-. apply wr_inv in Hwr as (b2 & Hb2 & ->).
    assert (b2 = b) as -> by congruence.
    exists actual. split; [done|]. by rewrite Hc.
  - exec1 Hrun. injection Hrun as <-. apply wr_inv in Hwr as (b2 & Hb2 & ->).
    assert (b2 = b) as -> by congruence.
    exists (a_count a). split; [lia|done].
Qed.

Lemma isend_send_region a k m0 bb w p b ps e out bb' w' :
  MAX_ALIGNMENT = 2 ^ k → 0 ≤ k →
  ps + MAX_ALIGNMENT + BSENDDATA_HEADER_TRUE_SIZE + MIN_BUFFER_BLOCK < 2 ^ 64 →
  arena lo hi d bb (mem w) → outside_same lo hi m0 (mem w) → inside lo hi p →
  mem w !! p = Some b → 0 ≤ count b ≤ ps →
  isend_send a bb w p = Some (e, out, bb', w') →
  arena lo hi d bb' (mem w') ∧ outside_same lo hi m0 (mem w').
Proof.
  intros HM Hk Hbound Har Hout Hp Hb Hc Hrun. unfold isend_send in Hrun.
  assert (kept lo hi d m0 (mem w)) as Hk0 by (split; [apply Har|done]).
  destruct Har as (Hav & Hact & _).
  do 2 exec1 Hrun. destruct (MPID_Isend _ _ _ _ _) as [[err r] en].
  exec1 Hrun. cbv zeta in Hrun. cbn [mem log set_mem set_eng] in Hrun.
  ksteps.
  assert (m !! p = Some (set_request r b)) as Hbm.
  { apply wr_inv in Hwr as (b2 & Hb2 & ->). rewrite lookup_insert_eq. congruence. }
  assert (arena lo hi d bb m ∧ outside_same lo hi m0 m) as (Har1 & Hout1).
  { match goal with Hk1 : kept lo hi d m0 m |- _ => destruct Hk1 end. by split_and!. }
  destruct (decide (err ≠ 0)); [by injection Hrun as <- <- <- <-|].
  exec1 Hrun. destruct (decide (_ ≠ NULL)); [|by injection Hrun as <- <- <- <-].
  exec1 Hrun.
  match goal with Hb' : m !! p = Some ?b', Hr : context [wrap (count ?b')] |- _ =>
    assert (count b' = count b) as Hcb by (assert (b' = set_request r b) as -> by congruence; done)
  end.
  rewrite Hcb in Hrun. rewrite (wrap_small (count b)) in Hrun by (unfold MIN_BUFFER_BLOCK in *;
    rewrite HM in Hbound; pose proof (Z.pow_pos_nonneg 2 k); lia).
  destruct (MPIR_Bsend_take_buffer bb m p (count b)) as [[bb1 m1]|] eqn:Htake; [|done].
  cbn [mbind option_bind] in Hrun.
  assert (arena lo hi d bb1 m1 ∧ outside_same lo hi m0 m1) as Hres.
  { eapply (take_buffer_region bb m0 m p (count b) k); try done; [lia|].
    unfold MIN_BUFFER_BLOCK in *. lia. }
  destruct (a_want_request a).
  - exec1 Hrun. by injection Hrun as <- <- <- <-.
  - by injection Hrun as <- <- <- <-.
Qed.

Lemma isend_found_region a k m0 bb w p e out bb' w' :
  MAX_ALIGNMENT = 2 ^ k → 0 ≤ k → packer_bounded →
  0 ≤ isend_packsize a →
  isend_packsize a + MAX_ALIGNMENT + BSENDDATA_HEADER_TRUE_SIZE + MIN_BUFFER_BLOCK < 2 ^ 64 →
  arena lo hi d bb (mem w) → outside_same lo hi m0 (mem w) → inside lo hi p →
  isend_found a (isend_packsize a) bb w p = Some (e, out, bb', w') →
  arena lo hi d bb' (mem w') ∧ outside_same lo hi m0 (mem w').
Proof.
  intros HM Hk Hpk Hps Hbound Har Hout Hp Hrun. unfold isend_found in Hrun.
  assert (kept lo hi d m0 (mem w)) as Hk0 by (split; [apply Har|done]).
  exec1 Hrun. cbv zeta in Hrun. ksteps.
  assert (arena lo hi d bb m ∧ outside_same lo hi m0 m) as (Har1 & Hout1).
  { match goal with Hk1 : kept lo hi d m0 m |- _ => destruct Hk1 end.
    destruct Har as (? & ? & _). by split_and!. }
  apply wr_inv in Hwr as (b & Hb & Hm).
  destruct (isend_pack _ _ _ _) as [[err|m2]|] eqn:Hpack; cbn [mbind option_bind] in Hrun;
    [by injection Hrun as <- <- <- <-| |done].
  destruct (isend_pack_region a (isend_packsize a) (log EvPack (set_mem m w)) p
              (set_count 0 b) m2 Hpk Hps eq_refl) as (c & Hc & Hm2);
    [cbn [mem log set_mem]; subst m; by rewrite lookup_insert_eq|done|exact Hpack|].
  cbn [mem log set_mem] in Hm2.
  assert (kept lo hi d m0 m2) as Hk2.
  { rewrite Hm2. apply kept_insert; [by split; [apply Har1|]|done|].
    apply header_ok_count. apply (proj2 (proj2 Har1) p); [done|].
    subst m. by rewrite lookup_insert_eq. }
  eapply (isend_send_region a k m0 bb _ p (set_count c (set_count 0 b)) (isend_packsize a));
    [done|done|done| | |done| | |exact Hrun].
  - destruct Har as (? & ? & _). split_and!; [done|done|apply Hk2].
  - apply Hk2.
  - cbn [mem set_mem log]. rewrite Hm2. by rewrite lookup_insert_eq.
  - done.
Qed.

Lemma isend_with_region (n : nat) a k m0 bb w e out bb' w' :
  (2 ≤ n)%nat →
  MAX_ALIGNMENT = 2 ^ k → 0 ≤ k → packer_bounded →
  0 ≤ isend_packsize a →
  isend_packsize a + MAX_ALIGNMENT + BSENDDATA_HEADER_TRUE_SIZE + MIN_BUFFER_BLOCK < 2 ^ 64 →
  arena lo hi d bb (mem w) → outside_same lo hi m0 (mem w) →
  isend_with n a (isend_packsize a) bb w = Some (e, out, bb', w') →
  arena lo hi d bb' (mem w') ∧ outside_same lo hi m0 (mem w').
Proof.
  intros Hn HM Hk Hpk Hps Hbound Har Hout Hrun.
  destruct (isend_with_cases _ _ _ _ _ _ _ _ _ Hn Hrun)
    as (e1 & bb1 & w1 & evs1 & Hca & _ & _ & Hcase).
  destruct (check_active_region _ _ _ _ _ _ _ Har Hout Hca) as (Har1 & Hout1).
  destruct Hcase as [(_ & _ & _ & -> & ->)
                    |[(_ & p & Hp & Hf & Hfd)
                    |(_ & _ & e2 & bb2 & w2 & evs2 & Hca2 & _ & _ & Hcase2)]].
  - done.
  - eapply (isend_found_region a k m0 bb1 (log (EvFind (wrap (isend_packsize a)) p) w1) p);
      [done..| |exact Hfd].
    apply ptr_in_inside; [|done].
    destruct Har1 as (Hav1 & _ & Hok1).
    exact (find_buffer_region n (mem w1) (avail bb1) _ p Hok1 Hav1 Hf).
  - destruct (check_active_region n m0 bb1 (log (EvFind (wrap (isend_packsize a)) NULL) w1)
                e2 bb2 w2 Har1 Hout1 Hca2) as (Har2 & Hout2).
    destruct Hcase2 as [(p & Hp & Hf & Hfd)|(_ & _ & _ & -> & ->)]; [|done].
    eapply (isend_found_region a k m0 bb2 (log (EvFind (wrap (isend_packsize a)) p) w2) p);
      [done..| |exact Hfd].
    apply ptr_in_inside; [|done].
    destruct Har2 as (Hav2 & _ & Hok2).
    exact (find_buffer_region n (mem w2) (avail bb2) _ p Hok2 Hav2 Hf).
Qed.

End Region.
(** ** Properties of attach and detach *)

Section Attach.
Context `{Platform}.

(** C1 (the code misses it).  Take a successful attach of a region
    [(ptr, sz)] whose [ptr] is not a multiple of [A], the larger of the
    sizes of a pointer and of a double.  The base is advanced by
    [A - ptr mod A] and the recorded size of the buffer is reduced by the
    same amount; the free list is the single block at the new base and the
    active list is empty.  But the span of that block is the [sz] that the
    caller passed, not the reduced size: the block ends past the end of the
    caller's region, by the amount the base was advanced. *)
Theorem attach_misaligned_span slot ptr sz (m : heap) :
  buffer (default calloc_BsendBuffer slot) = NULL →
  MPI_BSEND_OVERHEAD ≤ sz → 0 ≤ sz < 2 ^ 64 →
  let A := Z.max sizeof_voidp sizeof_double in
  0 < A → A ≤ sz → wrap ptr mod A ≠ 0 → ptr + attach_offset ptr ≠ NULL →
  ∃ bb b m',
    MPIR_Bsend_attach slot ptr sz m = (MPI_SUCCESS, Some bb, m')
    ∧ attach_offset ptr = A - wrap ptr mod A
    ∧ buffer bb = ptr + attach_offset ptr
    ∧ buffer_size bb = sz - attach_offset ptr
    ∧ dlist m' (avail bb) [buffer bb] ∧ dlist m' (active bb) []
    ∧ m' !! buffer bb = Some b
    ∧ total_size b = sz
    ∧ total_size b ≠ buffer_size bb
    ∧ buffer bb + total_size b = ptr + sz + attach_offset ptr.
Proof.
  intros Hbuf Hov Hsz A HA HAsz Hmis Hnn.
  destruct (attach_fresh slot ptr sz m Hbuf Hov)
    as (b & m' & Hrun & Hb & Htot & _ & Hnx & Hpv & _).
  pose proof (Z.mod_pos_bound (wrap ptr) A HA) as Hr.
  assert (attach_offset ptr = A - wrap ptr mod A) as Hoff.
  { unfold attach_offset. fold A. rewrite decide_True by done. apply wrap_small. lia. }
  rewrite wrap_small in Htot by done.
  eexists _, b, m'. split; [exact Hrun|]. cbn [buffer buffer_size avail active].
  rewrite (wrap_small sz) by done. rewrite (wrap_small (sz - _)) by lia.
  split; [done|]. split; [done|]. split; [done|].
  split.
  { apply dseg_cons. split; [done|]. split; [done|]. exists b. split; [done|].
    split; [done|]. by apply dseg_nil. }
  split; [by apply dseg_nil|]. split; [done|]. split; [done|]. split; lia.
Qed.

End Attach.

(** On a 64-bit platform, for the region (4097, 4096): the base moves to
    4104, the recorded size is 4089, and the one block has span 4096. *)
Lemma attach_misaligned_span_witness :
  ∃ bb b m',
    @MPIR_Bsend_attach lp64 None 4097 4096 ∅ = (MPI_SUCCESS, Some bb, m')
    ∧ @attach_offset lp64 4097 = 8 - wrap 4097 mod 8
    ∧ buffer bb = 4097 + @attach_offset lp64 4097
    ∧ buffer_size bb = 4096 - @attach_offset lp64 4097
    ∧ dlist m' (avail bb) [buffer bb] ∧ dlist m' (active bb) []
    ∧ m' !! buffer bb = Some b
    ∧ total_size b = 4096
    ∧ total_size b ≠ buffer_size bb
    ∧ buffer bb + total_size b = 4097 + 4096 + @attach_offset lp64 4097.
Proof.
  apply (@attach_misaligned_span lp64 None 4097 4096 ∅).
  - reflexivity.
  - vm_compute. discriminate.
  - lia.
  - reflexivity.
  - vm_compute. discriminate.
  - vm_compute. discriminate.
  - vm_compute. discriminate.
Defined.

Section AttachDetach.
Context `{Platform} `{Collaborators}.

(** C9.  After a successful detach the slot record, if there was one, is
    still allocated and holds no region, and an attach to the same slot
    never fails with "buffer already attached": it succeeds as soon as the
    new size reaches [MPI_BSEND_OVERHEAD]. *)
Theorem attach_after_detach (fuel : nat) slot w out slot' w' ptr sz (m : heap) :
  MPIR_Bsend_detach fuel slot w = Some (MPI_SUCCESS, out, slot', w') →
  (is_Some slot → ∃ bb, slot' = Some bb ∧ buffer bb = NULL)
  ∧ (MPIR_Bsend_attach slot' ptr sz m).1.1 ≠ Err_bufexists
  ∧ (MPI_BSEND_OVERHEAD ≤ sz → (MPIR_Bsend_attach slot' ptr sz m).1.1 = MPI_SUCCESS).
Proof.
  unfold MPIR_Bsend_detach. intros Hdet.
  assert (buffer (default calloc_BsendBuffer slot') = NULL
          ∧ (is_Some slot → ∃ bb, slot' = Some bb ∧ buffer bb = NULL)) as [Hbuf Hsome].
  { destruct slot as [bb|].
    - destruct (if decide (active bb ≠ NULL) then _ else _) as [[e1 w1]|]; [|done].
      cbn [mbind option_bind] in Hdet. case_decide; [done|].
      injection Hdet as <- <- <-. split; [done|]. intros _. by eexists.
    - injection Hdet as <- <- <-. split; [done|]. by intros [? ?]. }
  split; [done|].
  assert (MPI_BSEND_OVERHEAD ≤ sz → (MPIR_Bsend_attach slot' ptr sz m).1.1 = MPI_SUCCESS)
    as Hok.
  { intros Hsz. destruct (attach_fresh slot' ptr sz m Hbuf Hsz) as (b & m1 & -> & _). done. }
  split; [|done].
  destruct (decide (MPI_BSEND_OVERHEAD ≤ sz)) as [Hsz|Hsz]; [by rewrite Hok|].
  unfold MPIR_Bsend_attach. rewrite decide_False by (by intros []).
  by rewrite decide_True by lia.
Qed.


End AttachDetach.

(** *** The statements above on a run *)

Lemma attach_after_detach_witness :
  @MPIR_Bsend_detach (engine_of 0 1 0 true) 1 (Some demo_buffer)
    (@world_of (engine_of 0 1 0 true) demo_heap tt)
  = Some (MPI_SUCCESS, Some (4096, 72), Some (mkBuffer 0 0 NULL 0 NULL NULL),
          @mkWorld (engine_of 0 1 0 true) demo_heap tt [EvWait 7; EvRequestFree 7])
  ∧ (@MPIR_Bsend_attach lp64 (Some (mkBuffer 0 0 NULL 0 NULL NULL)) 8192 4096 demo_heap).1.1
    = MPI_SUCCESS.
Proof.
  split; [reflexivity|].
  refine (proj2 (proj2 (@attach_after_detach lp64 (engine_of 0 1 0 true) 1 (Some demo_buffer)
    (@world_of (engine_of 0 1 0 true) demo_heap tt) _ _ _ 8192 4096 demo_heap _)) _).
  - reflexivity.
  - cbn. lia.
Defined.


(** ** Properties of taking and releasing a block *)

Section TakeAndFree.
Context `{Platform}.

(** C4.  Let [p] be a block of the free list [l1 ++ p :: l2], [n] a request
    that fits its payload, and [n_aligned] be [n] rounded up to the next
    multiple of [MAX_ALIGNMENT] (a power of two).  If
    [n_aligned + header + MIN_BUFFER_BLOCK] is at most the payload capacity
    of [p], take creates the free block [q = p + header + n_aligned] in the
    place of [p] in the free list, with span
    [p.total_size - (header + n_aligned)], payload capacity that span less
    the header and at least [MIN_BUFFER_BLOCK], and shrinks [p] to span
    [header + n_aligned]; otherwise [p] leaves the free list and no block
    changes its sizes.  Either way [p] becomes the head of the active list,
    and no block other than [p] and [q] changes its sizes. *)
Theorem take_buffer_splits_or_consumes bb (m : heap) p n l1 l2 al bp k :
  MAX_ALIGNMENT = 2 ^ k → 0 ≤ k < 62 →
  0 ≤ BSENDDATA_HEADER_TRUE_SIZE →
  dlist m (avail bb) (l1 ++ p :: l2) → dlist m (active bb) al →
  disj (l1 ++ p :: l2) al →
  m !! p = Some bp → 0 < p →
  size bp = total_size bp - BSENDDATA_HEADER_TRUE_SIZE → total_size bp < 2 ^ 63 →
  0 ≤ n ≤ size bp →
  let hs := BSENDDATA_HEADER_TRUE_SIZE in
  let n_aligned := round_up n MAX_ALIGNMENT in
  let q := p + hs + n_aligned in
  (n_aligned + hs + MIN_BUFFER_BLOCK ≤ size bp → q ∉ (l1 ++ p :: l2) ++ al) →
  ∃ bb' m',
    MPIR_Bsend_take_buffer bb m p n = Some (bb', m')
    ∧ dlist m' (active bb') (p :: al)
    ∧ (∀ x, x ≠ p → x ≠ q → sizes m' x = sizes m x)
    ∧ if decide (n_aligned + hs + MIN_BUFFER_BLOCK ≤ size bp) then
        dlist m' (avail bb') (l1 ++ q :: l2)
        ∧ sizes m' q = Some (total_size bp - (hs + n_aligned) - hs,
                             total_size bp - (hs + n_aligned))
        ∧ MIN_BUFFER_BLOCK ≤ total_size bp - (hs + n_aligned) - hs
        ∧ sizes m' p = Some (n_aligned, hs + n_aligned)
      else
        dlist m' (avail bb') (l1 ++ l2) ∧ ∀ x, sizes m' x = sizes m x.
Proof.
  intros HM Hk Hh Hfl Hal Hdisj Hbp Hp0 Hsz Htot Hn hs n_aligned q Hq.
  destruct (take_buffer_spec bb m p n l1 l2 al bp k HM Hk Hh Hfl Hal Hdisj Hbp Hp0 Hsz Htot
              Hn Hq) as (bb' & m' & Hrun & Hact & _ & Hsizes & _ & Hcase).
  exists bb', m'. done.
Qed.

(** C5.  Let the free list [fl] be in address order with no block ending
    where the next one starts, and let [p] be a block of the active list;
    all blocks lie in the address space and have payload capacity equal to
    span less header.  Then, with fuel for the walk along [fl],
    free-with-merge returns, and the free list [fl'] it leaves is again in
    address order with no block ending where the next starts, every block
    of [fl'] again has payload capacity equal to span less header, and, as
    addresses and spans, [fl'] is [fl] with [p] put in address order and
    every block joined with its successor where it ends at the successor's
    start: [p] is merged with its right neighbour exactly when
    [p + p.total_size] is that neighbour, and with its left neighbour
    exactly when that neighbour ends at [p].  [p] leaves the active list. *)
Theorem free_segment_keeps_free_list (fuel : nat) bb (m : heap) p fl al :
  0 ≤ BSENDDATA_HEADER_TRUE_SIZE →
  dlist m (avail bb) fl → dlist m (active bb) al → p ∈ al → disj fl al →
  ascending fl → apart m fl →
  (∀ a, a ∈ p :: fl → block_ok m a) →
  (length fl ≤ fuel)%nat →
  ∃ bb' m' fl' a1 a2,
    MPIR_Bsend_free_segment fuel bb m p = Some (bb', m')
    ∧ dlist m' (avail bb') fl'
    ∧ ascending fl' ∧ apart m' fl'
    ∧ (∀ a, a ∈ fl' → block_ok m' a)
    ∧ spans m' fl' = coalesce (insert_block (p, span m p) (spans m fl))
    ∧ al = a1 ++ p :: a2 ∧ dlist m' (active bb') (a1 ++ a2).
Proof.
  intros Hh Hfl Hal Hp Hdisj Hasc Hap Hok Hfuel.
  destruct (free_segment_invariants fuel bb m p fl al Hh Hfl Hal Hp Hdisj Hasc Hap Hok Hfuel)
    as (bb' & m' & fl' & a1 & a2 & Hrun & Hfl' & Hasc' & Hap' & Hok' & Hspans & Hal' & Hact
        & _).
  exists bb', m', fl', a1, a2. done.
Qed.

End TakeAndFree.

(** *** The statements above on a run *)

Lemma take_buffer_splits_or_consumes_witness :
  ∃ bb' m',
    @MPIR_Bsend_take_buffer lp64 fresh_buffer fresh_heap 4096 100 = Some (bb', m')
    ∧ dlist m' (active bb') [4096]
    ∧ dlist m' (avail bb') [4272]
    ∧ sizes m' 4272 = Some (3856, 3920)
    ∧ sizes m' 4096 = Some (112, 176).
Proof.
  destruct (@take_buffer_splits_or_consumes lp64 fresh_buffer fresh_heap 4096 100 [] [] []
              fresh_block 4) as (bb' & m' & Hrun & Hact & _ & Hcase).
  - reflexivity.
  - lia.
  - vm_compute. discriminate.
  - apply dseg_cons. split; [reflexivity|]. split; [done|].
    exists fresh_block. split; [reflexivity|]. split; [reflexivity|]. by apply dseg_nil.
  - by apply dseg_nil.
  - intros x _. apply not_elem_of_nil.
  - reflexivity.
  - lia.
  - reflexivity.
  - cbn. lia.
  - cbn. lia.
  - intros _. vm_compute. intros Hin. apply elem_of_cons in Hin as [Hin|Hin]; [done|].
    by apply elem_of_nil in Hin.
  - exists bb', m'. split; [exact Hrun|]. split; [exact Hact|].
    destruct Hcase as (Hfl & Hq & _ & Hp). split; [exact Hfl|]. split; [exact Hq|exact Hp].
Defined.

Lemma free_segment_keeps_free_list_witness :
  ∃ bb' m' fl',
    @MPIR_Bsend_free_segment lp64 2 split_buffer split_heap 4272 = Some (bb', m')
    ∧ dlist m' (avail bb') fl'
    ∧ ascending fl' ∧ apart m' fl'
    ∧ spans m' fl' = [(4096, 4096)]
    ∧ dlist m' (active bb') [].
Proof.
  destruct (@free_segment_keeps_free_list lp64 2 split_buffer split_heap 4272 [4096; 4448]
              [4272])
    as (bb' & m' & fl' & a1 & a2 & Hrun & Hfl & Hasc & Hap & _ & Hspans & Hal & Hact).
  - vm_compute. discriminate.
  - apply dseg_cons. split; [reflexivity|]. split; [done|].
    exists left_block. split; [reflexivity|]. split; [reflexivity|].
    apply dseg_cons. split; [reflexivity|]. split; [done|].
    exists right_block. split; [reflexivity|]. split; [reflexivity|]. by apply dseg_nil.
  - apply dseg_cons. split; [reflexivity|]. split; [done|].
    exists mid_block. split; [reflexivity|]. split; [reflexivity|]. by apply dseg_nil.
  - left.
  - intros x Hx Hx'. apply list_elem_of_singleton in Hx' as ->.
    apply elem_of_cons in Hx as [Hx|Hx]; [done|].
    apply list_elem_of_singleton in Hx. done.
  - repeat constructor.
  - split; [|split; [|done]].
    + intros b Hb. injection Hb as <-. vm_compute. discriminate.
    + intros b Hb. discriminate.
  - intros a Ha.
    assert (a = 4272 ∨ a = 4096 ∨ a = 4448) as [-> | [-> | ->]].
    { rewrite !elem_of_cons in Ha. destruct Ha as [?|[?|[?|Ha]]]; auto.
      by apply elem_of_nil in Ha. }
    + exists mid_block. split; [reflexivity|]. vm_compute. repeat split; discriminate.
    + exists left_block. split; [reflexivity|]. vm_compute. repeat split; discriminate.
    + exists right_block. split; [reflexivity|]. vm_compute. repeat split; discriminate.
  - cbn. lia.
  - exists bb', m', fl'. split; [exact Hrun|]. split; [exact Hfl|]. split; [exact Hasc|].
    split; [exact Hap|]. split; [exact Hspans|].
    destruct a1 as [|x a1]; [|destruct a1; discriminate].
    injection Hal as <-. exact Hact.
Defined.

(** ** Properties of the send driver *)

Section SendDriver.
Context `{Platform} `{Collaborators}.

(** C3.  Let the send have chosen a buffer and the reclaim step before the
    loop have succeeded.  If the first search finds no block, the driver
    runs one reclaim step, searches once more, and, finding no block again,
    fails with "no buffer space": between the two searches the trace holds
    the entry of that one reclaim step and what it polled and released,
    nothing else, and the loop is over after the second search whatever the
    fuel.  If the first search finds a block, the loop ends with the
    pack-and-send of that block: no second search and no reclaim step
    follow.  In particular, when nothing is in flight and no block of the
    free list is large enough, the send returns "no buffer space" after
    exactly two searches with one (idle) reclaim step between them, and
    leaves the memory as it was. *)
Theorem isend_two_passes (n : nat) a comm process w s bb :
  (2 ≤ n)%nat →
  isend_bsendbuffer comm process = Some (s, bb) →
  let sz := wrap (isend_packsize a) in
  (∀ bb1 w1,
     MPIR_Bsend_check_active n bb w = Some (0, bb1, w1) →
     (MPIR_Bsend_find_buffer n bb1 (mem w1) sz = Some NULL →
      ∀ e2 bb2 w2,
        MPIR_Bsend_check_active n bb1 (log (EvFind sz NULL) w1) = Some (e2, bb2, w2) →
        MPIR_Bsend_find_buffer n bb2 (mem w2) sz = Some NULL →
        ∃ w' evs,
          MPIR_Bsend_isend n a comm process w =
            Some (Err_no_buffer_space (isend_packsize a) (buffer_size bb2), None,
                  (isend_slots s bb2 comm process).1, (isend_slots s bb2 comm process).2, w')
          ∧ trace w' =
              trace w1 ++ [EvFind sz NULL] ++ (EvCheckActive :: evs) ++ [EvFind sz NULL]
          ∧ Forall (λ ev, is_reclaim ev = true) evs)
     ∧ (∀ p, p ≠ NULL →
        MPIR_Bsend_find_buffer n bb1 (mem w1) sz = Some p →
        ∀ e out bb3 w3,
          isend_found a (isend_packsize a) bb1 (log (EvFind sz p) w1) p
            = Some (e, out, bb3, w3) →
          ∃ evs,
            MPIR_Bsend_isend n a comm process w =
              Some (e, out, (isend_slots s bb3 comm process).1,
                    (isend_slots s bb3 comm process).2, w3)
            ∧ trace w3 = trace w1 ++ EvFind sz p :: evs
            ∧ Forall (λ ev, is_find ev = false ∧ is_check_active ev = false) evs))
  ∧ (∀ fl,
       active bb = NULL → dlist (mem w) (avail bb) fl → (length fl ≤ n)%nat →
       Forall (λ x, ∀ b, mem w !! x = Some b → size b < sz) fl →
       ∃ w',
         MPIR_Bsend_isend n a comm process w =
           Some (Err_no_buffer_space (isend_packsize a) (buffer_size bb), None,
                 (isend_slots s bb comm process).1, (isend_slots s bb comm process).2, w')
         ∧ trace w' =
             trace w ++ [EvCheckActive; EvFind sz NULL; EvCheckActive; EvFind sz NULL]
         ∧ mem w' = mem w).
Proof.
  intros Hn Hsel sz.
  rewrite (isend_chosen n a comm process w s bb Hsel), isend_with_unfold by done.
  fold sz. split.
  - intros bb1 w1 Hca. rewrite Hca. cbn [mbind option_bind].
    rewrite decide_False by (by intros []). split.
    + intros Hfind e2 bb2 w2 Hca2 Hfind2. rewrite Hfind. cbn [mbind option_bind].
      rewrite decide_False by (by intros []).
      rewrite Hca2. cbn [mbind option_bind]. rewrite Hfind2. cbn [mbind option_bind].
      rewrite decide_False by (by intros []).
      destruct (check_active_trace _ _ _ _ _ _ Hca2) as (evs & Htr & Hall).
      eexists _, evs. split; [reflexivity|]. split; [|done].
      cbn [trace log] in *. rewrite Htr. by rewrite <- !app_assoc.
    + intros p Hp Hfind e out bb3 w3 Hfound. rewrite Hfind. cbn [mbind option_bind].
      rewrite decide_True by done. rewrite Hfound.
      apply isend_found_cases in Hfound. cbn [trace log] in Hfound.
      destruct Hfound as [(x & _ & _ & _ & _ & Htr)
                        |[(x & r & _ & _ & _ & _ & Htr)
                        |[(_ & _ & _ & _ & Htr)
                        |(r & c & m2 & tl & _ & _ & _ & _ & Htr & Htl)]]].
      * exists [EvPack]. split; [done|]. split; [by rewrite Htr, <- app_assoc|].
        by repeat constructor.
      * exists [EvPack; EvIsend r]. split; [done|]. split; [by rewrite Htr, <- app_assoc|].
        by repeat constructor.
      * exists [EvPack; EvIsend NULL]. split; [done|].
        split; [by rewrite Htr, <- app_assoc|]. by repeat constructor.
      * exists ([EvPack; EvIsend r; EvTake p c] ++ tl). split; [done|].
        split; [by rewrite Htr, <- !app_assoc|].
        destruct Htl as [(_ & r' & _ & ->)|(_ & _ & ->)]; by repeat constructor.
  - intros fl Hact Hfl Hlen Hsmall.
    rewrite (check_active_idle n bb w Hact). cbn [mbind option_bind].
    rewrite decide_False by (by intros []).
    assert (MPIR_Bsend_find_buffer n bb (mem w) sz = Some NULL) as Hfind.
    { by apply (find_buffer_none n (mem w) NULL (avail bb) fl sz). }
    cbn [mem log]. rewrite Hfind. cbn [mbind option_bind].
    rewrite decide_False by (by intros []).
    rewrite (check_active_idle n bb _ Hact). cbn [mbind option_bind mem log].
    rewrite Hfind. cbn [mbind option_bind]. rewrite decide_False by (by intros []).
    eexists. split; [reflexivity|]. cbn [trace log mem]. split; [|done].
    by rewrite <- !app_assoc.
Qed.







(** X19.  The send resolves the slots by their pointers.  The buffer of a
    send is the record of the communicator's slot when that pointer is not
    null, else the record of the slot of the communicator's session when
    that pointer is not null, else the record of the process's slot; a
    record without a region counts like any other.  The send fails with "no
    buffer attached" exactly when the three pointers are null.  A send that
    draws from one slot leaves the slots after it as they were, and with
    them their free lists: when the buffer it draws from lives in the region
    [lo, hi), every header outside the region is untouched, so a free list
    of another slot that lies outside the region is the same list of the
    same blocks afterwards. *)
Theorem isend_slot_precedence (n : nat) a comm process w :
  (2 ≤ n)%nat →
  (∀ b, comm_bsendbuffer comm = Some b →
        isend_bsendbuffer comm process = Some (CommSlot, b))
  ∧ (∀ b, comm_bsendbuffer comm = None →
          session_ptr comm ≫= session_bsendbuffer = Some b →
          isend_bsendbuffer comm process = Some (SessionSlot, b))
  ∧ (∀ b, comm_bsendbuffer comm = None →
          session_ptr comm ≫= session_bsendbuffer = None →
          process = Some b →
          isend_bsendbuffer comm process = Some (ProcessSlot, b))
  ∧ ((∃ ps out comm' process' w',
        MPIR_Bsend_isend n a comm process w
          = Some (Err_no_buffer_attached ps, out, comm', process', w'))
     ↔ comm_bsendbuffer comm = None
       ∧ session_ptr comm ≫= session_bsendbuffer = None
       ∧ process = None)
  ∧ (∀ s bb e out comm' process' w' lo hi k,
       MAX_ALIGNMENT = 2 ^ k → 0 ≤ k → 0 ≤ BSENDDATA_HEADER_TRUE_SIZE →
       0 < lo → hi ≤ 2 ^ 64 →
       packer_bounded → 0 ≤ isend_packsize a →
       isend_packsize a + MAX_ALIGNMENT + BSENDDATA_HEADER_TRUE_SIZE + MIN_BUFFER_BLOCK
         < 2 ^ 64 →
       isend_bsendbuffer comm process = Some (s, bb) →
       arena lo hi 1 bb (mem w) →
       MPIR_Bsend_isend n a comm process w = Some (e, out, comm', process', w') →
       other_slots s comm' process' = other_slots s comm process
       ∧ outside_same lo hi (mem w) (mem w')
       ∧ ∀ bo l, bo ∈ other_slots s comm process →
                 Forall (λ x, ¬ inside lo hi x) l →
                 dlist (mem w) (avail bo) l →
                 dlist (mem w') (avail bo) l
                 ∧ Forall (λ x, mem w' !! x = mem w !! x) l).
Proof.
  intros Hn. split_and!.
  - intros b Hb. unfold isend_bsendbuffer. by rewrite Hb.
  - intros b Hc Hs. unfold isend_bsendbuffer. by rewrite Hc, Hs.
  - intros b Hc Hs ->. unfold isend_bsendbuffer. by rewrite Hc, Hs.
  - split.
    + intros (ps & out & comm' & process' & w' & Hrun).
      destruct (isend_bsendbuffer comm process) as [[s bb]|] eqn:Hsel.
      * exfalso. rewrite (isend_chosen n a comm process w s bb Hsel) in Hrun.
        destruct (isend_with _ _ _ _ _) as [[[[e' out'] bb'] w'']|] eqn:Hwith; [|done].
        injection Hrun as -> _ _ _ _.
        assert (∀ bbx wx p,
                  isend_found a (isend_packsize a) bbx wx p
                    = Some (Err_no_buffer_attached ps, out', bb', w'') → False) as Hfound.
        { intros bbx wx p Hf. apply isend_found_cases in Hf.
          destruct Hf as [(x & ? & _)|[(x & r & ? & _)|[(? & _)|(r & c & m2 & tl & ? & _)]]];
            done. }
        destruct (isend_with_cases _ _ _ _ _ _ _ _ _ Hn Hwith)
          as (e1 & bb1 & w1 & evs1 & _ & _ & _ & Hcase).
        destruct Hcase as [(_ & ? & _)
                          |[(_ & p & _ & _ & Hfd)
                          |(_ & _ & e2 & bb2 & w2 & evs2 & _ & _ & _ & Hcase2)]];
          [done|by eapply Hfound|].
        destruct Hcase2 as [(p & _ & _ & Hfd)|(_ & ? & _)]; [by eapply Hfound|done].
      * unfold isend_bsendbuffer in Hsel.
        destruct (comm_bsendbuffer comm); [done|].
        destruct (session_ptr comm ≫= session_bsendbuffer); [done|].
        by destruct process.
    + intros (Hc & Hs & ->). exists (isend_packsize a), None, comm, None, w.
      unfold MPIR_Bsend_isend, isend_bsendbuffer. by rewrite Hc, Hs.
  - intros s bb e out comm' process' w' lo hi k HM Hk Hh Hlo Hhi Hpk Hps Hbound Hsel Har Hrun.
    rewrite (isend_chosen n a comm process w s bb Hsel) in Hrun.
    destruct (isend_with _ _ _ _ _) as [[[[e' out'] bb'] w'']|] eqn:Hwith; [|done].
    injection Hrun as -> -> <- <- ->.
    destruct (isend_with_region lo hi 1 Hlo Hhi Hh (Z.divide_1_l _) (Z.divide_1_l _)
                n a k (mem w) bb w e out bb' w'
                Hn HM Hk Hpk Hps Hbound Har ltac:(done) Hwith) as (_ & Hout).
    split; [by destruct s|]. split; [done|].
    intros bo l _ Hl Hdl. rewrite Forall_forall in Hl. split.
    + eapply dseg_ext; [|exact Hdl]. intros x Hx. unfold links. by rewrite (Hout x (Hl x Hx)).
    + apply Forall_forall. intros x Hx. by apply Hout, Hl.
Qed.

(** C7, as the code has it.  Let [d] divide the header size and
    [MAX_ALIGNMENT] (a power of two): [d = 1] always does, and
    [d = MAX_ALIGNMENT] does when the header size is a multiple of
    [MAX_ALIGNMENT].  Let a buffer live in the region [lo, hi) in blocks
    that have payload capacity equal to span less header and spans that are
    multiples of [d].  Then it does so again after a take (both blocks of a
    split included), after a release (a merged block included) and after a
    whole send, and so every block of its two lists has the two properties.
    Attach makes such a buffer whenever [d] divides the size [sz] that it
    is called with.  With [d = 1], payload capacity is span less header in
    every block of every buffer from attach on, whatever the header size
    and the size; with [d = MAX_ALIGNMENT], the spans stay multiples of
    [MAX_ALIGNMENT] once they are.  Attach itself does not round: the code
    gives the header of its block the span [sz], so that span is a multiple
    of [MAX_ALIGNMENT] exactly when [sz] is. *)
Theorem blocks_keep_sizes (n : nat) k lo hi d :
  MAX_ALIGNMENT = 2 ^ k → 0 ≤ k → 0 ≤ BSENDDATA_HEADER_TRUE_SIZE →
  (d | BSENDDATA_HEADER_TRUE_SIZE) → (d | MAX_ALIGNMENT) →
  0 < lo → hi ≤ 2 ^ 64 →
  (* attach *)
  (∀ slot ptr sz (m : heap),
     buffer (default calloc_BsendBuffer slot) = NULL →
     MPI_BSEND_OVERHEAD ≤ sz → BSENDDATA_HEADER_TRUE_SIZE ≤ sz → 0 < sz →
     let p := ptr + attach_offset ptr in
     lo ≤ p → p + sz ≤ hi → headers_ok lo hi d m →
     ∃ bb' m' b,
       MPIR_Bsend_attach slot ptr sz m = (MPI_SUCCESS, Some bb', m')
       ∧ avail bb' = p ∧ active bb' = NULL
       ∧ m' !! p = Some b
       ∧ size b = total_size b - BSENDDATA_HEADER_TRUE_SIZE ∧ total_size b = sz
       ∧ (block_inv m' p ↔ (MAX_ALIGNMENT | sz))
       ∧ ((d | sz) → arena lo hi d bb' m'))
  (* take *)
  ∧ (∀ bb (m : heap) p sz bb' m',
       arena lo hi d bb m → inside lo hi p →
       0 ≤ sz →
       sz + MAX_ALIGNMENT + BSENDDATA_HEADER_TRUE_SIZE + MIN_BUFFER_BLOCK < 2 ^ 64 →
       MPIR_Bsend_take_buffer bb m p sz = Some (bb', m') →
       arena lo hi d bb' m')
  (* release *)
  ∧ (∀ (fuel : nat) bb (m : heap) p bb' m',
       arena lo hi d bb m → inside lo hi p →
       MPIR_Bsend_free_segment fuel bb m p = Some (bb', m') →
       arena lo hi d bb' m')
  (* send *)
  ∧ (∀ a comm process w s bb e out comm' process' w',
       (2 ≤ n)%nat → packer_bounded → 0 ≤ isend_packsize a →
       isend_packsize a + MAX_ALIGNMENT + BSENDDATA_HEADER_TRUE_SIZE + MIN_BUFFER_BLOCK
         < 2 ^ 64 →
       isend_bsendbuffer comm process = Some (s, bb) →
       arena lo hi d bb (mem w) →
       MPIR_Bsend_isend n a comm process w = Some (e, out, comm', process', w') →
       ∃ bb', (comm', process') = isend_slots s bb' comm process
              ∧ arena lo hi d bb' (mem w'))
  (* the blocks of the two lists *)
  ∧ (∀ bb (m : heap) fl al,
       arena lo hi d bb m →
       dlist m (avail bb) fl → dlist m (active bb) al →
       Forall (λ x, ∃ b, m !! x = Some b
                         ∧ size b = total_size b - BSENDDATA_HEADER_TRUE_SIZE
                         ∧ (d | total_size b)) (fl ++ al)
       ∧ (d = MAX_ALIGNMENT → Forall (block_inv m) (fl ++ al))).
Proof.
  intros HM Hk Hh Hdh Hda Hlo Hhi.
  split_and!.
  - intros slot ptr sz m Hbuf Hov Hsz Hpos p Hp Hpe Hok.
    destruct (attach_fresh slot ptr sz m Hbuf Hov)
      as (b & m' & Hrun & Hb & Htot & Hsize & Hnx & Hpv & Hfr).
    fold p in Hrun, Hb, Hfr.
    rewrite wrap_small in Htot by lia. rewrite wrap_small in Hsize by lia.
    eexists _, m', b. split; [exact Hrun|]. cbn [avail active].
    split; [done|]. split; [done|]. split; [done|]. split; [lia|]. split; [done|].
    split.
    + split.
      * intros (b' & Hb' & _ & Hdiv). assert (b' = b) as -> by congruence.
        by rewrite Htot in Hdiv.
      * intros Hdiv. exists b. split; [done|]. split; [lia|]. by rewrite Htot.
    + intros Hdiv. split; [right; unfold inside; cbn [avail]; lia|]. split; [by left|].
      intros x bx Hx Hbx. destruct (decide (x = p)) as [->|Hne].
      * assert (bx = b) as -> by congruence. unfold header_ok.
        rewrite Hnx, Hpv, Htot, Hsize. split_and!; try done; by left.
      * rewrite Hfr in Hbx by done. by apply Hok.
  - intros bb m p sz bb' m' Har Hp Hsz Hbound Hrun.
    by destruct (take_buffer_region lo hi d Hlo Hhi Hh Hdh Hda bb m m p sz k bb' m'
                   HM Hk Har ltac:(done) Hp Hsz Hbound Hrun).
  - intros fuel bb m p bb' m' Har Hp Hrun.
    by destruct (free_segment_region lo hi d Hlo Hhi Hh fuel bb m m p bb' m'
                   Har ltac:(done) Hp Hrun).
  - intros a comm process w s bb e out comm' process' w' Hn Hpk Hps Hbound Hsel Har Hrun.
    rewrite (isend_chosen n a comm process w s bb Hsel) in Hrun.
    destruct (isend_with _ _ _ _ _) as [[[[e' out'] bb'] w'']|] eqn:Hwith; [|done].
    injection Hrun as -> -> <- <- ->.
    exists bb'. split; [by destruct (isend_slots s bb' comm process)|].
    by destruct (isend_with_region lo hi d Hlo Hhi Hh Hdh Hda
                   n a k (mem w) bb w e out bb' w'
                   Hn HM Hk Hpk Hps Hbound Har ltac:(done) Hwith).
  - intros bb m fl al (Hav & Hact & Hok) Hfl Hal.
    pose proof (arena_dseg lo hi d m _ _ _ _ Hok Hav Hfl) as H1.
    pose proof (arena_dseg lo hi d m _ _ _ _ Hok Hact Hal) as H2.
    assert (Forall (λ x, ∃ b, m !! x = Some b
                              ∧ size b = total_size b - BSENDDATA_HEADER_TRUE_SIZE
                              ∧ (d | total_size b)) (fl ++ al)) as Hall.
    { apply Forall_app. split; (eapply Forall_impl; [eassumption|]).
      all: intros x (_ & b & Hb & (_ & _ & _ & _ & Hs & Hdv)); exists b; done. }
    split; [exact Hall|]. intros ->. exact Hall.
Qed.

End SendDriver.

(** *** The statements above on a run *)



Lemma isend_two_passes_witness :
  ∃ w',
    @MPIR_Bsend_isend lp64 (engine_of 0 1 0 true) 2 send_5000
      (mkComm (Some fresh_buffer) None) None (@world_of (engine_of 0 1 0 true) fresh_heap tt)
    = Some (Err_no_buffer_space 5000 4096, None, mkComm (Some fresh_buffer) None, None, w')
    ∧ trace w' = [EvCheckActive; EvFind 5000 NULL; EvCheckActive; EvFind 5000 NULL]
    ∧ mem w' = fresh_heap.
Proof.
  pose (w0 := @world_of (engine_of 0 1 0 true) fresh_heap tt).
  destruct (@isend_two_passes lp64 (engine_of 0 1 0 true) 2 send_5000
              (mkComm (Some fresh_buffer) None) None w0 CommSlot fresh_buffer) as [_ Hidle].
  - lia.
  - reflexivity.
  - apply (Hidle [4096]).
    + reflexivity.
    + apply dseg_cons. split; [reflexivity|]. split; [done|].
      exists fresh_block. split; [reflexivity|]. split; [reflexivity|]. by apply dseg_nil.
    + cbn. lia.
    + constructor; [|constructor]. intros b Hb. change (fresh_heap !! 4096 = Some b) in Hb.
      vm_compute in Hb. injection Hb as <-. vm_compute. reflexivity.
Defined.


Lemma isend_slot_precedence_witness :
  ∃ w',
    @MPIR_Bsend_isend lp64 (engine_of 0 7 0 true) 2 send_100
      (mkComm (Some fresh_buffer) None) (Some far_buffer)
      (@world_of (engine_of 0 7 0 true) two_heap tt)
    = Some (MPI_SUCCESS, None, mkComm (Some (mkBuffer 4096 4096 4096 4096 4272 4096)) None,
            Some far_buffer, w')
    ∧ dlist (mem w') (avail far_buffer) [16384]
    ∧ Forall (λ x, mem w' !! x = two_heap !! x) [16384].
Proof.
  pose (w0 := @world_of (engine_of 0 7 0 true) two_heap tt).
  destruct (@isend_slot_precedence lp64 (engine_of 0 7 0 true) 2 send_100
              (mkComm (Some fresh_buffer) None) (Some far_buffer) w0 ltac:(lia))
    as (_ & _ & _ & _ & Hframe).
  edestruct (Hframe CommSlot fresh_buffer) with (lo := 4096) (hi := 8192) (k := 4)
    as (_ & _ & Hother).
  - reflexivity.
  - lia.
  - vm_compute. discriminate.
  - lia.
  - lia.
  - intros e buf cnt dt pbuf ps Hps. cbn. lia.
  - vm_compute. discriminate.
  - vm_compute. reflexivity.
  - reflexivity.
  - split; [right; unfold inside; cbn; lia|]. split; [by left|].
    intros x b Hx Hb. change (two_heap !! x = Some b) in Hb. unfold two_heap in Hb.
    apply lookup_insert_Some in Hb as [[<- <-]|[_ Hb]].
    + unfold header_ok. split; [by left|]. split; [by left|].
      split; [vm_compute; discriminate|]. split; [vm_compute; discriminate|].
      split; [reflexivity|apply Z.divide_1_l].
    + apply lookup_singleton_Some in Hb as [<- _]. unfold inside in Hx. lia.
  - vm_compute. reflexivity.
  - destruct (Hother far_buffer [16384]) as (Hdl & Hsame).
    + cbn. apply elem_of_cons. by left.
    + constructor; [|constructor]. unfold inside. lia.
    + apply dseg_cons. split; [reflexivity|]. split; [done|].
      exists far_block. split; [reflexivity|]. split; [reflexivity|]. by apply dseg_nil.
    + eexists. split; [vm_compute; reflexivity|]. split; [exact Hdl|exact Hsame].
Defined.



(** A slot whose record detach left allocated is not empty for a send: the
    record is chosen although it holds no region, and the send fails for
    lack of space whatever the process slot holds. *)
Lemma isend_detached_record_is_chosen :
  isend_bsendbuffer (mkComm (Some (mkBuffer 0 0 NULL 0 NULL NULL)) None) (Some far_buffer)
  = Some (CommSlot, mkBuffer 0 0 NULL 0 NULL NULL)
  ∧ ∃ w',
      @MPIR_Bsend_isend lp64 (engine_of 0 7 0 true) 2 send_100
        (mkComm (Some (mkBuffer 0 0 NULL 0 NULL NULL)) None) (Some far_buffer)
        (@world_of (engine_of 0 7 0 true) two_heap tt)
      = Some (Err_no_buffer_space 100 0, None,
              mkComm (Some (mkBuffer 0 0 NULL 0 NULL NULL)) None, Some far_buffer, w').
Proof. split; [reflexivity|]. eexists. vm_compute. reflexivity. Qed.

(** The claim C7 in its own words does not hold.  Attach of 4097 bytes at
    4096 succeeds and creates one block of span 4097, which is no multiple
    of [MAX_ALIGNMENT = 16]. *)
Lemma attach_span_not_aligned :
  ∃ bb m',
    @MPIR_Bsend_attach lp64 None 4096 4097 ∅ = (MPI_SUCCESS, Some bb, m')
    ∧ avail bb = 4096
    ∧ @sizes m' 4096 = Some (4033, 4097)
    ∧ ¬ @block_inv lp64 m' (avail bb).
Proof.
  eexists _, _. split; [vm_compute; reflexivity|]. split; [reflexivity|].
  split; [reflexivity|].
  intros (b & Hb & _ & Hdiv). vm_compute in Hb. injection Hb as <-.
  destruct Hdiv as [z Hz]. cbn in Hz. lia.
Qed.

Lemma blocks_keep_sizes_witness :
  ∃ bb m bb' w',
    @MPIR_Bsend_attach lp64 None 4096 4097 ∅ = (MPI_SUCCESS, Some bb, m)
    ∧ @arena lp64 4096 8193 1 bb m
    ∧ @MPIR_Bsend_isend lp64 (engine_of 0 7 0 true) 2 send_100
        (mkComm (Some bb) None) None (@world_of (engine_of 0 7 0 true) m tt)
      = Some (MPI_SUCCESS, None, mkComm (Some bb') None, None, w')
    ∧ @arena lp64 4096 8193 1 bb' (mem w')
    ∧ sizes (mem w') 4096 = Some (112, 176)
    ∧ sizes (mem w') 4272 = Some (3857, 3921)
    ∧ (∀ fl al, dlist (mem w') (avail bb') fl → dlist (mem w') (active bb') al →
                Forall (λ x, ∃ b, mem w' !! x = Some b
                                  ∧ size b = total_size b - 64
                                  ∧ (1 | total_size b)) (fl ++ al)).
Proof.
  destruct (@blocks_keep_sizes lp64 (engine_of 0 7 0 true) 2 4 4096 8193 1)
    as (Hattach & _ & _ & Hsend & Hlists).
  - reflexivity.
  - lia.
  - vm_compute. discriminate.
  - apply Z.divide_1_l.
  - apply Z.divide_1_l.
  - lia.
  - lia.
  - destruct (Hattach None 4096 4097 ∅) as (bb & m & b & Hrun & _ & _ & _ & _ & _ & _ & Har).
    + reflexivity.
    + cbn. lia.
    + vm_compute. discriminate.
    + lia.
    + vm_compute. discriminate.
    + vm_compute. discriminate.
    + intros x bx _ Hbx. by rewrite lookup_empty in Hbx.
    + specialize (Har (Z.divide_1_l _)).
      assert ((bb, m) = (mkBuffer 4096 4097 4096 4097 4096 NULL,
                         {[ 4096 := mkData 4033 4097 NULL NULL 0 4160 0 ]})) as Heq.
      { vm_compute in Hrun. injection Hrun as <- <-. vm_compute. reflexivity. }
      injection Heq as -> ->.
      edestruct (Hsend send_100 (mkComm (Some (mkBuffer 4096 4097 4096 4097 4096 NULL)) None)
                   None
                   (@world_of (engine_of 0 7 0 true)
                      {[ 4096 := mkData 4033 4097 NULL NULL 0 4160 0 ]} tt)
                   CommSlot (mkBuffer 4096 4097 4096 4097 4096 NULL))
        as (bb' & Hslots & Har').
      * lia.
      * intros e buf cnt dt pbuf ps Hps. cbn. lia.
      * vm_compute. discriminate.
      * vm_compute. reflexivity.
      * reflexivity.
      * exact Har.
      * vm_compute. reflexivity.
      * cbn in Hslots. injection Hslots as <-.
        eexists _, _, _, _. split; [exact Hrun|]. split; [exact Har|].
        split; [vm_compute; reflexivity|]. split; [exact Har'|].
        split; [vm_compute; reflexivity|]. split; [vm_compute; reflexivity|].
        intros fl al Hfl Hal. by apply (Hlists _ _ fl al Har').
Defined.

(** ** Further properties: the search *)

Section Search.
Context `{Platform}.
Implicit Types (m : heap) (l : list Z).

Lemma find_buffer_from_first_fit (fuel : nat) m prv hd l sz :
  dseg m prv hd l NULL → (length l ≤ fuel)%nat →
  ∃ r, find_buffer_from fuel m hd sz = Some r
    ∧ ((r = NULL ∧ Forall (λ x, ∀ b, m !! x = Some b → size b < sz) l)
       ∨ (∃ l1 l2 b, l = l1 ++ r :: l2 ∧ m !! r = Some b ∧ sz ≤ size b
            ∧ Forall (λ x, ∀ b, m !! x = Some b → size b < sz) l1)).
Proof.
  revert fuel prv hd. induction l as [|a l IH]; intros fuel prv hd Hl Hfuel.
  - apply dseg_nil in Hl as ->. exists NULL. split; [by destruct fuel|]. left. by split.
  - apply dseg_cons in Hl as (-> & Ha & b & Hb & _ & Hl).
    destruct fuel as [|fuel]; [cbn in Hfuel; lia|]. cbn [find_buffer_from].
    rewrite decide_False by done. rewrite (rd_Some m a b size Hb). cbn [mbind option_bind].
    destruct (decide (sz ≤ size b)) as [Hfit|Hsmall].
    + exists a. split; [done|]. right. exists [], l, b. by split_and!.
    + rewrite (rd_Some m a b next Hb). cbn [mbind option_bind].
      destruct (IH fuel a (next b) Hl ltac:(cbn in Hfuel; lia)) as (r & Hrun & Hcase).
      exists r. split; [done|].
      assert (∀ b', m !! a = Some b' → size b' < sz) as Hsa.
      { intros b' Hb'. assert (b' = b) as -> by congruence. lia. }
      destruct Hcase as [(-> & Hall)|(l1 & l2 & br & -> & Hbr & Hfit & Hall)].
      * left. split; [done|]. by constructor.
      * right. exists (a :: l1), l2, br. split_and!; try done. by constructor.
Qed.

(** X1.  On a free list [fl], with fuel for its length, the search returns
    the first block of the list, in list order, whose payload capacity is at
    least the size asked for: every block before it is too small.  It
    returns [NULL] exactly when every block of the list is too small. *)
Theorem find_buffer_first_fit (fuel : nat) bb m fl sz :
  dlist m (avail bb) fl → (length fl ≤ fuel)%nat →
  ∃ r, MPIR_Bsend_find_buffer fuel bb m sz = Some r
    ∧ ((r = NULL ∧ Forall (λ x, ∀ b, m !! x = Some b → size b < sz) fl)
       ∨ (∃ l1 l2 b, fl = l1 ++ r :: l2 ∧ m !! r = Some b ∧ sz ≤ size b
            ∧ Forall (λ x, ∀ b, m !! x = Some b → size b < sz) l1)).
Proof. intros Hfl Hfuel. by apply (find_buffer_from_first_fit fuel m NULL). Qed.

End Search.

Lemma find_buffer_first_fit_witness :
  MPIR_Bsend_find_buffer 2 split_buffer split_heap 200 = Some 4448
  ∧ (∀ b, split_heap !! 4096 = Some b → size b < 200).
Proof.
  destruct (find_buffer_first_fit 2 split_buffer split_heap [4096; 4448] 200)
    as (r & Hrun & Hcase).
  - apply dseg_cons. split; [reflexivity|]. split; [done|].
    exists left_block. split; [reflexivity|]. split; [reflexivity|].
    apply dseg_cons. split; [reflexivity|]. split; [done|].
    exists right_block. split; [reflexivity|]. split; [reflexivity|]. by apply dseg_nil.
  - cbn. lia.
  - assert (r = 4448) as -> by (vm_compute in Hrun; congruence).
    split; [exact Hrun|].
    destruct Hcase as [(Hnull & _)|(l1 & l2 & b & Hfl & _ & _ & Hall)]; [done|].
    destruct l1 as [|x l1]; [done|]. injection Hfl as <- Hfl.
    by apply Forall_cons in Hall as [Hx _].
Defined.

(** ** Further properties: attach, detach, finalize *)

Section Lifecycle.
Context `{Platform} `{Collaborators}.
Implicit Types (m : heap) (l : list Z) (w : world) (bb : BsendBuffer).

(** X2.  Attach checks the slot before the size.  On a slot that holds a
    region it fails with "buffer exists", whatever the size, and changes
    nothing.  On a slot without a region and with a size below
    [MPI_BSEND_OVERHEAD] it fails with "buffer too small", carrying the size
    and the overhead; the memory is unchanged, but the slot's record is
    allocated from then on.  So after an attach that succeeded on a region
    whose aligned base is not null, every further attach on the process slot
    is refused and leaves the slot and the memory as they are. *)
Theorem attach_refusals slot ptr sz m :
  (buffer (default calloc_BsendBuffer slot) ≠ NULL →
     MPIR_Bsend_attach slot ptr sz m = (Err_bufexists, slot, m))
  ∧ (buffer (default calloc_BsendBuffer slot) = NULL → sz < MPI_BSEND_OVERHEAD →
     MPIR_Bsend_attach slot ptr sz m
     = (Err_bsendbufsmall sz MPI_BSEND_OVERHEAD, Some (default calloc_BsendBuffer slot), m))
  ∧ (∀ bb m1 ptr2 sz2 m2,
       MPIR_Buffer_attach_impl slot ptr sz m = (MPI_SUCCESS, Some bb, m1) →
       ptr + attach_offset ptr ≠ NULL →
       buffer bb = ptr + attach_offset ptr
       ∧ MPIR_Buffer_attach_impl (Some bb) ptr2 sz2 m2 = (Err_bufexists, Some bb, m2)).
Proof.
  split_and!.
  - intros Hbuf. unfold MPIR_Bsend_attach. rewrite decide_True by done.
    destruct slot as [bb|]; [done|]. by destruct Hbuf.
  - intros Hbuf Hsz. unfold MPIR_Bsend_attach. rewrite decide_False by (by intros []).
    by rewrite decide_True.
  - intros bb m1 ptr2 sz2 m2 Hrun Hnn. unfold MPIR_Buffer_attach_impl in *.
    assert (buffer (default calloc_BsendBuffer slot) = NULL ∧ MPI_BSEND_OVERHEAD ≤ sz)
      as [Hbuf Hsz].
    { unfold MPIR_Bsend_attach in Hrun.
      destruct (decide (buffer (default calloc_BsendBuffer slot) ≠ NULL)); [done|].
      destruct (decide (sz < MPI_BSEND_OVERHEAD)); [done|].
      split; [|lia]. by destruct (decide (buffer (default calloc_BsendBuffer slot) = NULL)). }
    destruct (attach_fresh slot ptr sz m Hbuf Hsz) as (b & m' & Hrun' & _).
    rewrite Hrun' in Hrun. injection Hrun as <- <-. cbn [buffer]. split; [done|].
    unfold MPIR_Bsend_attach. cbn [default buffer]. by rewrite decide_True.
Qed.

(** X3.  A second detach, after one that succeeded, makes no wait, stores
    [(NULL, 0)] and succeeds, leaving the slot and the world as it found
    them. *)
Theorem detach_twice (fuel fuel' : nat) process w out process' w1 :
  MPIR_Buffer_detach_impl fuel process w = Some (MPI_SUCCESS, out, process', w1) →
  MPIR_Buffer_detach_impl fuel' process' w1 = Some (MPI_SUCCESS, Some (NULL, 0), process', w1).
Proof.
  unfold MPIR_Buffer_detach_impl, MPIR_Bsend_detach. destruct process as [bb|].
  - destruct (if decide (active bb ≠ NULL) then _ else _) as [[e wx]|]; [|done].
    cbn [mbind option_bind]. destruct (decide (e ≠ 0)); [done|].
    intros [= <- <- <-]. cbn [active origbuffer origbuffer_size].
    rewrite decide_False by (by intros []). cbn [mbind option_bind].
    by rewrite decide_False by (by intros []).
  - by intros [= <- <- <-].
Qed.

Lemma detach_wait_stops (fuel : nat) w p prv l1 a l2 (code : Z → Z) :
  (∀ e r, (MPID_Wait e r).1 = code r) →
  dseg (mem w) prv p (l1 ++ a :: l2) NULL → (length l1 < fuel)%nat →
  Forall (λ x, code (request_of (mem w) x) = 0) l1 →
  code (request_of (mem w) a) ≠ 0 →
  ∃ w', detach_wait fuel w p = Some (code (request_of (mem w) a), w')
        ∧ mem w' = mem w
        ∧ trace w' = trace w ++ drain_events (mem w) l1 ++ [EvWait (request_of (mem w) a)].
Proof.
  intros Hcode. revert fuel w p prv.
  induction l1 as [|x l1 IH]; intros fuel w p prv Hl Hfuel Hok Hbad.
  - cbn [app] in Hl. apply dseg_cons in Hl as (-> & Ha & b & Hb & _ & _).
    destruct fuel as [|fuel]; [cbn in Hfuel; lia|].
    cbn [detach_wait]. rewrite decide_False by done.
    rewrite (rd_Some _ _ _ _ Hb). cbn [mbind option_bind].
    assert (request_of (mem w) a = request b) as Hreq by (unfold request_of; by rewrite Hb).
    rewrite Hreq in *.
    pose proof (Hcode (eng w) (request b)) as Hw.
    destruct (MPID_Wait (eng w) (request b)) as [e1 en]. cbn in Hw. subst e1.
    rewrite decide_True by done. eexists. split; [reflexivity|]. by split.
  - cbn [app] in Hl. apply dseg_cons in Hl as (-> & Hx & b & Hb & _ & Hrest).
    destruct fuel as [|fuel]; [cbn in Hfuel; lia|].
    cbn [detach_wait]. rewrite decide_False by done.
    rewrite (rd_Some _ _ _ _ Hb). cbn [mbind option_bind].
    apply Forall_cons in Hok as [Hokx Hok].
    assert (request_of (mem w) x = request b) as Hreq by (unfold request_of; by rewrite Hb).
    rewrite Hreq in Hokx.
    pose proof (Hcode (eng w) (request b)) as Hw.
    destruct (MPID_Wait (eng w) (request b)) as [e1 en]. cbn in Hw. subst e1.
    rewrite decide_False by (intros Hne; by apply Hne).
    cbn [mem log set_eng].
    rewrite (rd_Some _ _ _ _ Hb). cbn [mbind option_bind].
    edestruct (IH fuel (log (EvRequestFree (request b))
                 (set_eng (MPIR_Request_free en (request b))
                    (log (EvWait (request b)) (set_eng en w)))) (next b) x)
      as (w' & Hrun & Hmem & Htr).
    { exact Hrest. }
    { cbn in Hfuel. lia. }
    { exact Hok. }
    { exact Hbad. }
    exists w'. split; [exact Hrun|]. split; [by rewrite Hmem|].
    rewrite Htr. cbn. rewrite Hreq. by rewrite <- !app_assoc.
Qed.

(** X4.  Let the code that a wait reports depend on the request only, and
    let [a] be the first block of the active list whose wait fails.  Detach
    then returns that code: it has waited on and released the requests of
    the blocks before [a], has waited on the request of [a], and has
    neither waited on nor released anything after it.  Nothing is stored
    through [bufferp] and [size], and the slot is left as it was: the buffer
    stays attached, with the blocks whose requests were released still on
    its active list. *)
Theorem detach_stops_at_failed_wait (fuel : nat) bb w l1 a l2 (code : Z → Z) :
  (∀ e r, (MPID_Wait e r).1 = code r) →
  dlist (mem w) (active bb) (l1 ++ a :: l2) → (length l1 < fuel)%nat →
  Forall (λ x, code (request_of (mem w) x) = 0) l1 →
  code (request_of (mem w) a) ≠ 0 →
  ∃ w',
    MPIR_Bsend_detach fuel (Some bb) w
    = Some (Err_other (code (request_of (mem w) a)), None, Some bb, w')
    ∧ mem w' = mem w
    ∧ trace w' = trace w ++ drain_events (mem w) l1 ++ [EvWait (request_of (mem w) a)].
Proof.
  intros Hcode Hal Hfuel Hok Hbad.
  destruct (detach_wait_stops fuel w (active bb) NULL l1 a l2 code Hcode Hal Hfuel Hok Hbad)
    as (w' & Hrun & Hmem & Htr).
  exists w'. split; [|done]. unfold MPIR_Bsend_detach.
  assert (active bb ≠ NULL) as Hact.
  { unfold dlist in Hal. destruct l1; cbn [app] in Hal; apply dseg_cons in Hal as (<- & ? & _);
      done. }
  rewrite decide_True by done. rewrite Hrun. cbn [mbind option_bind].
  by rewrite decide_True.
Qed.

Lemma detach_wait_total (fuel : nat) w p prv l :
  dseg (mem w) prv p l NULL → (length l ≤ fuel)%nat →
  ∃ e w', detach_wait fuel w p = Some (e, w') ∧ mem w' = mem w.
Proof.
  revert fuel w p prv. induction l as [|a l IH]; intros fuel w p prv Hl Hfuel.
  - apply dseg_nil in Hl as ->. exists 0, w. split; [by destruct fuel|done].
  - apply dseg_cons in Hl as (-> & Ha & b & Hb & _ & Hrest).
    destruct fuel as [|fuel]; [cbn in Hfuel; lia|].
    cbn [detach_wait]. rewrite decide_False by done.
    rewrite (rd_Some _ _ _ _ Hb). cbn [mbind option_bind].
    destruct (MPID_Wait (eng w) (request b)) as [e1 en].
    destruct (decide (e1 ≠ 0)); [by eexists _, _|].
    cbn [mem log set_eng]. rewrite (rd_Some _ _ _ _ Hb). cbn [mbind option_bind].
    edestruct (IH fuel (log (EvRequestFree (request b))
                 (set_eng (MPIR_Request_free en (request b))
                    (log (EvWait (request b)) (set_eng en w)))) (next b) a)
      as (e & w' & Hrun & Hmem).
    { exact Hrest. }
    { cbn in Hfuel. lia. }
    by exists e, w'.
Qed.

(** X5.  Finalize of a slot never reports an error and always empties the
    slot, whatever the waits of the detach it runs report; it writes no
    header.  It runs that detach only for a record that holds a region: for
    an empty slot and for a record without a region it touches nothing.  The
    entry points for the process, a communicator and a session do the same
    on their own slot; the one for a communicator leaves its session pointer
    alone. *)
Theorem finalize_clears_slot (fuel : nat) slot w :
  (∀ bb, slot = Some bb → buffer bb ≠ NULL →
         ∃ al, dlist (mem w) (active bb) al ∧ (length al ≤ fuel)%nat) →
  ∃ w',
    MPIR_Process_bsend_finalize fuel slot w = Some (MPI_SUCCESS, None, w')
    ∧ (∀ sp, MPIR_Comm_bsend_finalize fuel (mkComm slot sp) w
             = Some (MPI_SUCCESS, mkComm None sp, w'))
    ∧ MPIR_Session_bsend_finalize fuel (mkSession slot) w
      = Some (MPI_SUCCESS, mkSession None, w')
    ∧ mem w' = mem w
    ∧ ((slot = None ∨ ∃ bb, slot = Some bb ∧ (buffer bb = NULL ∨ active bb = NULL)) → w' = w).
Proof.
  intros Hwf.
  assert (∃ w', MPIR_Bsend_finalize fuel slot w = Some (MPI_SUCCESS, None, w')
                ∧ mem w' = mem w
                ∧ ((slot = None ∨ ∃ bb, slot = Some bb ∧ (buffer bb = NULL ∨ active bb = NULL))
                   → w' = w)) as (w' & Hrun & Hmem & Hidle).
  { unfold MPIR_Bsend_finalize. destruct slot as [bb|].
    - destruct (decide (buffer bb ≠ NULL)) as [Hbuf|Hbuf].
      + destruct (Hwf bb eq_refl Hbuf) as (al & Hal & Hfuel).
        unfold MPIR_Bsend_detach. destruct (decide (active bb ≠ NULL)) as [Hact|Hact].
        * destruct (detach_wait_total fuel w (active bb) NULL al Hal Hfuel)
            as (e & w' & Hrun & Hmem).
          rewrite Hrun. cbn [mbind option_bind].
          exists w'. split; [by destruct (decide (e ≠ 0))|]. split; [done|].
          intros [?|(bb' & [= <-] & [?|?])]; done.
        * cbn [mbind option_bind]. rewrite decide_False by (by intros []).
          cbn [mbind option_bind]. exists w. by split_and!.
      + cbn [mbind option_bind]. exists w. by split_and!.
    - exists w. by split_and!. }
  exists w'. unfold MPIR_Process_bsend_finalize, MPIR_Comm_bsend_finalize,
    MPIR_Session_bsend_finalize. cbn [comm_bsendbuffer session_ptr session_bsendbuffer].
  rewrite Hrun. by split_and!.
Qed.

(** X6.  A record that detach has emptied still fills its slot.  A send
    that resolves to it makes its two searches, packs and sends nothing,
    writes no header and fails with "no buffer space", reporting a buffer of
    size 0: it does not go on to the slots after it. *)
Theorem isend_after_detach (n fuel : nat) a comm process w bb out bb' w1 s :
  (2 ≤ n)%nat →
  MPIR_Bsend_detach fuel (Some bb) w = Some (MPI_SUCCESS, out, Some bb', w1) →
  isend_bsendbuffer comm process = Some (s, bb') →
  let sz := wrap (isend_packsize a) in
  ∃ w2,
    MPIR_Bsend_isend n a comm process w1
    = Some (Err_no_buffer_space (isend_packsize a) 0, None, comm, process, w2)
    ∧ mem w2 = mem w1
    ∧ trace w2 = trace w1 ++ [EvCheckActive; EvFind sz NULL; EvCheckActive; EvFind sz NULL].
Proof.
  intros Hn Hdet Hsel sz.
  assert (bb' = mkBuffer 0 0 NULL 0 0 0) as ->.
  { unfold MPIR_Bsend_detach in Hdet.
    destruct (if decide (active bb ≠ NULL) then _ else _) as [[e wx]|]; [|done].
    cbn [mbind option_bind] in Hdet. destruct (decide (e ≠ 0)); [done|].
    by injection Hdet as _ <- _. }
  assert (isend_slots s (mkBuffer 0 0 NULL 0 0 0) comm process = (comm, process)) as Hslots.
  { unfold isend_bsendbuffer in Hsel. destruct comm as [cb sp]. cbn in Hsel.
    destruct cb as [b|]; [by injection Hsel as <- <-|].
    destruct sp as [[sb]|]; cbn in Hsel.
    - destruct sb as [b|]; [by injection Hsel as <- <-|].
      destruct process; [by injection Hsel as <- <-|done].
    - destruct process; [by injection Hsel as <- <-|done]. }
  rewrite (isend_chosen n a comm process w1 s _ Hsel), isend_with_unfold by done.
  fold sz. rewrite (check_active_idle n _ w1) by done. cbn [mbind option_bind].
  rewrite decide_False by (by intros []).
  assert (∀ m, MPIR_Bsend_find_buffer n (mkBuffer 0 0 NULL 0 0 0) m sz = Some NULL) as Hfind.
  { intros m. unfold MPIR_Bsend_find_buffer. cbn [avail]. by destruct n. }
  rewrite Hfind. cbn [mbind option_bind]. rewrite decide_False by (by intros []).
  rewrite (check_active_idle n _ _) by done. cbn [mbind option_bind].
  rewrite Hfind. cbn [mbind option_bind]. rewrite decide_False by (by intros []).
  rewrite Hslots. cbn [fst snd buffer_size].
  eexists. split; [reflexivity|]. cbn [mem trace log]. split; [done|].
  by rewrite <- !app_assoc.
Qed.

(** X7.  When the active list is not empty and the poll of the progress
    engine at the start of a send fails, the send returns the code of the
    poll without searching: nothing is released, packed or sent, no header
    is written, and the slots are as they were. *)
Theorem isend_aborted_by_progress_error (n : nat) a comm process w s bb e en :
  isend_bsendbuffer comm process = Some (s, bb) →
  active bb ≠ NULL → MPID_Progress_test (eng w) = (e, en) → e ≠ 0 →
  ∃ w',
    MPIR_Bsend_isend n a comm process w
    = Some (Err_other e, None, (isend_slots s bb comm process).1,
            (isend_slots s bb comm process).2, w')
    ∧ mem w' = mem w ∧ eng w' = en
    ∧ trace w' = trace w ++ [EvCheckActive; EvProgressTest]
    ∧ isend_bsendbuffer (isend_slots s bb comm process).1 (isend_slots s bb comm process).2
      = Some (s, bb).
Proof.
  intros Hsel Hact Hpoll He.
  rewrite (isend_chosen n a comm process w s bb Hsel).
  unfold isend_with, MPIR_Bsend_check_active. rewrite decide_True by done.
  cbn [eng log]. rewrite Hpoll. rewrite decide_True by done. cbn [mbind option_bind].
  rewrite decide_True by done.
  eexists. split; [reflexivity|]. cbn [mem eng trace log set_eng].
  split; [done|]. split; [done|]. split; [by rewrite <- app_assoc|].
  unfold isend_bsendbuffer in *. destruct comm as [cb sp]. cbn in *.
  destruct cb as [b|]; [by injection Hsel as <- <-|].
  destruct sp as [[sb]|]; cbn in *.
  - destruct sb as [b|]; [by injection Hsel as <- <-|].
    destruct process; [by injection Hsel as <- <-|done].
  - destruct process; [by injection Hsel as <- <-|done].
Qed.

End Lifecycle.

(** ** Further properties: the allocator *)

Section Allocator.
Context `{Platform}.
Implicit Types (m : heap) (l : list Z).

(** X8.  The padding of a request, for [MAX_ALIGNMENT] a power of two.  As
    long as the padded size fits [size_t], the result is the least multiple
    of [MAX_ALIGNMENT] that is at least the request: a multiple, at least
    [n], less than [n + MAX_ALIGNMENT], and [n] itself when [n] is a
    multiple already; padding twice changes nothing.  For a request within
    [MAX_ALIGNMENT] of [2^64] that is no multiple, the padded size wraps
    to 0. *)
Theorem alloc_size_of_rounds n k :
  MAX_ALIGNMENT = 2 ^ k → 0 ≤ k ≤ 64 → 0 ≤ n < 2 ^ 64 →
  (n + MAX_ALIGNMENT ≤ 2 ^ 64 →
     (MAX_ALIGNMENT | alloc_size_of n)
     ∧ n ≤ alloc_size_of n < n + MAX_ALIGNMENT
     ∧ alloc_size_of (alloc_size_of n) = alloc_size_of n)
  ∧ ((MAX_ALIGNMENT | n) → alloc_size_of n = n)
  ∧ (2 ^ 64 - MAX_ALIGNMENT < n → ¬ (MAX_ALIGNMENT | n) → alloc_size_of n = 0).
Proof.
  intros HM Hk Hn.
  assert (0 < MAX_ALIGNMENT) as Hpos by (rewrite HM; apply Z.pow_pos_nonneg; lia).
  assert (∀ x, Z.land x (MAX_ALIGNMENT - 1) = x mod MAX_ALIGNMENT) as Hland.
  { intros x. rewrite HM, <- Z.land_ones by lia. by rewrite Z.ones_equiv, <- Z.sub_1_r. }
  assert (∀ x, (MAX_ALIGNMENT | x) → alloc_size_of x = x) as Hfix.
  { intros x Hx. unfold alloc_size_of. rewrite Hland.
    apply Z.mod_divide in Hx; [|lia]. by rewrite decide_False by (intros Hne; by apply Hne). }
  split_and!.
  - intros Hfit. rewrite (alloc_size_of_round_up n k) by (try done; lia).
    destruct (round_up_spec n MAX_ALIGNMENT Hpos) as [Hdiv Hbound].
    split; [done|]. split; [done|]. by apply Hfix.
  - apply Hfix.
  - intros Hbig Hndiv. unfold alloc_size_of. rewrite Hland.
    assert (n mod MAX_ALIGNMENT ≠ 0) as Hrem.
    { intros Hz. apply Hndiv. apply Z.mod_divide; [lia|done]. }
    rewrite decide_True by done.
    assert (n + (MAX_ALIGNMENT - n mod MAX_ALIGNMENT) = 2 ^ 64) as ->; [|done].
    assert (MAX_ALIGNMENT ≠ 0) as Hne by lia.
    pose proof (Z.div_mod n MAX_ALIGNMENT Hne) as Hdm.
    pose proof (Z.mod_pos_bound n MAX_ALIGNMENT Hpos) as Hr.
    assert (2 ^ 64 = MAX_ALIGNMENT * 2 ^ (64 - k)) as Hq.
    { rewrite HM, <- Z.pow_add_r by lia. f_equal. lia. }
    set (q := n / MAX_ALIGNMENT) in *. set (Q := 2 ^ (64 - k)) in *.
    assert (q + 1 = Q) as Hqq by nia.
    nia.
Qed.

(** X9.  What a taken block holds.  For a request of [n] bytes that fits
    the block [p] of the free list, the block that take puts on the active
    list has a payload capacity of at least [n], never more than the block
    had, and less than [n] padded plus a header plus [MIN_BUFFER_BLOCK]: a
    remainder that could be a block of its own is always split off.  Its
    span is its payload capacity plus the header. *)
Theorem take_buffer_slack bb m p n l1 l2 al bp k :
  MAX_ALIGNMENT = 2 ^ k → 0 ≤ k < 62 →
  0 ≤ BSENDDATA_HEADER_TRUE_SIZE →
  dlist m (avail bb) (l1 ++ p :: l2) → dlist m (active bb) al →
  disj (l1 ++ p :: l2) al →
  m !! p = Some bp → 0 < p →
  size bp = total_size bp - BSENDDATA_HEADER_TRUE_SIZE → total_size bp < 2 ^ 63 →
  0 ≤ n ≤ size bp →
  (round_up n MAX_ALIGNMENT + BSENDDATA_HEADER_TRUE_SIZE + MIN_BUFFER_BLOCK ≤ size bp →
   p + BSENDDATA_HEADER_TRUE_SIZE + round_up n MAX_ALIGNMENT ∉ (l1 ++ p :: l2) ++ al) →
  ∃ bb' m' bp',
    MPIR_Bsend_take_buffer bb m p n = Some (bb', m')
    ∧ m' !! p = Some bp'
    ∧ n ≤ size bp' ≤ size bp
    ∧ size bp' < round_up n MAX_ALIGNMENT + BSENDDATA_HEADER_TRUE_SIZE + MIN_BUFFER_BLOCK
    ∧ total_size bp' = size bp' + BSENDDATA_HEADER_TRUE_SIZE.
Proof.
  intros HM Hk Hh Hfl Hal Hdisj Hbp Hp0 Hsz Htot Hn Hq.
  destruct (take_buffer_spec bb m p n l1 l2 al bp k HM Hk Hh Hfl Hal Hdisj Hbp Hp0 Hsz Htot
              Hn Hq) as (bb' & m' & Hrun & _ & _ & _ & _ & Hcase).
  assert (0 < MAX_ALIGNMENT) as Hpos by (rewrite HM; apply Z.pow_pos_nonneg; lia).
  pose proof (round_up_spec n MAX_ALIGNMENT Hpos) as (_ & Hru).
  assert (∀ s t, sizes m' p = Some (s, t) → ∃ bp', m' !! p = Some bp' ∧ size bp' = s
                                                  ∧ total_size bp' = t) as Hlook.
  { unfold sizes. intros s t Hs. destruct (m' !! p) as [b|]; [|done]. cbn in Hs.
    injection Hs as <- <-. by exists b. }
  cbv zeta in Hcase. case_decide as Hfit.
  - destruct Hcase as (_ & _ & _ & Hp').
    destruct (Hlook _ _ Hp') as (bp' & Hbp' & Hs & Ht).
    exists bb', m', bp'. unfold MIN_BUFFER_BLOCK in *. split_and!; try done; lia.
  - destruct Hcase as (_ & Hsame). specialize (Hsame p).
    rewrite (sizes_lookup _ _ _ Hbp) in Hsame.
    destruct (Hlook _ _ Hsame) as (bp' & Hbp' & Hs & Ht).
    exists bb', m', bp'. split_and!; try done; lia.
Qed.

(** *** The bytes of the two lists *)

Lemma total_span_app m l1 l2 : total_span m (l1 ++ l2) = total_span m l1 + total_span m l2.
Proof.
  unfold total_span. induction l1 as [|a l1 IH]; [done|]. cbn in *. rewrite IH. lia.
Qed.

Lemma total_span_cons m a l : total_span m (a :: l) = span m a + total_span m l.
Proof. done. Qed.

Lemma total_span_ext m m' l :
  (∀ a, a ∈ l → span m' a = span m a) → total_span m' l = total_span m l.
Proof.
  intros Hl. induction l as [|a l IH]; [done|]. rewrite !total_span_cons.
  rewrite Hl by left. rewrite IH; [done|]. intros x Hx. apply Hl. by right.
Qed.

Lemma total_span_spans m l : total_span m l = sum_spans (spans m l).
Proof.
  unfold total_span, sum_spans, spans. rewrite <- list_fmap_compose. done.
Qed.

Lemma sum_spans_insert_block p (L : list (Z * Z)) :
  sum_spans (insert_block p L) = p.2 + sum_spans L.
Proof.
  induction L as [|a L IH]; [done|]. cbn [insert_block]. case_decide; [done|].
  unfold sum_spans in *. cbn in *. rewrite IH. lia.
Qed.

Lemma sum_spans_join_next a acc : sum_spans (join_next a acc) = a.2 + sum_spans acc.
Proof.
  unfold join_next. destruct acc as [|b r]; [done|]. case_decide; [|done].
  unfold sum_spans. cbn. lia.
Qed.

Lemma sum_spans_coalesce (L : list (Z * Z)) : sum_spans (coalesce L) = sum_spans L.
Proof.
  induction L as [|a L IH]; [done|]. unfold coalesce in *. cbn [foldr].
  rewrite sum_spans_join_next, IH. done.
Qed.

(** The headers that a release does not resize. *)
Lemma free_segment_sizes_other (fuel : nat) bb m p fl a1 a2 bb' m' :
  dlist m (avail bb) fl →
  dlist m (active bb) (a1 ++ p :: a2) →
  disj fl (a1 ++ p :: a2) →
  (length fl ≤ fuel)%nat →
  MPIR_Bsend_free_segment fuel bb m p = Some (bb', m') →
  ∀ x, x ∉ p :: fl → sizes m' x = sizes m x.
Proof.
  intros Hfl Hal Hdisj Hfuel Hrun x Hx.
  destruct (free_segment_spec fuel bb m p fl a1 a2 Hfl Hal Hdisj Hfuel)
    as (bb1 & m1 & f1 & f2 & bp & Hrun1 & _ & -> & _ & _ & _ & _ & _ & Hcase).
  rewrite Hrun in Hrun1. injection Hrun1 as <- <-. cbv zeta in Hcase.
  apply not_elem_of_cons in Hx as [Hxp Hxfl]. apply not_elem_of_app in Hxfl as [Hx1 Hx2].
  destruct Hcase as [(_ & _ & _ & Hs)
                    |[(r & t & _ & _ & _ & _ & _ & Hs)
                    |[(f1' & a & -> & _ & _ & _ & _ & Hs)
                    |(f1' & a & r & t & -> & _ & _ & _ & _ & _ & Hs)]]].
  - apply Hs.
  - by apply Hs.
  - apply Hs. intros ->. apply Hx1. apply elem_of_app. right. left.
  - apply Hs; [|done]. intros ->. apply Hx1. apply elem_of_app. right. left.
Qed.

(** X10.  Take loses no byte and makes none: the spans of the blocks of the
    free and the active list add up to the same number after it, whether it
    splits the block or takes it whole. *)
Theorem take_buffer_conserves bb m p n l1 l2 al bp k :
  MAX_ALIGNMENT = 2 ^ k → 0 ≤ k < 62 →
  0 ≤ BSENDDATA_HEADER_TRUE_SIZE →
  dlist m (avail bb) (l1 ++ p :: l2) → dlist m (active bb) al →
  disj (l1 ++ p :: l2) al →
  m !! p = Some bp → 0 < p →
  size bp = total_size bp - BSENDDATA_HEADER_TRUE_SIZE → total_size bp < 2 ^ 63 →
  0 ≤ n ≤ size bp →
  (round_up n MAX_ALIGNMENT + BSENDDATA_HEADER_TRUE_SIZE + MIN_BUFFER_BLOCK ≤ size bp →
   p + BSENDDATA_HEADER_TRUE_SIZE + round_up n MAX_ALIGNMENT ∉ (l1 ++ p :: l2) ++ al) →
  ∃ bb' m' fl' al',
    MPIR_Bsend_take_buffer bb m p n = Some (bb', m')
    ∧ dlist m' (avail bb') fl' ∧ dlist m' (active bb') al'
    ∧ total_span m' fl' + total_span m' al'
      = total_span m (l1 ++ p :: l2) + total_span m al.
Proof.
  intros HM Hk Hh Hfl Hal Hdisj Hbp Hp0 Hsz Htot Hn Hq.
  destruct (take_buffer_spec bb m p n l1 l2 al bp k HM Hk Hh Hfl Hal Hdisj Hbp Hp0 Hsz Htot
              Hn Hq) as (bb' & m' & Hrun & Hact & _ & Hsizes & _ & Hcase).
  pose proof (dlists_NoDup _ _ _ _ _ Hfl Hal Hdisj) as Hnd.
  cbv zeta in Hcase, Hsizes. case_decide as Hfit.
  - destruct Hcase as (Hfl' & Hsq & _ & Hsp). specialize (Hq Hfit).
    set (q := p + BSENDDATA_HEADER_TRUE_SIZE + round_up n MAX_ALIGNMENT) in *.
    exists bb', m', (l1 ++ q :: l2), (p :: al). split; [done|]. split; [done|].
    split; [done|].
    assert (∀ x, x ∈ l1 ++ l2 ++ al → span m' x = span m x) as Hsame.
    { intros x Hx. apply sizes_span, Hsizes.
      - intros ->. nodup_atoms Hnd. rewrite !elem_of_app in Hx. tauto.
      - intros ->. apply Hq. rewrite !elem_of_app, elem_of_cons in *. tauto. }
    rewrite !total_span_app, !total_span_cons.
    rewrite (total_span_ext m m' l1), (total_span_ext m m' l2), (total_span_ext m m' al).
    2-4: intros x Hx; apply Hsame; rewrite !elem_of_app; tauto.
    assert (span m' q = total_size bp - (BSENDDATA_HEADER_TRUE_SIZE + round_up n MAX_ALIGNMENT))
      as ->.
    { unfold span, sizes in *. destruct (m' !! q); [|done]. cbn in *. congruence. }
    assert (span m' p = BSENDDATA_HEADER_TRUE_SIZE + round_up n MAX_ALIGNMENT) as ->.
    { unfold span, sizes in *. destruct (m' !! p); [|done]. cbn in *. congruence. }
    rewrite (span_lookup _ _ _ Hbp). lia.
  - destruct Hcase as (Hfl' & Hsame).
    exists bb', m', (l1 ++ l2), (p :: al). split; [done|]. split; [done|]. split; [done|].
    assert (∀ l, total_span m' l = total_span m l) as Hext.
    { intros l. apply total_span_ext. intros x _. apply sizes_span, Hsame. }
    rewrite !Hext, !total_span_app, !total_span_cons. lia.
Qed.

(** X11.  Release loses no byte and makes none: on a free list in address
    order with no two blocks adjacent, the spans of the blocks of the free
    and the active list add up to the same number after the release of a
    block of the active list, whichever neighbours it was merged with. *)
Theorem free_segment_conserves (fuel : nat) bb m p fl al :
  0 ≤ BSENDDATA_HEADER_TRUE_SIZE →
  dlist m (avail bb) fl → dlist m (active bb) al → p ∈ al → disj fl al →
  ascending fl → apart m fl →
  (∀ a, a ∈ p :: fl → block_ok m a) →
  (length fl ≤ fuel)%nat →
  ∃ bb' m' fl' al',
    MPIR_Bsend_free_segment fuel bb m p = Some (bb', m')
    ∧ dlist m' (avail bb') fl' ∧ dlist m' (active bb') al'
    ∧ total_span m' fl' + total_span m' al' = total_span m fl + total_span m al.
Proof.
  intros Hh Hfl Hal Hp Hdisj Hasc Hap Hok Hfuel.
  destruct (free_segment_invariants fuel bb m p fl al Hh Hfl Hal Hp Hdisj Hasc Hap Hok Hfuel)
    as (bb' & m' & fl' & a1 & a2 & Hrun & Hfl' & _ & _ & _ & Hspans & -> & Hal' & _ & _).
  exists bb', m', fl', (a1 ++ a2). split; [done|]. split; [done|]. split; [done|].
  rewrite (total_span_spans m' fl'), Hspans, sum_spans_coalesce, sum_spans_insert_block.
  cbn [snd]. rewrite <- total_span_spans.
  pose proof (dseg_NoDup _ _ _ _ Hal) as Hnd.
  rewrite (total_span_ext m m' (a1 ++ a2)).
  { rewrite !total_span_app, total_span_cons. lia. }
  intros x Hx. apply sizes_span.
  apply (free_segment_sizes_other fuel bb m p fl a1 a2 bb' m' Hfl Hal Hdisj Hfuel Hrun).
  apply not_elem_of_cons. split.
  - intros ->. nodup_atoms Hnd. rewrite elem_of_app in Hx. tauto.
  - intros Hxf. apply (Hdisj x Hxf). rewrite !elem_of_app, elem_of_cons in *. tauto.
Qed.

End Allocator.

(** ** Further properties: the dump of the two lists *)

Section Dump.
Implicit Types (m : heap) (l : list Z).

Lemma dump_from_list (fuel : nat) m prv hd l corrupt :
  dseg m prv hd l NULL → (length l ≤ fuel)%nat →
  dump_from fuel m hd corrupt = Some ((λ a, DumpBlock a (span m a)) <$> l).
Proof.
  revert fuel prv hd. induction l as [|a l IH]; intros fuel prv hd Hl Hfuel.
  - apply dseg_nil in Hl as ->. by destruct fuel.
  - pose proof (dseg_NoDup _ _ _ _ Hl) as Hnd.
    apply dseg_cons in Hl as (-> & Ha & b & Hb & _ & Hl).
    destruct fuel as [|fuel]; [cbn in Hfuel; lia|]. cbn [dump_from].
    rewrite decide_False by done.
    rewrite (rd_Some m a b total_size Hb), (rd_Some m a b next Hb). cbn [mbind option_bind].
    assert (a ≠ next b) as Hne.
    { rewrite (dseg_head _ _ _ _ _ Hl). apply NoDup_cons in Hnd as [Hnotin _].
      destruct l as [|x l]; [done|]. cbn. intros ->. apply Hnotin. left. }
    rewrite decide_False by done.
    rewrite (IH fuel a (next b) Hl) by (cbn in Hfuel; lia). cbn [mbind option_bind fmap list_fmap].
    by rewrite (span_lookup _ _ _ Hb).
Qed.

(** X13.  On a buffer whose free list is [fl] and whose active list is
    [al], the dump logs the size of the buffer, then the blocks of the free
    list in list order, each with its span, then those of the active list,
    and then stops; it logs no "corrupt list" line. *)
Theorem dump_logs_both_lists (fuel : nat) bb m fl al :
  dlist m (avail bb) fl → dlist m (active bb) al →
  (length fl ≤ fuel)%nat → (length al ≤ fuel)%nat →
  MPIR_Bsend_dump fuel bb m
  = Some ([DumpTotal (buffer_size bb); DumpAvailList]
          ++ ((λ a, DumpBlock a (span m a)) <$> fl)
          ++ [DumpActiveList]
          ++ ((λ a, DumpBlock a (span m a)) <$> al)
          ++ [DumpEnd]).
Proof.
  intros Hfl Hal Hf1 Hf2. unfold MPIR_Bsend_dump.
  rewrite (dump_from_list fuel m NULL (avail bb) fl _ Hfl Hf1). cbn [mbind option_bind].
  by rewrite (dump_from_list fuel m NULL (active bb) al _ Hal Hf2).
Qed.

Lemma dump_from_self_loop (fuel : nat) m prv hd l a b corrupt :
  dseg m prv hd l a → a ≠ NULL → m !! a = Some b → next b = a →
  Forall (λ x, ∀ bx, m !! x = Some bx → next bx ≠ x) l →
  (length l < fuel)%nat →
  dump_from fuel m hd corrupt
  = Some (((λ x, DumpBlock x (span m x)) <$> l) ++ [DumpBlock a (span m a); corrupt]).
Proof.
  intros Hl Ha Hb Hself. revert fuel prv hd Hl.
  induction l as [|x l IH]; intros fuel prv hd Hl Hok Hfuel.
  - apply dseg_nil in Hl as ->.
    destruct fuel as [|fuel]; [cbn in Hfuel; lia|]. cbn [dump_from].
    rewrite decide_False by done.
    rewrite (rd_Some m a b total_size Hb), (rd_Some m a b next Hb). cbn [mbind option_bind].
    rewrite decide_True by done. by rewrite (span_lookup _ _ _ Hb).
  - apply dseg_cons in Hl as (-> & Hx & bx & Hbx & _ & Hl).
    apply Forall_cons in Hok as [Hokx Hok].
    destruct fuel as [|fuel]; [cbn in Hfuel; lia|]. cbn [dump_from].
    rewrite decide_False by done.
    rewrite (rd_Some m x bx total_size Hbx), (rd_Some m x bx next Hbx).
    cbn [mbind option_bind].
    rewrite decide_False by (intros Heq; by apply (Hokx bx Hbx)).
    rewrite (IH fuel x (next bx) Hl Hok) by (cbn in Hfuel; lia).
    cbn [mbind option_bind fmap list_fmap app]. by rewrite (span_lookup _ _ _ Hbx).
Qed.

Lemma dump_from_two_cycle (fuel : nat) m a b ba bb_ corrupt :
  a ≠ NULL → b ≠ NULL → a ≠ b →
  m !! a = Some ba → next ba = b → m !! b = Some bb_ → next bb_ = a →
  dump_from fuel m a corrupt = None ∧ dump_from fuel m b corrupt = None.
Proof.
  intros Ha Hb Hab Hba Hna Hbb Hnb. induction fuel as [|fuel [IHa IHb]].
  - cbn. by rewrite !decide_False by done.
  - cbn [dump_from]. rewrite !decide_False by done.
    rewrite (rd_Some m a ba total_size Hba), (rd_Some m a ba next Hba).
    rewrite (rd_Some m b bb_ total_size Hbb), (rd_Some m b bb_ next Hbb).
    cbn [mbind option_bind]. rewrite Hna, Hnb.
    rewrite decide_False by done. rewrite (decide_False (P := b = a)) by (by intros ->).
    by rewrite IHa, IHb.
Qed.

(** X14.  The corruption check of the dump sees a block that points at
    itself and nothing else.  When the walk along the free list reaches a
    block whose [next] is the block itself, the dump logs that block, logs
    the "corrupt list" line and leaves the loop.  When two blocks of the
    free list point at each other, the loop never ends: no amount of fuel
    gives a result. *)
Theorem dump_corruption_check m bb :
  (∀ (fuel : nat) l a b,
     dseg m NULL (avail bb) l a → a ≠ NULL → m !! a = Some b → next b = a →
     Forall (λ x, ∀ bx, m !! x = Some bx → next bx ≠ x) l →
     (length l < fuel)%nat →
     dump_from fuel m (avail bb) DumpCorruptAvail
     = Some (((λ x, DumpBlock x (span m x)) <$> l)
             ++ [DumpBlock a (span m a); DumpCorruptAvail]))
  ∧ (∀ b ba bb_,
       avail bb ≠ NULL → b ≠ NULL → avail bb ≠ b →
       m !! avail bb = Some ba → next ba = b → m !! b = Some bb_ → next bb_ = avail bb →
       ∀ fuel : nat, MPIR_Bsend_dump fuel bb m = None).
Proof.
  split.
  - intros fuel l a b Hl Ha Hb Hself Hok Hfuel. by eapply dump_from_self_loop.
  - intros b ba bb_ Ha Hb Hab Hba Hna Hbb Hnb fuel. unfold MPIR_Bsend_dump.
    by destruct (dump_from_two_cycle fuel m (avail bb) b ba bb_ DumpCorruptAvail
                   Ha Hb Hab Hba Hna Hbb Hnb) as [-> _].
Qed.

End Dump.

(** ** Further properties: a block taken and released again *)

Section RoundTrip.
Context `{Platform}.
Implicit Types (m : heap) (l : list Z).

Lemma separated_around m l1 p l2 :
  separated m (l1 ++ p :: l2) →
  (∀ a, last l1 = Some a → block_end m a ≤ p)
  ∧ (∀ r, head l2 = Some r → block_end m p ≤ r).
Proof.
  induction l1 as [|x l1 IH]; cbn [app separated].
  - intros [Hp _]. split; [discriminate|done].
  - intros [Hx Hrest]. destruct (IH Hrest) as [Hl Hr]. split; [|done].
    intros a Ha. destruct l1 as [|y l1].
    + cbn in Ha. injection Ha as <-. by apply Hx.
    + apply Hl. by rewrite last_cons_cons in Ha.
Qed.

Lemma spans_fst m l : (spans m l).*1 = l.
Proof. unfold spans. rewrite <- list_fmap_compose. by rewrite list_fmap_id. Qed.

Lemma block_ok_of_sizes m a s t :
  sizes m a = Some (s, t) → 0 < a → a + t ≤ 2 ^ 64 → 0 ≤ s →
  s = t - BSENDDATA_HEADER_TRUE_SIZE → block_ok m a.
Proof.
  unfold sizes, block_ok. intros Hs Ha Hend Hs0 Hst.
  destruct (m !! a) as [b|]; [|done]. cbn in Hs. injection Hs as <- <-. by exists b.
Qed.

Lemma ascending_around l1 p l2 :
  ascending (l1 ++ p :: l2) →
  ascending l1 ∧ ascending l2 ∧ (∀ x, x ∈ l1 → x < p) ∧ (∀ y, y ∈ l2 → p < y)
  ∧ (∀ x y, x ∈ l1 → y ∈ l2 → x < y).
Proof.
  unfold ascending. intros Hasc. apply StronglySorted_app in Hasc as (H12 & Hs1 & Hs2).
  apply StronglySorted_cons in Hs2 as [Hall Hs2]. rewrite Forall_forall in Hall.
  split_and!; try done.
  - intros x Hx. apply H12; [done|]. left.
  - intros x y Hx Hy. apply H12; [done|]. by right.
Qed.

(** X12.  Take then release is a round trip.  Let the free list be in
    address order, with no two blocks adjacent or overlapping, and let no
    block of the active list start inside the block [p] of the free list.
    Taking [n] bytes from [p] and then releasing [p] leaves the free list
    with the same blocks and the same spans as before the take, and the
    active list with the same blocks: the remainder that a split creates is
    merged back. *)
Theorem take_then_free_restores (fuel : nat) bb m p n l1 l2 al bp k :
  MAX_ALIGNMENT = 2 ^ k → 0 ≤ k < 62 →
  0 < BSENDDATA_HEADER_TRUE_SIZE →
  dlist m (avail bb) (l1 ++ p :: l2) → dlist m (active bb) al →
  disj (l1 ++ p :: l2) al →
  ascending (l1 ++ p :: l2) → apart m (l1 ++ p :: l2) → separated m (l1 ++ p :: l2) →
  (∀ a, a ∈ l1 ++ p :: l2 → block_ok m a) →
  (∀ x, x ∈ al → x < p ∨ block_end m p ≤ x) →
  m !! p = Some bp → total_size bp < 2 ^ 63 →
  0 ≤ n ≤ size bp →
  (length (l1 ++ p :: l2) ≤ fuel)%nat →
  ∃ bb1 m1 bb2 m2,
    MPIR_Bsend_take_buffer bb m p n = Some (bb1, m1)
    ∧ MPIR_Bsend_free_segment fuel bb1 m1 p = Some (bb2, m2)
    ∧ dlist m2 (avail bb2) (l1 ++ p :: l2)
    ∧ dlist m2 (active bb2) al
    ∧ spans m2 (l1 ++ p :: l2) = spans m (l1 ++ p :: l2)
    ∧ avail bb2 = avail bb ∧ active bb2 = active bb ∧ same_buffer bb bb2.
Proof.
  intros HM Hk Hh Hfl Hal Hdisj Hasc Hap Hsep Hok Hin Hbp Htot Hn Hfuel.
  assert (0 ≤ BSENDDATA_HEADER_TRUE_SIZE) as Hh0 by lia.
  assert (0 < MAX_ALIGNMENT) as Hpos by (rewrite HM; apply Z.pow_pos_nonneg; lia).
  pose proof (round_up_spec n MAX_ALIGNMENT Hpos) as (_ & Hru).
  destruct (Hok p) as (bp0 & Hbp0 & Hp0 & Hpend & Hps0 & Hpsz).
  { apply elem_of_app. right. left. }
  assert (bp0 = bp) as -> by congruence.
  pose proof (span_lookup _ _ _ Hbp) as Hspan.
  destruct (ascending_around _ _ _ Hasc) as (Hasc1 & Hasc2 & Hlt1 & Hgt2 & H12).
  destruct (separated_around _ _ _ _ Hsep) as (Hsepl & Hsepr).
  pose proof Hap as Hap0.
  apply apart_app in Hap as (Hap1 & Hap2 & Hap12).
  cbn [apart] in Hap2. destruct Hap2 as [Happ Hap2].
  pose proof (dlists_NoDup _ _ _ _ _ Hfl Hal Hdisj) as Hnd.
  assert (∀ y, y ∈ l2 → block_end m p ≤ y) as Hge2.
  { intros y Hy. destruct l2 as [|r t]; [by apply elem_of_nil in Hy|].
    pose proof (Hsepr r eq_refl) as Hr. apply elem_of_cons in Hy as [->|Hy]; [done|].
    unfold ascending in Hasc2. apply StronglySorted_cons in Hasc2 as [Hall _].
    rewrite Forall_forall in Hall. pose proof (Hall y Hy). lia. }
  assert ((p ∉ l1) ∧ (p ∉ l2) ∧ (p ∉ al)) as (Hpl1 & Hpl2 & Hpal).
  { nodup_atoms Hnd. done. }
  unfold block_end in Hge2, Hsepr, Hin, Happ. rewrite Hspan in Hge2, Hsepr, Hin, Happ.
  set (hs := BSENDDATA_HEADER_TRUE_SIZE) in *.
  set (n_al := round_up n MAX_ALIGNMENT) in *.
  set (q := p + hs + n_al) in *.
  assert (n_al + hs + MIN_BUFFER_BLOCK ≤ size bp → q ∉ (l1 ++ p :: l2) ++ al) as Hq.
  { unfold MIN_BUFFER_BLOCK. intros Hfit Hx.
    rewrite !elem_of_app, elem_of_cons in Hx. unfold q in Hx.
    destruct Hx as [[Hx|[Hx|Hx]]|Hx].
    - pose proof (Hlt1 _ Hx). lia.
    - lia.
    - pose proof (Hge2 _ Hx). lia.
    - destruct (Hin _ Hx); lia. }
  destruct (take_buffer_spec bb m p n l1 l2 al bp k HM Hk Hh0 Hfl Hal Hdisj Hbp Hp0 Hpsz Htot
              Hn Hq) as (bb1 & m1 & Hrun & Hact1 & Hsb1 & Hsizes & _ & Hcase).
  fold hs n_al q in Hsizes, Hcase.
  exists bb1, m1.
  (* the free list after the take, and what the release makes of it *)
  assert (∃ fl1,
            dlist m1 (avail bb1) fl1 ∧ disj fl1 (p :: al) ∧ ascending fl1 ∧ apart m1 fl1
            ∧ (∀ a, a ∈ p :: fl1 → block_ok m1 a)
            ∧ (length fl1 ≤ fuel)%nat
            ∧ coalesce (insert_block (p, span m1 p) (spans m1 fl1))
              = spans m (l1 ++ p :: l2)) as (fl1 & Hfl1 & Hdisj1 & Hasc1' & Hap1' & Hok1 & Hfuel1 & Hco).
  { case_decide as Hfit.
    - specialize (Hq Hfit). destruct Hcase as (Hflq & Hsq & Hqmin & Hsp).
      unfold MIN_BUFFER_BLOCK in *.
      assert (∀ x, x ∈ l1 ++ l2 → sizes m1 x = sizes m x) as Hsame.
      { intros x Hx. apply Hsizes.
        - intros ->. rewrite elem_of_app in Hx. tauto.
        - intros ->. apply Hq. rewrite !elem_of_app, elem_of_cons in *. tauto. }
      assert (span m1 p = hs + n_al) as Hsp1.
      { unfold span, sizes in *. destruct (m1 !! p); [|done]. cbn in *. congruence. }
      assert (span m1 q = total_size bp - (hs + n_al)) as Hsq1.
      { unfold span, sizes in *. destruct (m1 !! q); [|done]. cbn in *. congruence. }
      assert (apart m1 l1) as Hapl1.
      { eapply apart_ext; [|exact Hap1]. intros x Hx. apply sizes_span, Hsame.
        apply elem_of_app. by left. }
      assert (apart m1 l2) as Hapl2.
      { eapply apart_ext; [|exact Hap2]. intros x Hx. apply sizes_span, Hsame.
        apply elem_of_app. by right. }
      assert (apart m1 (q :: l2)) as Hapq.
      { split; [|done]. intros b Hb. unfold block_end. rewrite Hsq1.
        pose proof (Happ b Hb). unfold q. lia. }
      assert (∀ a, last l1 = Some a → block_end m1 a = block_end m a) as Hlast.
      { intros a Ha. unfold block_end. f_equal. apply sizes_span, Hsame.
        apply elem_of_app. left. apply last_Some in Ha as [l' ->].
        apply elem_of_app. right. left. }
      exists (l1 ++ q :: l2). split; [done|]. split.
      { intros x Hx Hx'. rewrite elem_of_app, elem_of_cons in Hx.
        rewrite elem_of_cons in Hx'.
        destruct Hx as [Hx|[->|Hx]].
        - destruct Hx' as [->|Hx']; [done|].
          apply (Hdisj x); [|done]. apply elem_of_app. by left.
        - destruct Hx' as [Hx'|Hx']; [unfold q in Hx'; lia|].
          apply Hq. apply elem_of_app. by right.
        - destruct Hx' as [->|Hx']; [done|].
          apply (Hdisj x); [|done]. rewrite elem_of_app, elem_of_cons. tauto. }
      split.
      { apply (ascending_build l1 [q] l2); try done.
        - repeat constructor.
        - intros x y Hx Hy. pose proof (Hlt1 x Hx). cbn in Hy.
          apply elem_of_cons in Hy as [->|Hy]; [unfold q; lia|]. pose proof (Hgt2 y Hy). lia.
        - intros x y Hx Hy. apply list_elem_of_singleton in Hx as ->.
          pose proof (Hge2 y Hy). unfold q. lia. }
      split.
      { apply apart_app. split; [done|]. split; [done|].
        intros a b Ha Hb. cbn in Hb. injection Hb as <-. rewrite (Hlast a Ha).
        pose proof (Hsepl a Ha). unfold q. lia. }
      split.
      { intros a Ha. rewrite elem_of_cons, elem_of_app, elem_of_cons in Ha.
        destruct Ha as [->|[Ha|[->|Ha]]].
        - eapply block_ok_of_sizes; [exact Hsp|done|lia|lia|fold hs; lia].
        - apply (block_ok_sizes m); [apply Hsame; apply elem_of_app; by left|].
          apply Hok. apply elem_of_app. by left.
        - eapply block_ok_of_sizes; [exact Hsq|unfold q; lia|unfold q; lia|lia|fold hs; lia].
        - apply (block_ok_sizes m); [apply Hsame; apply elem_of_app; by right|].
          apply Hok. rewrite elem_of_app, elem_of_cons. tauto. }
      split.
      { rewrite !length_app in *. cbn in *. lia. }
      rewrite Hsp1.
      rewrite (insert_block_spans m1 p (hs + n_al) l1 (q :: l2)).
      2:{ apply Forall_forall. intros x Hx. pose proof (Hlt1 x Hx). lia. }
      2:{ intros r Hr. cbn in Hr. injection Hr as <-. unfold q. lia. }
      assert (coalesce ((p, hs + n_al) :: spans m1 (q :: l2))
              = (p, total_size bp) :: spans m1 l2) as Hc2.
      { rewrite coalesce_cons by done. rewrite join_next_adjacent by (unfold q; lia).
        rewrite Hsq1. do 2 f_equal. lia. }
      rewrite coalesce_app_apart; [|done|].
      2:{ rewrite Hc2. intros a b Ha Hb. cbn in Hb. injection Hb as <-. cbn.
          rewrite (Hlast a Ha). by apply Hap12. }
      rewrite Hc2, spans_app. cbn [spans fmap list_fmap]. rewrite Hspan.
      f_equal; [|f_equal].
      + apply spans_ext. intros x Hx. apply sizes_span, Hsame. apply elem_of_app. by left.
      + apply spans_ext. intros x Hx. apply sizes_span, Hsame. apply elem_of_app. by right.
    - destruct Hcase as (Hfl' & Hsame).
      assert (∀ l, spans m1 l = spans m l) as Hspans.
      { intros l. apply spans_ext. intros x _. apply sizes_span, Hsame. }
      assert (∀ l, apart m l → apart m1 l) as Hapx.
      { intros l. apply apart_ext. intros x _. apply sizes_span, Hsame. }
      exists (l1 ++ l2). split; [done|]. split.
      { intros x Hx Hx'. rewrite elem_of_app in Hx. rewrite elem_of_cons in Hx'.
        destruct Hx' as [->|Hx']; [tauto|].
        apply (Hdisj x); [|done]. rewrite elem_of_app, elem_of_cons. tauto. }
      split.
      { unfold ascending in *. apply StronglySorted_app. by split_and!. }
      split.
      { apply Hapx. apply apart_app. split; [done|]. split; [done|].
        intros a b Ha Hb. pose proof (Hsepl a Ha). pose proof (Hgt2 b).
        assert (b ∈ l2) as Hbl by (destruct l2; [done|]; injection Hb as ->; left).
        pose proof (Hgt2 b Hbl). lia. }
      split.
      { intros a Ha. apply (block_ok_sizes m); [apply Hsame|]. apply Hok.
        rewrite elem_of_cons, elem_of_app in Ha. rewrite elem_of_app, elem_of_cons. tauto. }
      split.
      { rewrite !length_app in *. cbn in *. lia. }
      rewrite (sizes_span _ _ _ (Hsame p)), Hspan, Hspans.
      rewrite (insert_block_spans m p (total_size bp) l1 l2).
      2:{ apply Forall_forall. intros x Hx. pose proof (Hlt1 x Hx). lia. }
      2:{ intros r Hr. apply Hgt2. destruct l2; [done|]. injection Hr as ->. left. }
      assert (coalesce ((p, total_size bp) :: spans m l2)
              = (p, total_size bp) :: spans m l2) as Hc2.
      { rewrite coalesce_cons by done. by apply join_next_apart. }
      rewrite coalesce_app_apart; [|done|].
      2:{ rewrite Hc2. intros a b Ha Hb. cbn in Hb. injection Hb as <-. cbn.
          by apply Hap12. }
      rewrite Hc2, spans_app. cbn [spans fmap list_fmap]. by rewrite Hspan. }
  destruct (free_segment_invariants fuel bb1 m1 p fl1 (p :: al) Hh0 Hfl1 Hact1 ltac:(left)
              Hdisj1 Hasc1' Hap1' Hok1 Hfuel1)
    as (bb2 & m2 & fl2 & a1 & a2 & Hfree & Hfl2 & _ & _ & _ & Hspans2 & Hsplit & Hal2
        & Hsb2 & _).
  rewrite Hco in Hspans2.
  assert (fl2 = l1 ++ p :: l2) as ->.
  { rewrite <- (spans_fst m2 fl2), Hspans2. apply spans_fst. }
  assert (a1 = [] ∧ a2 = al) as [-> ->].
  { destruct a1 as [|x a1]; cbn [app] in Hsplit.
    - by injection Hsplit as <-.
    - injection Hsplit as <- ->. exfalso. apply Hpal. apply elem_of_app. right. left. }
  cbn [app] in Hal2.
  exists bb2, m2. split; [done|]. split; [done|]. split; [done|]. split; [done|].
  split; [done|].
  split.
  { rewrite (dseg_head _ _ _ _ _ Hfl2), (dseg_head _ _ _ _ _ Hfl). done. }
  split.
  { rewrite (dseg_head _ _ _ _ _ Hal2), (dseg_head _ _ _ _ _ Hal). done. }
  destruct Hsb1 as (?&?&?&?), Hsb2 as (?&?&?&?). unfold same_buffer. split_and!; congruence.
Qed.

End RoundTrip.

(** ** Further properties: the send *)

Section SendMore.
Context `{Platform} `{Collaborators}.
Implicit Types (m : heap) (l : list Z) (w : world) (bb : BsendBuffer).

(** *** The request of a header *)

Lemma request_of_wr m y f m' x :
  wr m y f = Some m' → (∀ b, request (f b) = request b) →
  request_of m' x = request_of m x.
Proof.
  intros Hwr Hf. apply wr_inv in Hwr as (b & Hb & ->). unfold request_of.
  destruct (decide (y = x)) as [->|Hne].
  - rewrite lookup_insert_eq, Hb. cbn. apply Hf.
  - by rewrite lookup_insert_ne.
Qed.

Lemma request_of_carve m q f x : x ≠ q → request_of (carve m q f) x = request_of m x.
Proof. intros Hne. unfold request_of. by rewrite carve_ne. Qed.

Ltac reqs :=
  repeat match goal with
  | Hw : wr ?m1 ?y ?f = Some ?m2 |- context [request_of ?m2 ?x] =>
      rewrite (request_of_wr m1 y f m2 x Hw) by (by intros [])
  end;
  rewrite ?request_of_carve by done.

Lemma take_split_request m p alloc m' x :
  take_split m p alloc = Some m' → x ≠ p + BSENDDATA_HEADER_TRUE_SIZE + alloc →
  request_of m' x = request_of m x.
Proof.
  intros Hrun Hx. unfold take_split in Hrun. exec1 Hrun.
  destruct (decide (_ ≤ size b)); [|by injection Hrun as <-].
  cbv zeta in Hrun. exec Hrun; injection Hrun as <-; by reqs.
Qed.

Lemma take_move_request bb m p bb' m' x :
  take_move bb m p = Some (bb', m') → request_of m' x = request_of m x ∧ active bb' = p.
Proof.
  intros Hrun. unfold take_move in Hrun.
  exec Hrun; injection Hrun as <- <-; split; try done; by reqs.
Qed.

Lemma take_buffer_request bb m p n bb' m' x :
  MPIR_Bsend_take_buffer bb m p n = Some (bb', m') →
  x ≠ p + BSENDDATA_HEADER_TRUE_SIZE + alloc_size_of n →
  request_of m' x = request_of m x ∧ active bb' = p.
Proof.
  intros Hrun Hx. unfold MPIR_Bsend_take_buffer in Hrun.
  destruct (take_split m p _) as [m1|] eqn:Hsplit; [|done]. cbn [mbind option_bind] in Hrun.
  destruct (take_move_request _ _ _ _ _ x Hrun) as [-> ->]. split; [|done].
  by apply (take_split_request m p (alloc_size_of n)).
Qed.

Lemma alloc_size_of_nonneg n : 0 ≤ n → 0 ≤ alloc_size_of n.
Proof.
  intros Hn. unfold alloc_size_of. case_decide; [|done]. apply wrap_range.
Qed.

Lemma isend_send_out a bb w p e r' bb' w' :
  0 < BSENDDATA_HEADER_TRUE_SIZE →
  isend_send a bb w p = Some (e, Some r', bb', w') →
  e = MPI_SUCCESS ∧ a_want_request a = true ∧ r' ≠ NULL ∧ active bb' = p
  ∧ request_of (mem w') p = r'
  ∧ ∃ c, trace w' = trace w ++ [EvIsend r'; EvTake p c; EvAddRef r'].
Proof.
  intros Hh. unfold isend_send. destruct w as [m1 en0 tr0]. cbn [mem set_mem eng].
  destruct (rd m1 p msgbuf) as [mb|]; [|done]. cbn [mbind option_bind].
  destruct (rd m1 p count) as [ct|]; [|done]. cbn [mbind option_bind].
  destruct (MPID_Isend _ _ _ _ _) as [[e2 r] en].
  destruct (wr m1 p (set_request r)) as [m2|] eqn:Hw2; [|done]. cbn [mbind option_bind].
  cbn [mem set_mem set_eng log eng trace].
  case_decide; [done|].
  assert (request_of m2 p = r) as Hreq.
  { apply wr_inv in Hw2 as (b & Hb & ->). unfold request_of. by rewrite lookup_insert_eq. }
  assert (rd m2 p request = Some r) as ->.
  { apply wr_inv in Hw2 as (b & Hb & ->). unfold rd. by rewrite lookup_insert_eq. }
  cbn [mbind option_bind]. case_decide as Hr; [|done].
  destruct (rd m2 p count) as [c|]; [|done]. cbn [mbind option_bind].
  destruct (MPIR_Bsend_take_buffer bb m2 p (wrap c)) as [[bb2 m3]|] eqn:Htake; [|done].
  cbn [mbind option_bind mem set_mem set_eng log eng trace].
  destruct (take_buffer_request _ _ _ _ _ _ p Htake) as [Hreq3 Hact].
  { pose proof (alloc_size_of_nonneg (wrap c) (proj1 (wrap_range c))). lia. }
  destruct (a_want_request a) eqn:Hwant; [|done].
  destruct (rd m3 p request) as [r''|] eqn:Hrd; [|done]. cbn [mbind option_bind].
  assert (r'' = r) as ->.
  { apply rd_inv in Hrd as (b & Hb & Heq). unfold request_of at 1 in Hreq3.
    rewrite Hb in Hreq3. cbn in Hreq3. congruence. }
  intros [= <- <- <- <-]. cbn [mem trace log set_mem set_eng].
  split_and!; try done; [congruence|]. exists (wrap c). by rewrite <- !app_assoc.
Qed.

Lemma isend_found_out a packsize bb w p e r' bb' w' :
  0 < BSENDDATA_HEADER_TRUE_SIZE →
  isend_found a packsize bb w p = Some (e, Some r', bb', w') →
  e = MPI_SUCCESS ∧ a_want_request a = true ∧ r' ≠ NULL ∧ active bb' = p
  ∧ request_of (mem w') p = r'
  ∧ ∃ c, trace w' = trace w ++ [EvPack; EvIsend r'; EvTake p c; EvAddRef r'].
Proof.
  intros Hh. unfold isend_found.
  destruct (wr (mem w) p (set_count 0)) as [m0|]; [|done]. cbn [mbind option_bind].
  destruct (isend_pack _ _ _ _) as [[e1|m1]|]; cbn [mbind option_bind]; [done| |done].
  intros Hsend. apply isend_send_out in Hsend as (? & ? & ? & ? & ? & c & Htr); [|done].
  cbn [trace log set_mem] in Htr. split_and!; try done. exists c.
  by rewrite Htr, <- app_assoc.
Qed.

(** X15.  The request that a send hands back is the one that the send
    engine stored in the header of the block it took.  When a send stores a
    request [r] through [request], it has succeeded, the caller had asked
    for the request, [r] is not null, and the last three things the send did
    were the [MPID_Isend] that stored [r], the take of a block [p] and one
    added reference on [r]; [p] is the head of the active list and its
    header holds [r].  A caller that asked for the request and got none
    knows that no block was taken. *)
Theorem isend_request_out (n : nat) a comm process w s bb e out comm' process' w' evs :
  (2 ≤ n)%nat → 0 < BSENDDATA_HEADER_TRUE_SIZE →
  isend_bsendbuffer comm process = Some (s, bb) →
  MPIR_Bsend_isend n a comm process w = Some (e, out, comm', process', w') →
  trace w' = trace w ++ evs →
  (∀ r, out = Some r →
     e = MPI_SUCCESS ∧ a_want_request a = true ∧ r ≠ NULL
     ∧ ∃ pre p c bb',
         evs = pre ++ [EvIsend r; EvTake p c; EvAddRef r]
         ∧ (comm', process') = isend_slots s bb' comm process
         ∧ active bb' = p ∧ request_of (mem w') p = r)
  ∧ (out = None → a_want_request a = true → Forall (λ ev, is_take ev = false) evs).
Proof.
  intros Hn Hh Hsel Hrun Hevs.
  rewrite (isend_chosen n a comm process w s bb Hsel) in Hrun.
  destruct (isend_with _ _ _ _ _) as [[[[e' out'] bb'] w'']|] eqn:Hwith; [|done].
  injection Hrun as -> -> <- <- ->.
  destruct (isend_with_cases _ _ _ _ _ _ _ _ _ Hn Hwith)
    as (e1 & bb1 & w1 & evs1 & Hca & Htr1 & Hall1 & Hcase).
  set (sz := wrap (isend_packsize a)) in *.
  assert ((∀ r, out = Some r →
             e = MPI_SUCCESS ∧ a_want_request a = true ∧ r ≠ NULL
             ∧ ∃ pre p c,
                 evs = pre ++ [EvIsend r; EvTake p c; EvAddRef r]
                 ∧ active bb' = p ∧ request_of (mem w') p = r)
          ∧ (out = None → a_want_request a = true →
             Forall (λ ev, is_take ev = false) evs)) as [Hsome Hnone].
  { (* a found block, after the events [pre] *)
    assert (∀ bbx wx p pre,
              isend_found a (isend_packsize a) bbx (log (EvFind sz p) wx) p
                = Some (e, out, bb', w') →
              trace wx = trace w ++ pre →
              Forall (λ ev, is_take ev = false) pre →
              (∀ r, out = Some r →
                 e = MPI_SUCCESS ∧ a_want_request a = true ∧ r ≠ NULL
                 ∧ ∃ pre p c,
                     evs = pre ++ [EvIsend r; EvTake p c; EvAddRef r]
                     ∧ active bb' = p ∧ request_of (mem w') p = r)
              ∧ (out = None → a_want_request a = true →
                 Forall (λ ev, is_take ev = false) evs)) as Hfound.
    { intros bbx wx p pre Hf Hpre Hnt. split.
      - intros r ->.
        apply isend_found_out in Hf as (-> & Hw & Hr & Hact & Hreq & c & Htr); [|done].
        split; [done|]. split; [done|]. split; [done|].
        cbn [trace log] in Htr. rewrite Htr, Hpre, <- !app_assoc in Hevs.
        apply app_inv_head in Hevs. subst evs.
        exists (pre ++ [EvFind sz p; EvPack]), p, c.
        split; [by rewrite <- !app_assoc|]. done.
      - intros -> Hwant. apply isend_found_cases in Hf. cbn [trace log] in Hf.
        assert (∀ X, trace w' = (trace wx ++ [EvFind sz p]) ++ X →
                     evs = pre ++ EvFind sz p :: X) as Hev.
        { intros X HX. rewrite HX, Hpre, <- !app_assoc in Hevs.
          by apply app_inv_head in Hevs. }
        destruct Hf as [(x & _ & _ & _ & _ & Htr)
                       |[(x & r & _ & _ & _ & _ & Htr)
                       |[(_ & _ & _ & _ & Htr)
                       |(r & c & m2 & tl & _ & _ & _ & _ & _ & Htl)]]].
        + rewrite (Hev _ Htr). apply Forall_app. split; [done|]. by repeat constructor.
        + rewrite (Hev _ Htr). apply Forall_app. split; [done|]. by repeat constructor.
        + rewrite (Hev _ Htr). apply Forall_app. split; [done|]. by repeat constructor.
        + destruct Htl as [(_ & r' & ? & _)|(? & _)]; [done|congruence]. }
    assert (Forall (λ ev, is_take ev = false) (EvCheckActive :: evs1)) as Ht1.
    { constructor; [done|]. by apply is_reclaim_not_take. }
    destruct Hcase as [(He1 & -> & -> & -> & ->)
                      |[(-> & p & Hp & Hf & Hfd)
                      |(-> & Hf & e2 & bb2 & w2 & evs2 & Hca2 & Htr2 & Hall2 & Hcase2)]].
    - split; [done|]. intros _ _. rewrite Htr1 in Hevs. apply app_inv_head in Hevs.
      by subst evs.
    - by apply (Hfound bb1 w1 p _ Hfd Htr1 Ht1).
    - destruct Hcase2 as [(p & Hp & Hf2 & Hfd)|(Hf2 & -> & -> & -> & ->)].
      + rewrite Htr1, <- app_assoc in Htr2.
        apply (Hfound bb2 w2 p _ Hfd Htr2).
        apply Forall_app. split; [done|]. constructor; [done|]. constructor; [done|].
        by apply is_reclaim_not_take.
      + split; [done|]. intros _ _. cbn [trace log] in Hevs.
        rewrite Htr2, Htr1, <- !app_assoc in Hevs. apply app_inv_head in Hevs. subst evs.
        apply Forall_app. split; [done|]. apply Forall_app. split.
        * constructor; [done|]. constructor; [done|]. by apply is_reclaim_not_take.
        * by repeat constructor. }
  split; [|done]. intros r Hr.
  destruct (Hsome r Hr) as (? & ? & ? & pre & p & c & ? & ? & ?).
  split_and!; try done. exists pre, p, c, bb'.
  split_and!; try done. by destruct (isend_slots s bb' comm process).
Qed.

Lemma isend_found_pack_fails a packsize bb w p ec e out bb' w' :
  (∀ en b c d pb ps, (MPIR_Typerep_pack en b c d pb ps).1 = ec) → ec ≠ 0 →
  a_dtype a ≠ MPI_PACKED →
  isend_found a packsize bb w p = Some (e, out, bb', w') →
  e = Err_other ec ∧ out = None ∧ bb' = bb ∧ trace w' = trace w ++ [EvPack].
Proof.
  intros Hpk Hec Hdt. unfold isend_found.
  destruct (wr (mem w) p (set_count 0)) as [m0|]; [|done]. cbn [mbind option_bind].
  unfold isend_pack. rewrite decide_True by done.
  destruct (rd _ p msgbuf) as [mb|]; [|done]. cbn [mbind option_bind].
  destruct (rd _ p count) as [ct|]; [|done]. cbn [mbind option_bind].
  match goal with |- context [MPIR_Typerep_pack ?x1 ?x2 ?x3 ?x4 ?x5 ?x6] =>
    pose proof (Hpk x1 x2 x3 x4 x5 x6) as Hp;
    destruct (MPIR_Typerep_pack x1 x2 x3 x4 x5 x6) as [e1 actual]
  end.
  cbn in Hp. subst e1. rewrite decide_True by done. cbn [mbind option_bind].
  by intros [= <- <- <- <-].
Qed.

(** X16.  When the packer reports an error, the send returns it: for a
    datatype that has to be packed and a packer that fails, a send never
    succeeds, stores no request, never calls [MPID_Isend] and takes no
    block; once it has found a block and tried to pack, its result is the
    code of the packer. *)
Theorem isend_pack_error (n : nat) a comm process w s bb ec e out comm' process' w' evs :
  (2 ≤ n)%nat →
  isend_bsendbuffer comm process = Some (s, bb) →
  (∀ en b c d pb ps, (MPIR_Typerep_pack en b c d pb ps).1 = ec) → ec ≠ 0 →
  a_dtype a ≠ MPI_PACKED →
  MPIR_Bsend_isend n a comm process w = Some (e, out, comm', process', w') →
  trace w' = trace w ++ evs →
  e ≠ MPI_SUCCESS ∧ out = None
  ∧ (∀ r, EvIsend r ∉ evs)
  ∧ Forall (λ ev, is_take ev = false) evs
  ∧ (EvPack ∈ evs → e = Err_other ec).
Proof.
  intros Hn Hsel Hpk Hec Hdt Hrun Hevs.
  rewrite (isend_chosen n a comm process w s bb Hsel) in Hrun.
  destruct (isend_with _ _ _ _ _) as [[[[e' out'] bb'] w'']|] eqn:Hwith; [|done].
  injection Hrun as -> -> <- <- ->.
  destruct (isend_with_cases _ _ _ _ _ _ _ _ _ Hn Hwith)
    as (e1 & bb1 & w1 & evs1 & Hca & Htr1 & Hall1 & Hcase).
  set (sz := wrap (isend_packsize a)) in *.
  assert (∀ evs0, Forall (λ ev, is_reclaim ev = true) evs0 →
                  (∀ r, EvIsend r ∉ evs0) ∧ Forall (λ ev, is_take ev = false) evs0
                  ∧ EvPack ∉ evs0) as Hrec.
  { intros evs0 Hall. split; [intros r; by apply is_reclaim_not_isend|].
    split; [by apply is_reclaim_not_take|].
    intros Hin. rewrite Forall_forall in Hall. by apply Hall in Hin. }
  destruct (Hrec evs1 Hall1) as (Hi1 & Ht1 & Hp1).
  destruct Hcase as [(He1 & -> & -> & -> & ->)
                    |[(-> & p & Hp & Hf & Hfd)
                    |(-> & Hf & e2 & bb2 & w2 & evs2 & Hca2 & Htr2 & Hall2 & Hcase2)]].
  - rewrite Htr1 in Hevs. apply app_inv_head in Hevs. subst evs.
    split; [done|]. split; [done|]. split.
    { intros r Hin. apply elem_of_cons in Hin as [?|Hin]; [done|]. by apply (Hi1 r). }
    split; [by constructor|].
    intros Hin. apply elem_of_cons in Hin as [?|Hin]; done.
  - apply (isend_found_pack_fails _ _ _ _ _ ec) in Hfd as (-> & -> & _ & Htr); try done.
    cbn [trace log] in Htr. rewrite Htr, Htr1, <- !app_assoc in Hevs.
    apply app_inv_head in Hevs. subst evs. cbn [app].
    split; [done|]. split; [done|]. split.
    { intros r Hin. rewrite elem_of_cons, elem_of_app, !elem_of_cons in Hin.
      destruct Hin as [?|[Hin|[?|[?|Hin]]]]; try done; [by apply (Hi1 r)|].
      by apply elem_of_nil in Hin. }
    split; [|done].
    constructor; [done|]. apply Forall_app. split; [done|]. by repeat constructor.
  - destruct (Hrec evs2 Hall2) as (Hi2 & Ht2 & Hp2).
    destruct Hcase2 as [(p & Hp & Hf2 & Hfd)|(Hf2 & -> & -> & -> & ->)].
    + apply (isend_found_pack_fails _ _ _ _ _ ec) in Hfd as (-> & -> & _ & Htr); try done.
      cbn [trace log] in Htr. rewrite Htr, Htr2, Htr1, <- !app_assoc in Hevs.
      apply app_inv_head in Hevs. subst evs. cbn [app].
      split; [done|]. split; [done|]. split.
      { intros r Hin.
        repeat first [rewrite elem_of_cons in Hin | rewrite elem_of_app in Hin
                     | rewrite elem_of_nil in Hin].
        repeat match type of Hin with _ ∨ _ => destruct Hin as [Hin|Hin] end; try done.
        - by apply (Hi1 r).
        - by apply (Hi2 r). }
      split; [|done].
      constructor; [done|]. apply Forall_app. split; [done|].
      constructor; [done|]. constructor; [done|].
      apply Forall_app. split; [done|]. by repeat constructor.
    + cbn [trace log] in Hevs. rewrite Htr2, Htr1, <- !app_assoc in Hevs.
      apply app_inv_head in Hevs. subst evs. cbn [app].
      split; [done|]. split; [done|]. split.
      { intros r Hin.
        repeat first [rewrite elem_of_cons in Hin | rewrite elem_of_app in Hin
                     | rewrite elem_of_nil in Hin].
        repeat match type of Hin with _ ∨ _ => destruct Hin as [Hin|Hin] end; try done.
        - by apply (Hi1 r).
        - by apply (Hi2 r). }
      split.
      { constructor; [done|]. apply Forall_app. split; [done|].
        constructor; [done|]. constructor; [done|].
        apply Forall_app. split; [done|]. by repeat constructor. }
      intros Hin.
      repeat first [rewrite elem_of_cons in Hin | rewrite elem_of_app in Hin
                   | rewrite elem_of_nil in Hin].
      repeat match type of Hin with _ ∨ _ => destruct Hin as [Hin|Hin] end; done.
Qed.

End SendMore.

(** ** Further properties: the progress walk *)

Section Progress.
Context `{Platform} `{Collaborators}.
Implicit Types (m : heap) (l : list Z) (w : world) (bb : BsendBuffer).

Ltac reqs' :=
  repeat match goal with
  | Hw : wr ?m1 ?y ?f = Some ?m2 |- context [request_of ?m2 ?x] =>
      rewrite (request_of_wr m1 y f m2 x Hw) by (by intros [])
  end.

(** A release writes no [request] field. *)
Lemma free_unlink_request bb m p q bb' m' x :
  free_unlink bb m p q = Some (bb', m') → request_of m' x = request_of m x.
Proof.
  intros Hrun. unfold free_unlink in Hrun.
  exec Hrun; injection Hrun as <- <-; by reqs'.
Qed.

Lemma free_merge_next_request m p av m' x :
  free_merge_next m p av = Some m' → request_of m' x = request_of m x.
Proof.
  intros Hrun. unfold free_merge_next in Hrun.
  exec Hrun; try (injection Hrun as <-); by reqs'.
Qed.

Lemma free_merge_prev_request bb m p ap bb' m' x :
  free_merge_prev bb m p ap = Some (bb', m') → request_of m' x = request_of m x.
Proof.
  intros Hrun. unfold free_merge_prev in Hrun.
  exec Hrun; injection Hrun as <- <-; by reqs'.
Qed.

Lemma free_segment_request (fuel : nat) bb m p bb' m' x :
  MPIR_Bsend_free_segment fuel bb m p = Some (bb', m') →
  request_of m' x = request_of m x.
Proof.
  intros Hrun. unfold MPIR_Bsend_free_segment in Hrun. exec1 Hrun. cbv zeta in Hrun.
  destruct (free_unlink _ _ _ _) as [[bb1 m1]|] eqn:Hun; [|done].
  cbn [mbind option_bind] in Hrun.
  destruct (free_walk _ _ _ _ _) as [[ap av]|] eqn:Hwalk; [|done].
  cbn [mbind option_bind] in Hrun.
  destruct (free_merge_next _ _ _) as [m2|] eqn:Hmn; [|done].
  cbn [mbind option_bind] in Hrun.
  rewrite (free_merge_prev_request _ _ _ _ _ _ x Hrun).
  rewrite (free_merge_next_request _ _ _ _ x Hmn).
  by rewrite (free_unlink_request _ _ _ _ _ _ x Hun).
Qed.

Lemma split_unique (p : Z) a1 a2 b1 b2 :
  NoDup (a1 ++ p :: a2) → a1 ++ p :: a2 = b1 ++ p :: b2 → a1 = b1 ∧ a2 = b2.
Proof.
  revert b1. induction a1 as [|x a1 IH]; intros [|y b1] Hnd Heq; cbn in *.
  - by injection Heq as ->.
  - injection Heq as <- ->. apply NoDup_cons in Hnd as [Hp _].
    exfalso. apply Hp. apply elem_of_app. right. left.
  - injection Heq as -> <-. apply NoDup_cons in Hnd as [Hp _].
    exfalso. apply Hp. apply elem_of_app. right. left.
  - injection Heq as -> Heq. apply NoDup_cons in Hnd as [_ Hnd].
    by destruct (IH b1 Hnd Heq) as [-> ->].
Qed.

(** The free list after a release holds the released block and blocks of
    the free list before, nothing else. *)
Lemma free_segment_addresses (fuel : nat) bb m p fl a1 a2 bb' m' fl' :
  dlist m (avail bb) fl →
  dlist m (active bb) (a1 ++ p :: a2) →
  disj fl (a1 ++ p :: a2) →
  (length fl ≤ fuel)%nat →
  MPIR_Bsend_free_segment fuel bb m p = Some (bb', m') →
  dlist m' (avail bb') fl' →
  ∀ x, x ∈ fl' → x ∈ p :: fl.
Proof.
  intros Hfl Hal Hdisj Hfuel Hrun Hfl' x Hx.
  destruct (free_segment_spec fuel bb m p fl a1 a2 Hfl Hal Hdisj Hfuel)
    as (bb1 & m1 & f1 & f2 & bp & Hrun1 & _ & -> & _ & _ & _ & _ & _ & Hcase).
  rewrite Hrun in Hrun1. injection Hrun1 as <- <-. cbv zeta in Hcase.
  destruct Hcase as [(_ & _ & Hd & _)
                    |[(r & t & -> & _ & _ & Hd & _)
                    |[(f1' & a & -> & _ & _ & Hd & _)
                    |(f1' & a & r & t & -> & -> & _ & _ & Hd & _)]]];
    rewrite (dseg_functional _ _ _ _ _ _ Hfl' Hd) in Hx;
    repeat first [rewrite elem_of_app in Hx | rewrite elem_of_cons in Hx];
    repeat first [rewrite elem_of_app | rewrite elem_of_cons]; tauto.
Qed.

Lemma pending_ext e e' m m' l :
  (∀ x, x ∈ l → is_done e' m' x = is_done e m x) → pending e' m' l = pending e m l.
Proof.
  unfold pending. induction l as [|a l IH]; intros Hl; [done|].
  rewrite !filter_cons, (Hl a) by left. rewrite IH; [done|].
  intros x Hx. apply Hl. by right.
Qed.

Lemma finished_ext e e' m m' l :
  (∀ x, x ∈ l → is_done e' m' x = is_done e m x) → finished e' m' l = finished e m l.
Proof.
  unfold finished. induction l as [|a l IH]; intros Hl; [done|].
  rewrite !filter_cons, (Hl a) by left. rewrite IH; [done|].
  intros x Hx. apply Hl. by right.
Qed.

Lemma release_events_ext e e' m m' l :
  (∀ x, x ∈ l →
     request_of m' x = request_of m x
     ∧ MPIR_Request_is_complete e' (request_of m x)
       = MPIR_Request_is_complete e (request_of m x)
     ∧ MPIR_Request_is_persistent e' (request_of m x)
       = MPIR_Request_is_persistent e (request_of m x)) →
  release_events e' m' l = release_events e m l.
Proof.
  unfold release_events. induction l as [|a l IH]; intros Hl; [done|].
  cbn [mbind list_bind]. destruct (Hl a) as (-> & -> & ->); [left|].
  rewrite IH; [done|]. intros x Hx. apply Hl. by right.
Qed.

Lemma pending_elem e m l x : x ∈ pending e m l → x ∈ l.
Proof. unfold pending. rewrite list_elem_of_filter. tauto. Qed.

Lemma finished_elem e m l x : x ∈ finished e m l → x ∈ l.
Proof. unfold finished. rewrite list_elem_of_filter. tauto. Qed.

Lemma progress_from_null (n fuel : nat) bb w : progress_from n fuel bb w NULL = Some (bb, w).
Proof. by destruct fuel. Qed.

(** The walk from a block of the active list on: [kp] are the blocks before
    it that the walk has kept, [rs] the blocks still to visit. *)
Lemma progress_from_spec (n : nat) rs :
  stable_requests →
  0 ≤ BSENDDATA_HEADER_TRUE_SIZE →
  ∀ (fuel : nat) bb w kp fl,
  dlist (mem w) (avail bb) fl →
  dlist (mem w) (active bb) (kp ++ rs) →
  disj fl (kp ++ rs) →
  ascending fl → apart (mem w) fl →
  (∀ a, a ∈ fl ++ kp ++ rs → block_ok (mem w) a) →
  NoDup (request_of (mem w) <$> rs) →
  (length fl + length rs ≤ n)%nat → (length rs ≤ fuel)%nat →
  ∃ bb' w' fl',
    progress_from n fuel bb w (default NULL (head rs)) = Some (bb', w')
    ∧ dlist (mem w') (avail bb') fl'
    ∧ dlist (mem w') (active bb') (kp ++ pending (eng w) (mem w) rs)
    ∧ disj fl' (kp ++ pending (eng w) (mem w) rs)
    ∧ ascending fl' ∧ apart (mem w') fl'
    ∧ (∀ a, a ∈ fl' → block_ok (mem w') a)
    ∧ total_span (mem w') fl'
      = total_span (mem w) fl + total_span (mem w) (finished (eng w) (mem w) rs)
    ∧ trace w' = trace w ++ release_events (eng w) (mem w) rs
    ∧ same_buffer bb bb'
    ∧ (∀ x, request_of (mem w') x = request_of (mem w) x)
    ∧ (∀ x, x ∈ kp ++ pending (eng w) (mem w) rs → sizes (mem w') x = sizes (mem w) x).
Proof.
  intros Hst Hh. induction rs as [|a rs IH];
    intros fuel bb w kp fl Hfl Hal Hdisj Hasc Hap Hok Hnd Hn Hfuel.
  - cbn [head default]. rewrite progress_from_null. exists bb, w, fl.
    unfold pending, finished, release_events. cbn. rewrite !app_nil_r in *.
    split_and!; try done; [|lia].
    intros a Ha. apply Hok. apply elem_of_app. by left.
  - change (default NULL (head (a :: rs))) with a.
    pose proof Hal as Hal0. apply dseg_app in Hal0 as (mid & Hkp & Hrs).
    pose proof Hrs as (-> & Ha0 & b & Hb & Hprev & Hrest).
    pose proof (dseg_head _ _ _ _ _ Hrest) as Hnext.
    pose proof (dseg_NoDup _ _ _ _ Hal) as Hnda.
    assert (request_of (mem w) a = request b) as Hreq.
    { unfold request_of. by rewrite Hb. }
    destruct fuel as [|fuel]; [cbn in Hfuel; lia|].
    cbn [progress_from]. rewrite decide_False by done.
    rewrite !(rd_Some _ _ _ _ Hb). cbn [mbind option_bind].
    rewrite fmap_cons in Hnd. apply NoDup_cons in Hnd as [Hra Hnd].
    rewrite Hreq in Hra.
    destruct (MPIR_Request_is_complete (eng w) (request b)) eqn:Hc.
    + (* the send is over: release the block *)
      destruct (free_segment_invariants n bb (mem w) a fl (kp ++ a :: rs) Hh Hfl Hal)
        as (bb1 & m1 & fl1 & a1 & a2 & Hrun & Hfl1 & Hasc1 & Hap1 & Hok1 & Hsp & Hsplit
            & Hal1 & Hsb1 & Hfr1); try done.
      { apply elem_of_app. right. left. }
      { intros x Hx. apply Hok. rewrite !elem_of_app, elem_of_cons.
        apply elem_of_cons in Hx as [->|Hx]; tauto. }
      { cbn in Hn. lia. }
      destruct (split_unique a kp rs a1 a2 Hnda Hsplit) as [<- <-].
      rewrite Hrun. cbn [mbind option_bind].
      assert (a ∉ kp ++ rs) as Hakr.
      { nodup_atoms Hnda. rewrite not_elem_of_app. done. }
      assert (a ∉ fl) as Hafl.
      { intros Hx. apply (Hdisj a Hx). apply elem_of_app. right. left. }
      assert (∀ x, x ∈ fl1 → x ∈ a :: fl) as Hsub.
      { apply (free_segment_addresses n bb (mem w) a fl kp rs bb1 m1 fl1); try done.
        cbn in Hn. lia. }
      assert (∀ x, x ∈ kp ++ rs → sizes m1 x = sizes (mem w) x) as Hsz1.
      { intros x Hx.
        apply (free_segment_sizes_other n bb (mem w) a fl kp rs bb1 m1); try done.
        - cbn in Hn. lia.
        - apply not_elem_of_cons. split; [by intros ->|].
          intros Hxf. apply (Hdisj x Hxf). rewrite !elem_of_app, elem_of_cons in *. tauto. }
      assert (∀ x, request_of m1 x = request_of (mem w) x) as Hrq1.
      { intros x. by apply (free_segment_request n bb (mem w) a bb1 m1). }
      match goal with
      | |- context [if MPIR_Request_is_persistent ?e ?r then ?x else ?y] =>
          assert (∃ w1, (if MPIR_Request_is_persistent e r then x else y) = Some (bb1, w1)
                        ∧ mem w1 = m1
                        ∧ trace w1 = trace w ++ release_events (eng w) (mem w) [a]
                        ∧ ∀ r', r' ≠ request b →
                            MPIR_Request_is_complete (eng w1) r'
                            = MPIR_Request_is_complete (eng w) r'
                            ∧ MPIR_Request_is_persistent (eng w1) r'
                              = MPIR_Request_is_persistent (eng w) r')
            as (w1 & -> & Hm1 & Htr1 & He1)
      end.
      { unfold release_events. cbn [mbind list_bind eng log set_mem set_eng].
        rewrite Hreq, Hc.
        destruct (MPIR_Request_is_persistent (eng w) (request b)); eexists;
          (split; [reflexivity|]); cbn [mem trace eng log set_mem set_eng];
          rewrite ?app_nil_r, <- ?app_assoc; split_and!; try done.
        intros r' Hr'. by apply Hst. }
      cbn [mbind option_bind]. rewrite <- Hm1 in *.
      assert (∀ x, x ∈ rs → is_done (eng w1) (mem w1) x = is_done (eng w) (mem w) x) as Hdn.
      { intros x Hx. unfold is_done. rewrite Hrq1. apply He1.
        intros Heq. apply Hra. rewrite <- Heq. apply list_elem_of_fmap. by exists x. }
      destruct (IH fuel bb1 w1 kp fl1) as (bb' & w' & fl' & Hrun' & Hfl' & Hal' & Hdj' & Hasc'
        & Hap' & Hok' & Hts' & Htr' & Hsb' & Hrq' & Hsz'); try done.
      { intros x Hx1 Hx2. apply Hsub in Hx1. apply elem_of_cons in Hx1 as [->|Hx1]; [done|].
        apply (Hdisj x Hx1). rewrite !elem_of_app, elem_of_cons in *. tauto. }
      { intros x Hx. apply elem_of_app in Hx as [Hx|Hx]; [by apply Hok1|].
        apply (block_ok_sizes (mem w)); [by apply Hsz1|].
        apply Hok. rewrite !elem_of_app, elem_of_cons in *. tauto. }
      { erewrite list_fmap_ext; [exact Hnd|]. intros i x _. apply Hrq1. }
      { assert (length fl1 ≤ length (a :: fl))%nat as Hlen.
        { apply submseteq_length, NoDup_submseteq; [|done].
          by apply (dseg_NoDup _ _ _ _ Hfl1). }
        cbn in Hlen, Hn. lia. }
      { cbn in Hfuel. lia. }
      assert (is_done (eng w) (mem w) a = true) as Hda.
      { unfold is_done. by rewrite Hreq. }
      assert (pending (eng w) (mem w) (a :: rs) = pending (eng w1) (mem w1) rs) as ->.
      { rewrite (pending_ext _ _ _ _ rs Hdn). unfold pending.
        rewrite filter_cons_False; [done|]. by rewrite Hda. }
      assert (finished (eng w) (mem w) (a :: rs) = a :: finished (eng w1) (mem w1) rs) as ->.
      { rewrite (finished_ext _ _ _ _ rs Hdn). unfold finished.
        by rewrite filter_cons_True. }
      exists bb', w', fl'. split; [by rewrite Hnext|]. split; [done|]. split; [done|].
      split; [done|]. split; [done|]. split; [done|]. split; [done|].
      split.
      { rewrite Hts', total_span_cons.
        rewrite (total_span_spans (mem w1) fl1), Hsp, sum_spans_coalesce,
          sum_spans_insert_block. cbn [snd]. rewrite <- total_span_spans.
        rewrite (total_span_ext (mem w) (mem w1) (finished _ _ rs)); [lia|].
        intros x Hx. apply sizes_span, Hsz1. apply finished_elem in Hx.
        apply elem_of_app. by right. }
      split.
      { rewrite Htr', Htr1, <- app_assoc. f_equal.
        change (a :: rs) with ([a] ++ rs). unfold release_events at 3.
        rewrite bind_app. f_equal. apply release_events_ext.
        intros x Hx. split; [apply Hrq1|]. apply He1.
        intros Heq. apply Hra. rewrite <- Heq. apply list_elem_of_fmap. by exists x. }
      split.
      { destruct Hsb1 as (? & ? & ? & ?), Hsb' as (? & ? & ? & ?).
        unfold same_buffer. split_and!; congruence. }
      split; [intros x; by rewrite Hrq', Hrq1|].
      intros x Hx. rewrite (Hsz' x Hx). apply Hsz1.
      apply elem_of_app in Hx as [Hx|Hx]; apply elem_of_app; [by left|right].
      by apply pending_elem in Hx.
    + (* the send is in flight: keep the block *)
      cbn [mbind option_bind]. rewrite Hnext.
      assert (is_done (eng w) (mem w) a = false) as Hda.
      { unfold is_done. by rewrite Hreq. }
      assert (pending (eng w) (mem w) (a :: rs) = a :: pending (eng w) (mem w) rs) as ->.
      { unfold pending. by rewrite filter_cons_True. }
      assert (finished (eng w) (mem w) (a :: rs) = finished (eng w) (mem w) rs) as ->.
      { unfold finished. rewrite filter_cons_False; [done|]. by rewrite Hda. }
      assert (release_events (eng w) (mem w) (a :: rs) = release_events (eng w) (mem w) rs)
        as ->.
      { unfold release_events. cbn [mbind list_bind]. by rewrite Hreq, Hc. }
      replace (kp ++ a :: pending (eng w) (mem w) rs)
        with ((kp ++ [a]) ++ pending (eng w) (mem w) rs) by (by rewrite <- app_assoc).
      apply IH; try done.
      * by rewrite <- app_assoc.
      * by rewrite <- app_assoc.
      * intros x Hx. apply Hok. by rewrite <- app_assoc in Hx.
      * cbn in Hn. lia.
      * cbn in Hfuel. lia.
Qed.

Lemma progress_from_idle (n : nat) rs :
  ∀ (fuel : nat) bb w prv,
  dseg (mem w) prv (default NULL (head rs)) rs NULL →
  Forall (λ a, is_done (eng w) (mem w) a = false) rs →
  (length rs ≤ fuel)%nat →
  progress_from n fuel bb w (default NULL (head rs)) = Some (bb, w).
Proof.
  induction rs as [|a rs IH]; intros fuel bb w prv Hrs Hall Hfuel.
  - apply progress_from_null.
  - change (default NULL (head (a :: rs))) with a in *.
    pose proof Hrs as (_ & Ha0 & b & Hb & Hprev & Hrest).
    pose proof (dseg_head _ _ _ _ _ Hrest) as Hnext.
    apply Forall_cons in Hall as [Hda Hall]. unfold is_done, request_of in Hda.
    rewrite Hb in Hda. cbn in Hda.
    destruct fuel as [|fuel]; [cbn in Hfuel; lia|].
    cbn [progress_from]. rewrite decide_False by done.
    rewrite !(rd_Some _ _ _ _ Hb). cbn [mbind option_bind]. rewrite Hda.
    cbn [mbind option_bind]. rewrite Hnext. apply (IH fuel bb w a); [|done|cbn in Hfuel; lia].
    by rewrite <- Hnext.
Qed.

(** X17.  One walk of [MPIR_Bsend_progress] releases exactly the blocks
    whose send is over.  On a buffer whose free list is in address order
    with no two blocks adjacent, whose blocks are sound and whose active
    blocks hold different requests, and with requests that keep their state
    while others are freed: the walk returns; the active list is then the
    blocks still in flight, in their order, with the sizes and requests
    they had; the free list is again in address order, without adjacent
    blocks, of sound blocks, and has grown by the bytes of the released
    blocks; and the calls made are, block by block, the release and, for a
    request that is not persistent, [MPIR_Request_free]. *)
Theorem progress_releases_finished (n : nat) bb w fl al :
  stable_requests →
  0 ≤ BSENDDATA_HEADER_TRUE_SIZE →
  dlist (mem w) (avail bb) fl → dlist (mem w) (active bb) al → disj fl al →
  ascending fl → apart (mem w) fl →
  (∀ a, a ∈ fl ++ al → block_ok (mem w) a) →
  NoDup (request_of (mem w) <$> al) →
  (length fl + length al ≤ n)%nat →
  ∃ bb' w' fl',
    MPIR_Bsend_progress n bb w = Some (bb', w')
    ∧ dlist (mem w') (active bb') (pending (eng w) (mem w) al)
    ∧ dlist (mem w') (avail bb') fl'
    ∧ disj fl' (pending (eng w) (mem w) al)
    ∧ ascending fl' ∧ apart (mem w') fl'
    ∧ (∀ a, a ∈ fl' → block_ok (mem w') a)
    ∧ total_span (mem w') fl'
      = total_span (mem w) fl + total_span (mem w) (finished (eng w) (mem w) al)
    ∧ trace w' = trace w ++ release_events (eng w) (mem w) al
    ∧ same_buffer bb bb'
    ∧ (∀ x, x ∈ pending (eng w) (mem w) al →
         sizes (mem w') x = sizes (mem w) x
         ∧ request_of (mem w') x = request_of (mem w) x).
Proof.
  intros Hst Hh Hfl Hal Hdisj Hasc Hap Hok Hnd Hn.
  destruct (progress_from_spec n al Hst Hh n bb w [] fl)
    as (bb' & w' & fl' & Hrun & Hfl' & Hal' & Hdj' & Hasc' & Hap' & Hok' & Hts' & Htr'
        & Hsb' & Hrq' & Hsz'); try done; [lia|].
  exists bb', w', fl'. unfold MPIR_Bsend_progress.
  rewrite (dseg_head _ _ _ _ _ Hal). cbn [app] in *. split_and!; try done.
  intros x Hx. split; [by apply Hsz'|apply Hrq'].
Qed.

(** X18.  A walk that finds no send over changes nothing: the buffer
    record, the memory, the engine and the trace are as before. *)
Theorem progress_keeps_blocks_in_flight (n : nat) bb w al :
  dlist (mem w) (active bb) al →
  Forall (λ a, is_done (eng w) (mem w) a = false) al →
  (length al ≤ n)%nat →
  MPIR_Bsend_progress n bb w = Some (bb, w).
Proof.
  intros Hal Hall Hn. unfold MPIR_Bsend_progress.
  rewrite (dseg_head _ _ _ _ _ Hal). apply (progress_from_idle n al n bb w NULL); try done.
  by rewrite <- (dseg_head _ _ _ _ _ Hal).
Qed.

End Progress.

(** ** Runs of the further properties *)

Lemma attach_refusals_witness :
  ∃ bb m1,
    @MPIR_Buffer_attach_impl lp64 None 4096 4096 ∅ = (MPI_SUCCESS, Some bb, m1)
    ∧ buffer bb = 4096
    ∧ @MPIR_Buffer_attach_impl lp64 (Some bb) 16384 4096 m1 = (Err_bufexists, Some bb, m1)
    ∧ @MPIR_Bsend_attach lp64 None 4096 10 ∅
      = (Err_bsendbufsmall 10 72, Some calloc_BsendBuffer, ∅).
Proof.
  assert (∃ bb m1, @MPIR_Buffer_attach_impl lp64 None 4096 4096 ∅
                   = (MPI_SUCCESS, Some bb, m1)) as (bb & m1 & Hrun).
  { eexists _, _. vm_compute. reflexivity. }
  destruct (@attach_refusals lp64 None 4096 4096 ∅) as (_ & _ & Hagain).
  destruct (Hagain bb m1 16384 4096 m1 Hrun) as [Hbuf Hrefused].
  { vm_compute. discriminate. }
  destruct (@attach_refusals lp64 None 4096 10 ∅) as (_ & Hsmall & _).
  exists bb, m1. split; [exact Hrun|]. split; [exact Hbuf|]. split; [exact Hrefused|].
  apply Hsmall; [reflexivity|]. cbn. lia.
Defined.

Lemma detach_twice_witness :
  @MPIR_Buffer_detach_impl (engine_of 0 1 0 true) 1
    (Some (mkBuffer 0 0 NULL 0 NULL NULL))
    (@mkWorld (engine_of 0 1 0 true) demo_heap tt [EvWait 7; EvRequestFree 7])
  = Some (MPI_SUCCESS, Some (NULL, 0), Some (mkBuffer 0 0 NULL 0 NULL NULL),
          @mkWorld (engine_of 0 1 0 true) demo_heap tt [EvWait 7; EvRequestFree 7]).
Proof.
  apply (@detach_twice (engine_of 0 1 0 true) 1 1 (Some demo_buffer)
           (@world_of (engine_of 0 1 0 true) demo_heap tt) (Some (4096, 72))).
  vm_compute. reflexivity.
Defined.

Lemma detach_stops_at_failed_wait_witness :
  ∃ w',
    @MPIR_Bsend_detach (engine_full 0 0 1 0 5 false false) 1 (Some demo_buffer)
      (@world_of (engine_full 0 0 1 0 5 false false) demo_heap tt)
    = Some (Err_other 5, None, Some demo_buffer, w')
    ∧ mem w' = demo_heap
    ∧ trace w' = [EvWait 7].
Proof.
  apply (@detach_stops_at_failed_wait (engine_full 0 0 1 0 5 false false) 1 demo_buffer
           (@world_of (engine_full 0 0 1 0 5 false false) demo_heap tt) [] 4096 []
           (λ _, 5)).
  - intros e r. reflexivity.
  - apply dseg_cons. split; [reflexivity|]. split; [done|].
    exists active_block. split; [reflexivity|]. split; [reflexivity|]. by apply dseg_nil.
  - cbn. lia.
  - constructor.
  - discriminate.
Defined.

Lemma finalize_clears_slot_witness :
  ∃ w',
    @MPIR_Process_bsend_finalize (engine_full 0 0 1 0 5 false false) 1 (Some demo_buffer)
      (@world_of (engine_full 0 0 1 0 5 false false) demo_heap tt)
    = Some (MPI_SUCCESS, None, w')
    ∧ mem w' = demo_heap.
Proof.
  destruct (@finalize_clears_slot (engine_full 0 0 1 0 5 false false) 1 (Some demo_buffer)
              (@world_of (engine_full 0 0 1 0 5 false false) demo_heap tt))
    as (w' & Hrun & _ & _ & Hmem & _).
  - intros bb Hbb _. injection Hbb as <-. exists [4096]. split; [|cbn; lia].
    apply dseg_cons. split; [reflexivity|]. split; [done|].
    exists active_block. split; [reflexivity|]. split; [reflexivity|]. by apply dseg_nil.
  - exists w'. split; [exact Hrun|exact Hmem].
Defined.

Lemma isend_after_detach_witness :
  ∃ w2,
    @MPIR_Bsend_isend lp64 (engine_of 0 1 0 true) 2 send_100
      (mkComm (Some (mkBuffer 0 0 NULL 0 NULL NULL)) None) (Some far_buffer)
      (@mkWorld (engine_of 0 1 0 true) demo_heap tt [EvWait 7; EvRequestFree 7])
    = Some (Err_no_buffer_space 100 0, None,
            mkComm (Some (mkBuffer 0 0 NULL 0 NULL NULL)) None, Some far_buffer, w2)
    ∧ mem w2 = demo_heap
    ∧ trace w2 = [EvWait 7; EvRequestFree 7; EvCheckActive; EvFind 100 NULL;
                  EvCheckActive; EvFind 100 NULL].
Proof.
  apply (@isend_after_detach lp64 (engine_of 0 1 0 true) 2 1 send_100
           (mkComm (Some (mkBuffer 0 0 NULL 0 NULL NULL)) None) (Some far_buffer)
           (@world_of (engine_of 0 1 0 true) demo_heap tt) demo_buffer (Some (4096, 72))
           (mkBuffer 0 0 NULL 0 NULL NULL)
           (@mkWorld (engine_of 0 1 0 true) demo_heap tt [EvWait 7; EvRequestFree 7])
           CommSlot).
  - lia.
  - vm_compute. reflexivity.
  - reflexivity.
Defined.

Lemma isend_aborted_by_progress_error_witness :
  ∃ w',
    @MPIR_Bsend_isend lp64 (engine_full 0 0 1 9 0 false false) 2 send_100
      (mkComm (Some demo_buffer) None) None
      (@world_of (engine_full 0 0 1 9 0 false false) demo_heap tt)
    = Some (Err_other 9, None, mkComm (Some demo_buffer) None, None, w')
    ∧ mem w' = demo_heap
    ∧ trace w' = [EvCheckActive; EvProgressTest].
Proof.
  destruct (@isend_aborted_by_progress_error lp64 (engine_full 0 0 1 9 0 false false) 2
              send_100 (mkComm (Some demo_buffer) None) None
              (@world_of (engine_full 0 0 1 9 0 false false) demo_heap tt)
              CommSlot demo_buffer 9 tt) as (w' & Hrun & Hmem & _ & Htr & _).
  - reflexivity.
  - discriminate.
  - reflexivity.
  - discriminate.
  - exists w'. split; [exact Hrun|]. split; [exact Hmem|exact Htr].
Defined.

Lemma alloc_size_of_rounds_witness :
  (16 | @alloc_size_of lp64 100)
  ∧ 100 ≤ @alloc_size_of lp64 100 < 116
  ∧ @alloc_size_of lp64 (2 ^ 64 - 1) = 0.
Proof.
  destruct (@alloc_size_of_rounds lp64 100 4) as (Hfits & _ & _); [reflexivity|lia|lia|].
  destruct (@alloc_size_of_rounds lp64 (2 ^ 64 - 1) 4) as (_ & _ & Hwraps);
    [reflexivity|lia|lia|].
  destruct Hfits as (Hdiv & Hle & _); [cbn; lia|].
  split; [exact Hdiv|]. split; [exact Hle|].
  apply Hwraps; [cbn; lia|]. intros [z Hz]. cbn in Hz. lia.
Defined.

Lemma take_buffer_slack_witness :
  ∃ bb' m' bp',
    @MPIR_Bsend_take_buffer lp64 fresh_buffer fresh_heap 4096 100 = Some (bb', m')
    ∧ m' !! 4096 = Some bp'
    ∧ 100 ≤ size bp' ≤ 4032
    ∧ size bp' < @round_up 100 16 + 64 + 8
    ∧ total_size bp' = size bp' + 64.
Proof.
  apply (@take_buffer_slack lp64 fresh_buffer fresh_heap 4096 100 [] [] [] fresh_block 4).
  - reflexivity.
  - lia.
  - vm_compute. discriminate.
  - apply dseg_cons. split; [reflexivity|]. split; [done|].
    exists fresh_block. split; [reflexivity|]. split; [reflexivity|]. by apply dseg_nil.
  - by apply dseg_nil.
  - intros x _. apply not_elem_of_nil.
  - reflexivity.
  - lia.
  - reflexivity.
  - cbn. lia.
  - cbn. lia.
  - intros _. vm_compute. intros Hin. apply elem_of_cons in Hin as [Hin|Hin]; [done|].
    by apply elem_of_nil in Hin.
Defined.

Lemma take_buffer_conserves_witness :
  ∃ bb' m' fl' al',
    @MPIR_Bsend_take_buffer lp64 fresh_buffer fresh_heap 4096 100 = Some (bb', m')
    ∧ dlist m' (avail bb') fl' ∧ dlist m' (active bb') al'
    ∧ total_span m' fl' + total_span m' al' = 4096.
Proof.
  apply (@take_buffer_conserves lp64 fresh_buffer fresh_heap 4096 100 [] [] [] fresh_block 4).
  - reflexivity.
  - lia.
  - vm_compute. discriminate.
  - apply dseg_cons. split; [reflexivity|]. split; [done|].
    exists fresh_block. split; [reflexivity|]. split; [reflexivity|]. by apply dseg_nil.
  - by apply dseg_nil.
  - intros x _. apply not_elem_of_nil.
  - reflexivity.
  - lia.
  - reflexivity.
  - cbn. lia.
  - cbn. lia.
  - intros _. vm_compute. intros Hin. apply elem_of_cons in Hin as [Hin|Hin]; [done|].
    by apply elem_of_nil in Hin.
Defined.

Lemma free_segment_conserves_witness :
  ∃ bb' m' fl' al',
    @MPIR_Bsend_free_segment lp64 2 split_buffer split_heap 4272 = Some (bb', m')
    ∧ dlist m' (avail bb') fl' ∧ dlist m' (active bb') al'
    ∧ total_span m' fl' + total_span m' al' = 4096.
Proof.
  apply (@free_segment_conserves lp64 2 split_buffer split_heap 4272 [4096; 4448] [4272]).
  - vm_compute. discriminate.
  - apply dseg_cons. split; [reflexivity|]. split; [done|].
    exists left_block. split; [reflexivity|]. split; [reflexivity|].
    apply dseg_cons. split; [reflexivity|]. split; [done|].
    exists right_block. split; [reflexivity|]. split; [reflexivity|]. by apply dseg_nil.
  - apply dseg_cons. split; [reflexivity|]. split; [done|].
    exists mid_block. split; [reflexivity|]. split; [reflexivity|]. by apply dseg_nil.
  - left.
  - intros x Hx Hx'. apply list_elem_of_singleton in Hx' as ->.
    apply elem_of_cons in Hx as [Hx|Hx]; [done|].
    apply list_elem_of_singleton in Hx. done.
  - repeat constructor.
  - split; [|split; [|done]].
    + intros b Hb. injection Hb as <-. vm_compute. discriminate.
    + intros b Hb. discriminate.
  - intros a Ha.
    assert (a = 4272 ∨ a = 4096 ∨ a = 4448) as [-> | [-> | ->]].
    { rewrite !elem_of_cons in Ha. destruct Ha as [?|[?|[?|Ha]]]; auto.
      by apply elem_of_nil in Ha. }
    + exists mid_block. split; [reflexivity|]. vm_compute. repeat split; discriminate.
    + exists left_block. split; [reflexivity|]. vm_compute. repeat split; discriminate.
    + exists right_block. split; [reflexivity|]. vm_compute. repeat split; discriminate.
  - cbn. lia.
Defined.

Lemma take_then_free_restores_witness :
  ∃ bb1 m1 bb2 m2,
    @MPIR_Bsend_take_buffer lp64 fresh_buffer fresh_heap 4096 100 = Some (bb1, m1)
    ∧ @MPIR_Bsend_free_segment lp64 1 bb1 m1 4096 = Some (bb2, m2)
    ∧ dlist m2 (avail bb2) [4096]
    ∧ dlist m2 (active bb2) []
    ∧ spans m2 [4096] = [(4096, 4096)]
    ∧ avail bb2 = 4096 ∧ active bb2 = NULL ∧ same_buffer fresh_buffer bb2.
Proof.
  apply (@take_then_free_restores lp64 1 fresh_buffer fresh_heap 4096 100 [] [] []
           fresh_block 4).
  - reflexivity.
  - lia.
  - vm_compute. reflexivity.
  - apply dseg_cons. split; [reflexivity|]. split; [done|].
    exists fresh_block. split; [reflexivity|]. split; [reflexivity|]. by apply dseg_nil.
  - by apply dseg_nil.
  - intros x _. apply not_elem_of_nil.
  - repeat constructor.
  - split; [|done]. intros b Hb. discriminate.
  - split; [|done]. intros b Hb. discriminate.
  - intros a Ha. apply list_elem_of_singleton in Ha as ->.
    exists fresh_block. split; [reflexivity|]. vm_compute. repeat split; discriminate.
  - intros x Hx. by apply elem_of_nil in Hx.
  - reflexivity.
  - cbn. lia.
  - cbn. lia.
  - cbn. lia.
Defined.

Lemma dump_logs_both_lists_witness :
  @MPIR_Bsend_dump 2 split_buffer split_heap
  = Some [DumpTotal 4096; DumpAvailList; DumpBlock 4096 176; DumpBlock 4448 3744;
          DumpActiveList; DumpBlock 4272 176; DumpEnd].
Proof.
  apply (@dump_logs_both_lists 2 split_buffer split_heap [4096; 4448] [4272]).
  - apply dseg_cons. split; [reflexivity|]. split; [done|].
    exists left_block. split; [reflexivity|]. split; [reflexivity|].
    apply dseg_cons. split; [reflexivity|]. split; [done|].
    exists right_block. split; [reflexivity|]. split; [reflexivity|]. by apply dseg_nil.
  - apply dseg_cons. split; [reflexivity|]. split; [done|].
    exists mid_block. split; [reflexivity|]. split; [reflexivity|]. by apply dseg_nil.
  - cbn. lia.
  - cbn. lia.
Defined.

Lemma dump_corruption_check_witness :
  dump_from 1 self_heap 4096 DumpCorruptAvail
  = Some [DumpBlock 4096 4096; DumpCorruptAvail]
  ∧ ∀ fuel : nat, MPIR_Bsend_dump fuel fresh_buffer ring_heap = None.
Proof.
  split.
  - destruct (dump_corruption_check self_heap fresh_buffer) as [Hself _].
    apply (Hself 1%nat [] 4096 self_block).
    + reflexivity.
    + done.
    + reflexivity.
    + reflexivity.
    + constructor.
    + cbn. lia.
  - destruct (dump_corruption_check ring_heap fresh_buffer) as [_ Hring].
    apply (Hring 4448 left_block ring_block); try done.
Defined.

Lemma isend_request_out_witness :
  ∃ w',
    @MPIR_Bsend_isend lp64 (engine_of 0 7 0 true) 2 send_100_req
      (mkComm (Some fresh_buffer) None) None (@world_of (engine_of 0 7 0 true) fresh_heap tt)
    = Some (MPI_SUCCESS, Some 7, mkComm (Some (mkBuffer 4096 4096 4096 4096 4272 4096)) None,
            None, w')
    ∧ request_of (mem w') 4096 = 7.
Proof.
  pose (w0 := @world_of (engine_of 0 7 0 true) fresh_heap tt).
  eassert (@MPIR_Bsend_isend lp64 (engine_of 0 7 0 true) 2 send_100_req
             (mkComm (Some fresh_buffer) None) None w0
           = Some (MPI_SUCCESS, Some 7, _, _, _)) as Hrun.
  { vm_compute. reflexivity. }
  edestruct (@isend_request_out lp64 (engine_of 0 7 0 true) 2 send_100_req
               (mkComm (Some fresh_buffer) None) None w0 CommSlot fresh_buffer)
    as [Hout _].
  - lia.
  - vm_compute. reflexivity.
  - reflexivity.
  - exact Hrun.
  - cbn [trace w0 world_of app]. reflexivity.
  - destruct (Hout 7 eq_refl) as (_ & _ & _ & pre & p & c & bb' & _ & Hslots & Hact & Hreq).
    cbn in Hslots. injection Hslots as <-. cbn in Hact. subst p.
    eexists. split; [exact Hrun|exact Hreq].
Defined.

Lemma isend_pack_error_witness :
  ∃ w',
    @MPIR_Bsend_isend lp64 (engine_full 3 0 7 0 0 true false) 2 send_100
      (mkComm (Some fresh_buffer) None) None
      (@world_of (engine_full 3 0 7 0 0 true false) fresh_heap tt)
    = Some (Err_other 3, None, mkComm (Some fresh_buffer) None, None, w')
    ∧ (∀ r, EvIsend r ∉ trace w')
    ∧ Forall (λ ev, is_take ev = false) (trace w').
Proof.
  pose (w0 := @world_of (engine_full 3 0 7 0 0 true false) fresh_heap tt).
  eassert (@MPIR_Bsend_isend lp64 (engine_full 3 0 7 0 0 true false) 2 send_100
             (mkComm (Some fresh_buffer) None) None w0
           = Some (Err_other 3, None, _, _, _)) as Hrun.
  { vm_compute. reflexivity. }
  edestruct (@isend_pack_error lp64 (engine_full 3 0 7 0 0 true false) 2 send_100
               (mkComm (Some fresh_buffer) None) None w0 CommSlot fresh_buffer 3)
    as (_ & _ & Hsend & Htake & _).
  - lia.
  - reflexivity.
  - intros en b c d pb ps. reflexivity.
  - discriminate.
  - vm_compute. discriminate.
  - exact Hrun.
  - cbn [trace w0 world_of app]. reflexivity.
  - eexists. split; [exact Hrun|]. split; [exact Hsend|exact Htake].
Defined.

Lemma progress_releases_finished_witness :
  ∃ bb' w' fl',
    @MPIR_Bsend_progress lp64 (engine_where (λ r, r =? 7)) 3 pair_buffer
      (@world_of (engine_where (λ r, r =? 7)) pair_heap tt) = Some (bb', w')
    ∧ dlist (mem w') (active bb') [4272]
    ∧ dlist (mem w') (avail bb') fl'
    ∧ ascending fl'
    ∧ total_span (mem w') fl' = 3744 + 176
    ∧ trace w' = [EvFreeSegment 4096; EvRequestFree 7].
Proof.
  pose (w0 := @world_of (engine_where (λ r, r =? 7)) pair_heap tt).
  destruct (@progress_releases_finished lp64 (engine_where (λ r, r =? 7)) 3 pair_buffer w0
              [4448] [4272; 4096])
    as (bb' & w' & fl' & Hrun & Hal & Hfl & _ & Hasc & _ & _ & Hts & Htr & _).
  - intros e r r' _. split; reflexivity.
  - vm_compute. discriminate.
  - apply dseg_cons. split; [reflexivity|]. split; [done|].
    exists rest_block. split; [reflexivity|]. split; [reflexivity|]. by apply dseg_nil.
  - apply dseg_cons. split; [reflexivity|]. split; [done|].
    exists second_block. split; [reflexivity|]. split; [reflexivity|].
    apply dseg_cons. split; [reflexivity|]. split; [done|].
    exists first_block. split; [reflexivity|]. split; [reflexivity|]. by apply dseg_nil.
  - intros x Hx Hx'. apply list_elem_of_singleton in Hx as ->.
    apply elem_of_cons in Hx' as [Hx'|Hx']; [done|].
    apply list_elem_of_singleton in Hx'. done.
  - repeat constructor.
  - split; [|done]. intros b Hb. discriminate.
  - intros a Ha.
    assert (a = 4448 ∨ a = 4272 ∨ a = 4096) as [-> | [-> | ->]].
    { cbn [app] in Ha. rewrite !elem_of_cons in Ha. destruct Ha as [?|[?|[?|Ha]]]; auto.
      by apply elem_of_nil in Ha. }
    + exists rest_block. split; [reflexivity|]. vm_compute. repeat split; discriminate.
    + exists second_block. split; [reflexivity|]. vm_compute. repeat split; discriminate.
    + exists first_block. split; [reflexivity|]. vm_compute. repeat split; discriminate.
  - change (NoDup [8; 7]). apply NoDup_cons. split; [|apply NoDup_singleton].
    intros Hin. apply list_elem_of_singleton in Hin. discriminate.
  - cbn. lia.
  - exists bb', w', fl'. split; [exact Hrun|]. split; [exact Hal|]. split; [exact Hfl|].
    split; [exact Hasc|]. split; [exact Hts|exact Htr].
Defined.

Lemma progress_keeps_blocks_in_flight_witness :
  @MPIR_Bsend_progress lp64 (engine_of 0 1 0 false) 1 demo_buffer
    (@world_of (engine_of 0 1 0 false) demo_heap tt)
  = Some (demo_buffer, @world_of (engine_of 0 1 0 false) demo_heap tt).
Proof.
  apply (@progress_keeps_blocks_in_flight lp64 (engine_of 0 1 0 false) 1 demo_buffer
           (@world_of (engine_of 0 1 0 false) demo_heap tt) [4096]).
  - apply dseg_cons. split; [reflexivity|]. split; [done|].
    exists active_block. split; [reflexivity|]. split; [reflexivity|]. by apply dseg_nil.
  - constructor; [reflexivity|constructor].
  - cbn. lia.
Defined.
